(** * CHash: the pointer-keyed hash table of AeonProfiler (Inc/Hash.h)

    A shallow embedding of [CHash<T>] at the level of machine words.

    Target: the 64-bit Windows build the profiler is written for (LLP64):
    pointers, [size_t], [uintptr_t] and [unsigned long long] are 64 bits,
    [int], [unsigned int], [long] and [unsigned long] are 32 bits, so
    a pointer takes 8 bytes and a [Hash_t] node 24.

    Memory is a finite map from byte addresses to 8-byte words; every
    access the class makes is to a pointer-sized, pointer-aligned field.
    The object's own members are kept in a record next to the memory. *)

From stdpp Require Import base numbers option list gmap.
From Stdlib Require Import ZArith Lia Bool.

Local Open Scope Z_scope.

(** ** Machine integers *)

Definition u64 (x : Z) : Z := x mod 2 ^ 64.
Definition u32 (x : Z) : Z := x mod 2 ^ 32.
(** two's complement [int] (what [HashTableSize * 2] yields on the target) *)
Definition s32 (x : Z) : Z := (x + 2 ^ 31) mod 2 ^ 32 - 2 ^ 31.

Definition sizeof_ptr : Z := 8.
(** [struct Hash_t { const void* key; T* value; Hash_t* Next; }] *)
Definition sizeof_Hash_t : Z := 24.
Definition off_key : Z := 0.
Definition off_value : Z := 8.
Definition off_Next : Z := 16.

(** ** HashPointer *)

Definition sub64 (x y : Z) : Z := u64 (x - y).
Definition shl64 (x n : Z) : Z := u64 (Z.shiftl x n).
Definition shr64 (x n : Z) : Z := Z.shiftr x n.

Definition HashPointer (p : Z) : Z :=
  let a := 2654435769 (* 0x9e3779b9 *) in
  let b := 2654435769 in
  let c := 0 in
  let a := u64 (a + p) in
  let a := sub64 a b in let a := sub64 a c in let a := Z.lxor a (shr64 c 13) in
  let b := sub64 b c in let b := sub64 b a in let b := Z.lxor b (shl64 a 8) in
  let c := sub64 c a in let c := sub64 c b in let c := Z.lxor c (shr64 b 13) in
  let a := sub64 a b in let a := sub64 a c in let a := Z.lxor a (shr64 c 12) in
  let b := sub64 b c in let b := sub64 b a in let b := Z.lxor b (shl64 a 16) in
  let c := sub64 c a in let c := sub64 c b in let c := Z.lxor c (shr64 b 5) in
  let a := sub64 a b in let a := sub64 a c in let a := Z.lxor a (shr64 c 3) in
  let b := sub64 b c in let b := sub64 b a in let b := Z.lxor b (shl64 a 10) in
  let c := sub64 c a in let c := sub64 c b in let c := Z.lxor c (shr64 b 15) in
  (* return (long)c;  converted to the unsigned long return type *)
  u32 c.

Global Arguments HashPointer : simpl never.

(** ** Memory and the object *)

Definition load (m : gmap Z Z) (a : Z) : Z := default 0 (m !! a).
Definition store (m : gmap Z Z) (a v : Z) : gmap Z Z := <[a := v]> m.

(** The members of [CHash<T>], followed by the two parts of the world the
    class works on: the memory and the arena behind [HashAllocator]. *)
Record CHash : Type := mkCHash {
  HashAllocator : Z;              (* CAllocator*, 0 is nullptr *)
  HashTableSize : Z;              (* volatile int *)
  HashTable : Z;                  (* volatile Hash_t** *)
  OldHashTable : Z;               (* volatile Hash_t** *)
  OldHashTableFreeRemaining : Z;  (* size_t *)
  NumUsedSlots : Z;               (* unsigned int *)
  MaxListLength : Z;              (* unsigned int *)
  NumTotalRecords : Z;            (* unsigned int *)
  mem : gmap Z Z;
  brk : Z
}.

Definition set_mem (s : CHash) (m : gmap Z Z) : CHash :=
  mkCHash (HashAllocator s) (HashTableSize s) (HashTable s) (OldHashTable s)
    (OldHashTableFreeRemaining s) (NumUsedSlots s) (MaxListLength s)
    (NumTotalRecords s) m (brk s).

Definition set_brk (s : CHash) (b : Z) : CHash :=
  mkCHash (HashAllocator s) (HashTableSize s) (HashTable s) (OldHashTable s)
    (OldHashTableFreeRemaining s) (NumUsedSlots s) (MaxListLength s)
    (NumTotalRecords s) (mem s) b.

Definition set_old (s : CHash) (p r : Z) : CHash :=
  mkCHash (HashAllocator s) (HashTableSize s) (HashTable s) p r
    (NumUsedSlots s) (MaxListLength s) (NumTotalRecords s) (mem s) (brk s).

Definition set_stats (s : CHash) (used mx total : Z) : CHash :=
  mkCHash (HashAllocator s) (HashTableSize s) (HashTable s) (OldHashTable s)
    (OldHashTableFreeRemaining s) used mx total (mem s) (brk s).

Definition set_table (s : CHash) (size tbl : Z) : CHash :=
  mkCHash (HashAllocator s) size tbl (OldHashTable s)
    (OldHashTableFreeRemaining s) (NumUsedSlots s) (MaxListLength s)
    (NumTotalRecords s) (mem s) (brk s).

(** Modelled from the spec: [Allocator.h] (class [CAllocator]) is not part of
    the sources.  The spec describes an arena/bump allocator that hands out
    sequential byte ranges, aligned as requested, never freed one by one; the
    table relies on the ranges being zero-filled (it never clears a bucket
    array itself), so fresh memory reads as zero.  [brk] is the first byte
    the arena has not handed out yet. *)
Definition align_up (a al : Z) : Z := ((a + al - 1) / al) * al.

Definition AllocateBytes (s : CHash) (n al : Z) : Z * CHash :=
  let p := align_up (brk s) al in (p, set_brk s (p + n)).

(** ** AllocateFromOldHashTable *)

Definition AllocateFromOldHashTable (s : CHash) : Z * CHash :=
  let FreePointer := OldHashTable s in
  let Alignment := sizeof_ptr in
  let pAlignedFreePointer :=
    (u64 (FreePointer + sizeof_Hash_t + Alignment - 1) / Alignment) * Alignment in
  let AlignedOffset := u64 (pAlignedFreePointer - FreePointer) in
  let remaining := u64 (OldHashTableFreeRemaining s - AlignedOffset) in
  if sizeof_Hash_t <=? remaining
  then (FreePointer, set_old s pAlignedFreePointer remaining)
  else (FreePointer, set_old s 0 0).

(** ** Single-precision arithmetic

    The resize test is written with [float]s.  The three operations it uses
    (conversion from an integer, one product, one quotient) are modelled
    exactly: a finite binary32 value is [m * 2^e], and every operation
    rounds the exact result to 24 significant bits, ties to even.  All the
    values that occur lie between [2^-32] and [2^32], far from the overflow
    and denormal ranges, which are therefore not modelled. *)

Inductive f32 : Type :=
  | Fin (m e : Z)      (* m * 2^e *)
  | FInf
  | FNaN.

Definition f32_num (m e : Z) : Z := m * 2 ^ Z.max e 0.
Definition f32_den (e : Z) : Z := 2 ^ Z.max (- e) 0.

(** nearest integer to [n / d], ties to even ([0 <= n], [0 < d]) *)
Definition rne (n d : Z) : Z :=
  let q := n / d in
  let r := n mod d in
  if 2 * r <? d then q
  else if d <? 2 * r then q + 1
  else if Z.even q then q else q + 1.

(** exponent [e] with [2^23 <= (n/d) / 2^e < 2^24] ([0 < n], [0 < d]) *)
Definition f32_exp (n d : Z) : Z :=
  let k := Z.log2 n - Z.log2 d in
  (if d * 2 ^ Z.max k 0 <=? n * 2 ^ Z.max (- k) 0 then k else k - 1) - 23.

Definition f32_round (n d : Z) : f32 :=
  if n =? 0 then Fin 0 0
  else
    let a := Z.abs n in
    let e := f32_exp a d in
    Fin (Z.sgn n * rne (a * 2 ^ Z.max (- e) 0) (d * 2 ^ Z.max e 0)) e.

Definition f32_of_int (n : Z) : f32 := f32_round n 1.

Definition f32_mul (x y : f32) : f32 :=
  match x, y with
  | Fin m1 e1, Fin m2 e2 =>
      f32_round (f32_num m1 e1 * f32_num m2 e2) (f32_den e1 * f32_den e2)
  | _, _ => FNaN
  end.

Definition f32_div (x y : f32) : f32 :=
  match x, y with
  | Fin m1 e1, Fin m2 e2 =>
      if m2 =? 0 then (if m1 =? 0 then FNaN else FInf)
      else f32_round (Z.sgn m2 * f32_num m1 e1 * f32_den e2)
                     (f32_den e1 * Z.abs (f32_num m2 e2))
  | _, _ => FNaN
  end.

(** [x > y] for a finite [y] *)
Definition f32_gt (x y : f32) : bool :=
  match x, y with
  | Fin m1 e1, Fin m2 e2 =>
      f32_num m2 e2 * f32_den e1 <? f32_num m1 e1 * f32_den e2
  | FInf, Fin _ _ => true
  | _, _ => false
  end.

(** [(unsigned int)x]: truncation toward zero *)
Definition f32_to_uint (x : f32) : Z :=
  match x with
  | Fin m e => u32 (Z.quot (f32_num m e) (f32_den e))
  | _ => 0
  end.

(** the literals [0.8f] and [5.0f] *)
Definition f32_0_8 : f32 := Fin 13421773 (-24).
Definition f32_5 : f32 := Fin 5 0.

(** ** Outcomes

    A call either returns, or trips [assert(false)], or faults (a division
    by zero, a call through a null allocator), or exhausts the fuel that
    bounds the [while] loops of the model. *)

Inductive result (A : Type) : Type :=
  | Ok (a : A)
  | AssertFailed
  | Fault
  | OutOfFuel.
Arguments Ok {A} a.
Arguments AssertFailed {A}.
Arguments Fault {A}.
Arguments OutOfFuel {A}.

Definition bind {A B : Type} (r : result A) (k : A -> result B) : result B :=
  match r with
  | Ok a => k a
  | AssertFailed => AssertFailed
  | Fault => Fault
  | OutOfFuel => OutOfFuel
  end.

Notation "x <- r ;; k" := (bind r (fun x => k))
  (at level 100, r at next level, right associativity).

(** [HashAllocator->AllocateBytes(n, al)] *)
Definition alloc (s : CHash) (n al : Z) : result (Z * CHash) :=
  if HashAllocator s =? 0 then Fault else Ok (AllocateBytes s n al).

(** [HashPointer(k) % HashTableSize]: the [int] is converted to the
    [unsigned long] of the left operand *)
Definition slot_of (s : CHash) (k : Z) : result Z :=
  let n := u32 (HashTableSize s) in
  if n =? 0 then Fault else Ok (HashPointer k mod n).

Definition bucket_addr (tbl i : Z) : Z := tbl + sizeof_ptr * i.

(** ** The constructor

    [OldHashTable] and [OldHashTableFreeRemaining] are not in the
    initializer list: they keep whatever the object's storage held, which
    the caller passes as [old] and [rem]. *)
Definition construct (InHashAllocator InHashTableSize : Z)
    (old rem : Z) (m : gmap Z Z) (b : Z) : CHash :=
  let s := mkCHash InHashAllocator InHashTableSize 0 old rem 0 0 0 m b in
  if (negb (InHashAllocator =? 0)) && (negb (InHashTableSize =? 0))
  then let '(p, s) := AllocateBytes s (u64 (InHashTableSize * sizeof_ptr)) sizeof_ptr in
       set_table s InHashTableSize p
  else s.

(** ** The chain walks *)

(** the first loop of [LookupPointer] *)
Inductive walk_out : Type :=
  | Found (p mx : Z)
  | Missing (prev mx : Z).

Fixpoint walk (fuel : nat) (m : gmap Z Z) (InPointer p prev len mx : Z)
    : result walk_out :=
  if p =? 0 then Ok (Missing prev mx)
  else match fuel with
       | O => OutOfFuel
       | S fuel =>
           let len := u32 (len + 1) in
           let mx := if mx <? len then len else mx in
           if load m (p + off_key) =? InPointer then Ok (Found p mx)
           else walk fuel m InPointer (load m (p + off_Next)) p len mx
       end.

(** the loop that looks the key up again after a resize *)
Fixpoint find (fuel : nat) (m : gmap Z Z) (InPointer p : Z) : result (option Z) :=
  if p =? 0 then Ok None
  else match fuel with
       | O => OutOfFuel
       | S fuel =>
           if load m (p + off_key) =? InPointer then Ok (Some p)
           else find fuel m InPointer (load m (p + off_Next))
       end.

(** the inner loop of [IncreaseHashTableSize]: to the end of a new chain *)
Fixpoint walk_tail (fuel : nat) (m : gmap Z Z) (p prev len mx : Z)
    : result (Z * Z) :=
  if p =? 0 then Ok (prev, mx)
  else match fuel with
       | O => OutOfFuel
       | S fuel =>
           let len := u32 (len + 1) in
           let mx := if mx <? len then len else mx in
           walk_tail fuel m (load m (p + off_Next)) p len mx
       end.

(** ** IncreaseHashTableSize *)

(** the body of [while( p )] for one node [p] of an old chain; returns the
    next node of the old chain *)
Definition migrate_node (fuel : nat) (s : CHash) (p : Z) : result (Z * CHash) :=
  new_rehash <- slot_of s (load (mem s) (p + off_key)) ;;
  let head := load (mem s) (bucket_addr (HashTable s) new_rehash) in
  r <- walk_tail fuel (mem s) head 0 0 (MaxListLength s) ;; let '(pPrevHashRecord, mx) := r in
  let pHashRecord := p in
  let p := load (mem s) (p + off_Next) in
  let m := store (mem s) (pHashRecord + off_Next) 0 in
  let '(m, used) :=
    if pPrevHashRecord =? 0
    then (store m (bucket_addr (HashTable s) new_rehash) pHashRecord,
          u32 (NumUsedSlots s + 1))
    else (store m (pPrevHashRecord + off_Next) pHashRecord, NumUsedSlots s) in
  Ok (p, set_stats (set_mem s m) used mx (u32 (NumTotalRecords s + 1))).

(** [while( p )] over an old chain; every [while] loop of the model may run
    [fuel] times, [n] counts what is left for this one *)
Fixpoint migrate_chain (fuel n : nat) (s : CHash) (p : Z) : result CHash :=
  if p =? 0 then Ok s
  else match n with
       | O => OutOfFuel
       | S n =>
           r <- migrate_node fuel s p ;; let '(p, s) := r in
           migrate_chain fuel n s p
       end.

(** [for( int i = ...; i < OldHashTableSize; i++ )], [n] iterations left *)
Fixpoint migrate_buckets (fuel : nat) (n : nat) (i : Z) (s : CHash) : result CHash :=
  match n with
  | O => Ok s
  | S n =>
      s <- migrate_chain fuel fuel s
             (load (mem s) (bucket_addr (OldHashTable s) i)) ;;
      migrate_buckets fuel n (i + 1) s
  end.

Definition IncreaseHashTableSize (fuel : nat) (s : CHash) : result CHash :=
  let OldHashTableSize := HashTableSize s in
  let s := set_old s (HashTable s) (u64 (OldHashTableSize * sizeof_ptr)) in
  let size := s32 (HashTableSize s * 2) in
  r <- alloc s (u64 (size * sizeof_ptr)) sizeof_ptr ;; let '(tbl, s) := r in
  let s := set_table s size tbl in
  let s := set_stats s 0 0 0 in
  migrate_buckets fuel (Z.to_nat OldHashTableSize) 0 s.

(** ** LookupPointer *)

(** the test that decides whether the table grows after an insertion, as a
    function of the four numbers it reads *)
Definition resize_test (size used total mx : Z) : bool :=
  let probe_average := f32_div (f32_of_int total) (f32_of_int used) in
  (f32_to_uint (f32_mul (f32_of_int size) f32_0_8) <? used)
  || f32_gt probe_average f32_5
  || (10 <? mx).

Definition needs_resize (s : CHash) : bool :=
  resize_test (HashTableSize s) (NumUsedSlots s) (NumTotalRecords s)
    (MaxListLength s).

(** what the comments of the test say it decides: more than 80% of the
    slots used, more than 5 probes on average, a list of more than 10 *)
Definition resize_wanted (size used total mx : Z) : Prop :=
  4 * size < 5 * used \/ 5 * used < total \/ 10 < mx.

(** the node for a key that was not found: from the old bucket array while
    the cursor is set, from the allocator otherwise *)
Definition new_node (s : CHash) : result (Z * CHash) :=
  if negb (OldHashTable s =? 0) then Ok (AllocateFromOldHashTable s)
  else alloc s sizeof_Hash_t sizeof_ptr.

(** the part of [LookupPointer] that adds a node for a key the walk did not
    find: allocation, initialisation, linking behind [pPrevHashRecord] (or
    into the empty bucket [hash]) and the two counters *)
Definition link_new (s : CHash) (InPointer hash pPrevHashRecord : Z)
    : result (Z * CHash) :=
  r <- new_node s ;; let '(pNewHashRec, s) := r in
  let m := store (mem s) (pNewHashRec + off_key) InPointer in
  let m := store m (pNewHashRec + off_value) 0 in
  let m := store m (pNewHashRec + off_Next) 0 in
  let '(m, used) :=
    if pPrevHashRecord =? 0
    then (store m (bucket_addr (HashTable s) hash) pNewHashRec,
          u32 (NumUsedSlots s + 1))
    else (store m (pPrevHashRecord + off_Next) pNewHashRec, NumUsedSlots s) in
  Ok (pNewHashRec,
      set_stats (set_mem s m) used (MaxListLength s) (u32 (NumTotalRecords s + 1))).

(** the part that finds the key again once the table has grown *)
Definition relookup (fuel : nat) (s : CHash) (InPointer : Z) : result (Z * CHash) :=
  rehash <- slot_of s InPointer ;;
  r <- find fuel (mem s) InPointer
         (load (mem s) (bucket_addr (HashTable s) rehash)) ;;
  match r with
  | Some p => Ok (p + off_value, s)
  | None => AssertFailed   (* DebugLog(...); assert(false); *)
  end.

(** the first loop, from the head of the key's bucket *)
Definition probe (fuel : nat) (s : CHash) (InPointer : Z) : result walk_out :=
  hash <- slot_of s InPointer ;;
  walk fuel (mem s) InPointer
    (load (mem s) (bucket_addr (HashTable s) hash)) 0 0 (MaxListLength s).

(** returns the address of the [value] member of the node of [InPointer] *)
Definition LookupPointer (fuel : nat) (s : CHash) (InPointer : Z)
    : result (Z * CHash) :=
  hash <- slot_of s InPointer ;;
  w <- probe fuel s InPointer ;;
  match w with
  | Found p mx =>
      Ok (p + off_value,
          set_stats s (NumUsedSlots s) mx (NumTotalRecords s))
  | Missing pPrevHashRecord mx =>
      let s := set_stats s (NumUsedSlots s) mx (NumTotalRecords s) in
      r <- link_new s InPointer hash pPrevHashRecord ;;
      let '(pNewHashRec, s) := r in
      if needs_resize s then
        s <- IncreaseHashTableSize fuel s ;;
        relookup fuel s InPointer
      else Ok (pNewHashRec + off_value, s)
  end.

(** [n / d] scaled by [2^-e], as a fraction of integers *)
Definition scale_num (n e : Z) : Z := n * 2 ^ Z.max (- e) 0.
Definition scale_den (d e : Z) : Z := d * 2 ^ Z.max e 0.

(** ** The table a state represents

    The bucket array and the nodes are read back from memory as a list of
    chains, one per bucket; a chain is the list of node addresses that the
    [Next] links visit from the head stored in the bucket. *)

Fixpoint chain (m : gmap Z Z) (p : Z) (l : list Z) : Prop :=
  match l with
  | [] => p = 0
  | a :: l => p = a /\ a <> 0 /\ chain m (load m (a + off_Next)) l
  end.

Definition node_key (m : gmap Z Z) (a : Z) : Z := load m (a + off_key).
Definition node_value (m : gmap Z Z) (a : Z) : Z := load m (a + off_value).

(** every bucket of the array at [tbl] heads the chain listed for it *)
Definition table_rep (m : gmap Z Z) (tbl : Z) (B : list (list Z)) : Prop :=
  forall (i : nat) (l : list Z), B !! i = Some l ->
    chain m (load m (bucket_addr tbl (Z.of_nat i))) l.

Definition snoc (a : Z) (l : list Z) : list Z := l ++ [a].

(** the store that links node [a] behind [prev], or into the empty bucket
    [h] when there is no [prev] *)
Definition link (m : gmap Z Z) (tbl h prev a : Z) : gmap Z Z :=
  if prev =? 0 then store m (bucket_addr tbl h) a
  else store m (prev + off_Next) a.

(** the byte ranges [a, a + n) and [b, b + k) do not meet *)
Definition apart (a n b k : Z) : Prop := a + n <= b \/ b + k <= a.

Definition table_bytes (s : CHash) : Z := sizeof_ptr * HashTableSize s.

(** the recycling cursor is either cleared or points at unused bytes of a
    bucket array that was replaced *)
Definition cursor_ok (s : CHash) (B : list (list Z)) : Prop :=
  OldHashTable s = 0 \/
  (0 < OldHashTable s /\ OldHashTable s mod sizeof_ptr = 0 /\
   sizeof_Hash_t <= OldHashTableFreeRemaining s /\
   OldHashTable s + OldHashTableFreeRemaining s <= brk s /\
   apart (OldHashTable s) (OldHashTableFreeRemaining s) (HashTable s) (table_bytes s) /\
   forall a, a ∈ mjoin B ->
     apart a sizeof_Hash_t (OldHashTable s) (OldHashTableFreeRemaining s)).

Record Inv (s : CHash) (B : list (list Z)) : Prop := mkInv {
  inv_alloc : HashAllocator s <> 0;
  inv_size : 3 <= HashTableSize s /\ Z.of_nat (length B) = HashTableSize s;
  inv_table : 0 < HashTable s /\ HashTable s mod sizeof_ptr = 0 /\
              HashTable s + table_bytes s <= brk s;
  inv_chains : table_rep (mem s) (HashTable s) B;
  inv_nodup : NoDup (mjoin B);
  inv_nodes : forall a, a ∈ mjoin B ->
      0 < a /\ a + sizeof_Hash_t <= brk s /\
      apart a sizeof_Hash_t (HashTable s) (table_bytes s);
  inv_sep : forall a b, a ∈ mjoin B -> b ∈ mjoin B -> a <> b ->
      apart a sizeof_Hash_t b sizeof_Hash_t;
  inv_fresh : forall a, brk s <= a -> load (mem s) a = 0;
  inv_keys : forall (i : nat) (l : list Z) a, B !! i = Some l -> a ∈ l ->
      HashPointer (node_key (mem s) a) mod HashTableSize s = Z.of_nat i;
  inv_keys_nodup : NoDup (node_key (mem s) <$> mjoin B);
  inv_used : NumUsedSlots s = Z.of_nat (length (filter (fun l => l <> []) B));
  inv_total : NumTotalRecords s = Z.of_nat (length (mjoin B));
  inv_max : 0 <= MaxListLength s;
  inv_cursor : cursor_ok s B
}.

(** what [new_node] guarantees about the storage [n] it hands out *)
Definition fresh_node (s : CHash) (B : list (list Z)) (n : Z) (s' : CHash) : Prop :=
  mem s' = mem s /\ HashAllocator s' = HashAllocator s /\
  HashTableSize s' = HashTableSize s /\ HashTable s' = HashTable s /\
  NumUsedSlots s' = NumUsedSlots s /\ MaxListLength s' = MaxListLength s /\
  NumTotalRecords s' = NumTotalRecords s /\
  0 < n /\ n + sizeof_Hash_t <= brk s' /\ brk s <= brk s' <= brk s + 31 /\
  apart n sizeof_Hash_t (HashTable s) (table_bytes s) /\
  (forall b, b ∈ mjoin B -> apart n sizeof_Hash_t b sizeof_Hash_t) /\
  cursor_ok s' ([n] :: B).

(** the limits of the machine types: [HashTableSize * 2] fits an [int], the
    record counter an [unsigned int], addresses a pointer *)
Definition in_range (s : CHash) : Prop :=
  HashTableSize s < 2 ^ 30 /\ NumTotalRecords s < 2 ^ 32 - 1 /\ brk s < 2 ^ 63.

(** ** The state in the middle of a migration

    [s0] with chains [B] is the table when [IncreaseHashTableSize] is
    entered; [s] is the state after some nodes have been moved: the new
    bucket array holds the chains [Bn], the nodes [R] are still to be
    moved. *)
Record Mig (s0 : CHash) (B : list (list Z)) (s : CHash) (Bn : list (list Z))
    (R : list Z) : Prop := mkMig {
  mig_alloc : HashAllocator s = HashAllocator s0;
  mig_size : HashTableSize s = 2 * HashTableSize s0 /\
             Z.of_nat (length Bn) = HashTableSize s;
  mig_table : brk s0 <= HashTable s <= brk s0 + 7 /\
              HashTable s mod sizeof_ptr = 0 /\
              HashTable s + table_bytes s = brk s;
  mig_old : OldHashTable s = HashTable s0 /\
            OldHashTableFreeRemaining s = table_bytes s0;
  mig_rep : table_rep (mem s) (HashTable s) Bn;
  mig_perm : mjoin Bn ++ R ≡ₚ mjoin B;
  mig_keys : forall (i : nat) (l : list Z) a, Bn !! i = Some l -> a ∈ l ->
      HashPointer (node_key (mem s) a) mod HashTableSize s = Z.of_nat i;
  mig_same : forall a, a ∈ mjoin B ->
      node_key (mem s) a = node_key (mem s0) a /\
      node_value (mem s) a = node_value (mem s0) a;
  mig_heads : forall j, 0 <= j < HashTableSize s0 ->
      load (mem s) (bucket_addr (HashTable s0) j)
      = load (mem s0) (bucket_addr (HashTable s0) j);
  mig_fresh : forall a, brk s <= a -> load (mem s) a = 0;
  mig_used : NumUsedSlots s = Z.of_nat (length (filter (fun l => l <> []) Bn));
  mig_total : NumTotalRecords s = Z.of_nat (length (mjoin Bn));
  mig_max : 0 <= MaxListLength s
}.

(** the old chains from bucket [i] on are still linked as they were *)
Definition old_chains (s0 : CHash) (B : list (list Z)) (m : gmap Z Z) (i : nat)
    : Prop :=
  forall (j : nat) (l : list Z), (i <= j)%nat -> B !! j = Some l ->
    chain m (load (mem s0) (bucket_addr (HashTable s0) (Z.of_nat j))) l.

(** room for one more insertion, possibly followed by a resize *)
Definition fits (s : CHash) : Prop :=
  HashTableSize s < 2 ^ 30 /\ NumTotalRecords s < 2 ^ 32 - 2 /\
  brk s < 2 ^ 63 - 32.

(** ** The caller

    [LookupPointer] hands out the address of a [value] member; the caller
    looks at what it holds and, when it is null, stores the record it
    allocates for the key (the NOTE in [LookupPointer]). *)
Definition populate (s : CHash) (slot v : Z) : CHash :=
  if load (mem s) slot =? 0 then set_mem s (store (mem s) slot v) else s.

(** a sequence of lookups, each followed by [populate]; the result lists the
    slot addresses handed out, first lookup first *)
Fixpoint lookups (fuel : nat) (s : CHash) (kvs : list (Z * Z))
    : result (list Z * CHash) :=
  match kvs with
  | [] => Ok ([], s)
  | (k, v) :: kvs =>
      r <- LookupPointer fuel s k ;; let '(slot, s) := r in
      r <- lookups fuel (populate s slot v) kvs ;; let '(slots, s) := r in
      Ok (slot :: slots, s)
  end.

(** a table constructed in zero-filled storage, on an arena that starts at
    address [b] of an otherwise empty memory *)
Definition fresh_table (InHashTableSize b : Z) : CHash :=
  construct 1 InHashTableSize 0 0 ∅ b.

(** the counters of a state *)
Definition counters (s : CHash) : Z * Z * Z * Z :=
  (HashTableSize s, NumUsedSlots s, MaxListLength s, NumTotalRecords s).

Definition outcome {A : Type} (r : result A) : option A :=
  match r with Ok a => Some a | _ => None end.

(** ** A small table to instantiate statements with

    A fresh table of 8 buckets on an arena at 65536 into which the key 4096
    was inserted and its slot populated with 4097; the one node is at 65600,
    in bucket 7. *)
Definition sample_table : CHash :=
  match lookups 4 (fresh_table 8 65536) [(4096, 4097)] with
  | Ok (_, s) => s
  | _ => fresh_table 8 65536
  end.

Definition sample_chains : list (list Z) :=
  alter (snoc 65600) 7%nat (replicate 8 []).

(** room for [n] more insertions, each of which may double the table *)
Definition room (n : Z) (s : CHash) : Prop :=
  HashTableSize s * 2 ^ n < 2 ^ 30 /\ NumTotalRecords s + n < 2 ^ 32 - 2 /\
  brk s + n * 2 ^ 35 < 2 ^ 63 - 32.

(** [n] node allocations in a row, as [n] insertions of new keys make them;
    the addresses are listed first allocation first *)
Fixpoint new_nodes (n : nat) (s : CHash) : result (list Z * CHash) :=
  match n with
  | O => Ok ([], s)
  | S n =>
      r <- new_node s ;; let '(a, s) := r in
      r <- new_nodes n s ;; let '(l, s) := r in
      Ok (a :: l, s)
  end.

(** ** The values

    Modelled from the spec: the value type [T] is a template parameter, and
    no class that instantiates it is part of the sources.  The spec lists
    what a value must support (reporting its statistics at a nesting depth,
    the number of its records that qualify for export, an exported copy of
    itself, a reset of its counters at a timestamp), and says that the index
    treats the values as opaque and that a value works on its own
    structures, not on those of the index.  The four methods are therefore
    functions on a state [V] of the values' own, apart from the memory that
    holds the buckets and the nodes; the first argument is [this].
    [GetArrayCopy] allocates from the copy allocator, so it also passes on
    the break of that arena. *)
Class ValueType (V : Type) : Type := {
  T_PrintStats : Z -> Z -> V -> V;                          (* NestLevel *)
  T_GetNumRecordsToCopy : Z -> V -> Z * V;
  T_GetArrayCopy : Z -> Z -> bool -> V * Z -> Z * (V * Z);  (* allocator, flag *)
  T_ResetCounters : Z -> Z -> V -> V                        (* TimeNow *)
}.

(** ** The traversals

    [PrintStats], [CopyHashToArray] (twice) and [ResetCounters] run the same
    two loops: over the buckets, and over the chain of each bucket.  [body]
    is what the loop does with [p->value]; it works on the memory and on a
    state [A] of the loop.  [p->Next] is read after the body. *)
Fixpoint each_node {A : Type} (n : nat)
    (body : Z -> gmap Z Z * A -> result (gmap Z Z * A))
    (p : Z) (w : gmap Z Z * A) : result (gmap Z Z * A) :=
  if p =? 0 then Ok w
  else match n with
       | O => OutOfFuel
       | S n =>
           w <- body (load (fst w) (p + off_value)) w ;;
           each_node n body (load (fst w) (p + off_Next)) w
       end.

(** [for( int i = ...; i < HashTableSize; i++ )], [n] iterations left *)
Fixpoint each_bucket {A : Type} (fuel n : nat)
    (body : Z -> gmap Z Z * A -> result (gmap Z Z * A))
    (tbl i : Z) (w : gmap Z Z * A) : result (gmap Z Z * A) :=
  match n with
  | O => Ok w
  | S n =>
      w <- each_node fuel body (load (fst w) (bucket_addr tbl i)) w ;;
      each_bucket fuel n body tbl (i + 1) w
  end.

(** a method called on [p->value]: a call through a null pointer faults *)
Definition on_value {A : Type} (f : Z -> gmap Z Z * A -> gmap Z Z * A)
    (value : Z) (w : gmap Z Z * A) : result (gmap Z Z * A) :=
  if value =? 0 then Fault else Ok (f value w).

(** ** PrintStats *)

(** Modelled from the spec: [strcat_s] comes from the C runtime, not from
    the sources.  It appends when the result and its terminating NUL fit
    [numberOfElements] bytes; otherwise it reports a constraint violation,
    which ends the call here.  A buffer is the list of its characters before
    the NUL. *)
Definition strcat_s (strDestination : list Z) (numberOfElements : Z)
    (strSource : list Z) : result (list Z) :=
  if Z.of_nat (length strDestination + length strSource) + 1 <=? numberOfElements
  then Ok (strDestination ++ strSource)
  else Fault.

(** [for( int i = 0; (i < NestLevel) && (i < 32); i++ )], [n] iterations left *)
Fixpoint indent (n : nat) (buffer : list Z) : result (list Z) :=
  match n with
  | O => Ok buffer
  | S n => buffer <- strcat_s buffer 64 [32; 32] ;; indent n buffer
  end.

(** the arguments of the [DebugLog] call *)
Record StatsLine : Type := mkStatsLine {
  line_indent : list Z;
  line_header : list Z;
  line_used : Z;
  line_size : Z;
  line_total : Z;
  line_max : Z;
  line_probe_average : f32
}.

Definition PrintStats {V : Type} `{!ValueType V} (fuel : nat) (s : CHash)
    (Header : list Z) (NestLevel : Z) (st : V) : result (StatsLine * V) :=
  buffer <- indent (Z.to_nat (Z.min NestLevel 32)) [] ;;
  let probe_average :=
    if 0 <? NumTotalRecords s
    then f32_div (f32_of_int (NumTotalRecords s)) (f32_of_int (NumUsedSlots s))
    else Fin 0 0 in
  let line := mkStatsLine buffer Header (NumUsedSlots s) (HashTableSize s)
                (NumTotalRecords s) (MaxListLength s) probe_average in
  w <- each_bucket fuel (Z.to_nat (HashTableSize s))
         (on_value (fun value w =>
            (fst w, T_PrintStats value (s32 (NestLevel + 1)) (snd w))))
         (HashTable s) 0 (mem s, st) ;;
  Ok (line, snd w).

(** ** CopyHashToArray *)

(** the first pass: [NumTotalRecordsToCopy += ...] *)
Definition count_records {V : Type} `{!ValueType V} (value : Z)
    (w : gmap Z Z * (Z * V)) : gmap Z Z * (Z * V) :=
  let '(c, st) := T_GetNumRecordsToCopy value (snd (snd w)) in
  (fst w, (u32 (fst (snd w) + c), st)).

(** the second pass; the loop state is [ArrayIndex], the values and the
    break of the copy allocator's arena *)
Definition copy_record {V : Type} `{!ValueType V}
    (InCopyAllocator : Z) (bCopyMemberHashTables : bool) (pArrayOfPointers : Z)
    (value : Z) (w : gmap Z Z * (Z * (V * Z))) : gmap Z Z * (Z * (V * Z)) :=
  let ArrayIndex := fst (snd w) in
  let '(c, st) := T_GetNumRecordsToCopy value (fst (snd (snd w))) in
  if c =? 0 then (fst w, (ArrayIndex, (st, snd (snd (snd w)))))
  else
    let '(ptr, a) :=
      if bCopyMemberHashTables
      then T_GetArrayCopy value InCopyAllocator bCopyMemberHashTables
             (st, snd (snd (snd w)))
      else (value, (st, snd (snd (snd w)))) in
    (store (fst w) (pArrayOfPointers + sizeof_ptr * ArrayIndex) ptr,
     (s32 (ArrayIndex + 1), a)).

(** what the call leaves behind: the returned pointer, [OutArraySize], the
    memory, the values and the break of the copy allocator's arena *)
Record Copied (V : Type) : Type := mkCopied {
  pArrayOfPointers : Z;
  OutArraySize : Z;
  copied_mem : gmap Z Z;
  copied_values : V;
  copied_brk : Z
}.
Arguments mkCopied {V} _ _ _ _ _.
Arguments pArrayOfPointers {V} _.
Arguments OutArraySize {V} _.
Arguments copied_mem {V} _.
Arguments copied_values {V} _.
Arguments copied_brk {V} _.

(** [cb] is the break of the arena behind [InCopyAllocator] (the arena of
    the table itself when the caller passes [HashAllocator]) *)
Definition CopyHashToArray {V : Type} `{!ValueType V} (fuel : nat) (s : CHash)
    (InCopyAllocator cb : Z) (bCopyMemberHashTables : bool) (st : V)
    : result (Copied V) :=
  if negb (InCopyAllocator =? 0) && negb (HashTable s =? 0)
     && negb (NumTotalRecords s =? 0)
  then
    w <- each_bucket fuel (Z.to_nat (HashTableSize s)) (on_value count_records)
           (HashTable s) 0 (mem s, (0, st)) ;;
    let NumTotalRecordsToCopy := fst (snd w) in
    if negb (NumTotalRecordsToCopy =? 0) then
      let p := align_up cb sizeof_ptr in
      let cb := p + u64 (NumTotalRecordsToCopy * sizeof_ptr) in
      w <- each_bucket fuel (Z.to_nat (HashTableSize s))
             (on_value (copy_record InCopyAllocator bCopyMemberHashTables p))
             (HashTable s) 0 (fst w, (0, (snd (snd w), cb))) ;;
      Ok (mkCopied p NumTotalRecordsToCopy (fst w) (fst (snd (snd w)))
            (snd (snd (snd w))))
    else Ok (mkCopied 0 NumTotalRecordsToCopy (fst w) (snd (snd w)) cb)
  else Ok (mkCopied 0 0 (mem s) st cb).

(** ** ResetCounters *)

Definition ResetCounters {V : Type} `{!ValueType V} (fuel : nat) (s : CHash)
    (TimeNow : Z) (st : V) : result V :=
  if negb (HashTable s =? 0) && negb (NumTotalRecords s =? 0)
  then
    w <- each_bucket fuel (Z.to_nat (HashTableSize s))
           (on_value (fun value w =>
              (fst w, T_ResetCounters value TimeNow (snd w))))
           (HashTable s) 0 (mem s, st) ;;
    Ok (snd w)
  else Ok st.

(** ** The traversals told over lists

    What the traversals of a well-formed table amount to, in terms of the
    list of the value pointers they meet. *)

(** [body] on every value pointer of [vs], first to last *)
Fixpoint visit {W : Type} (body : Z -> W -> result W) (vs : list Z) (w : W)
    : result W :=
  match vs with
  | [] => Ok w
  | v :: vs => w <- body v w ;; visit body vs w
  end.

(** the value pointers of a table, bucket by bucket and along each chain *)
Definition values_of (s : CHash) (B : list (list Z)) : list Z :=
  node_value (mem s) <$> mjoin B.

(** the stores into the array at [p], from index [i] on *)
Fixpoint store_array (m : gmap Z Z) (p i : Z) (ptrs : list Z) : gmap Z Z :=
  match ptrs with
  | [] => m
  | ptr :: ptrs => store_array (store m (p + sizeof_ptr * i) ptr) p (i + 1) ptrs
  end.

(** the record counts the first pass adds up *)
Fixpoint counted {V : Type} `{!ValueType V} (vs : list Z) (st : V) : list Z * V :=
  match vs with
  | [] => ([], st)
  | v :: vs =>
      let '(c, st) := T_GetNumRecordsToCopy v st in
      let '(cs, st) := counted vs st in
      (c :: cs, st)
  end.

(** the pointers the second pass collects *)
Fixpoint collected {V : Type} `{!ValueType V} (InCopyAllocator : Z)
    (bCopyMemberHashTables : bool) (vs : list Z) (a : V * Z)
    : list Z * (V * Z) :=
  match vs with
  | [] => ([], a)
  | v :: vs =>
      let '(c, st) := T_GetNumRecordsToCopy v (fst a) in
      if c =? 0 then collected InCopyAllocator bCopyMemberHashTables vs (st, snd a)
      else
        let '(ptr, a) :=
          if bCopyMemberHashTables
          then T_GetArrayCopy v InCopyAllocator bCopyMemberHashTables (st, snd a)
          else (v, (st, snd a)) in
        let '(ptrs, a) := collected InCopyAllocator bCopyMemberHashTables vs a in
        (ptr :: ptrs, a)
  end.

(** [unsigned int] addition of the counts *)
Definition sum_u32 (cs : list Z) : Z := foldl (fun n c => u32 (n + c)) 0 cs.

(** ** Values to instantiate statements with

    Every value holds one record; the state of the values is the list of
    the calls made so far, latest first, as pairs of a method number and
    the value pointer; a copy of a value is made at the break of the copy
    arena and takes 8 bytes. *)
#[global] Instance logged_values : ValueType (list (Z * Z)) := {
  T_PrintStats := fun this _ log => (1, this) :: log;
  T_GetNumRecordsToCopy := fun this log => (1, (2, this) :: log);
  T_GetArrayCopy := fun this _ _ a => (snd a, ((3, this) :: fst a, snd a + 8));
  T_ResetCounters := fun this _ log => (4, this) :: log
}.

(** the table of 8 buckets right after the key 4096 was inserted, before the
    caller has stored a value: the node at 65600 holds a null [value] *)
Definition unpopulated_table : CHash :=
  match LookupPointer 4 (fresh_table 8 65536) 4096 with
  | Ok (_, s) => s
  | _ => fresh_table 8 65536
  end.

(** values without a state of their own that hold two records each *)
#[global] Instance paired_values : ValueType unit := {
  T_PrintStats := fun _ _ st => st;
  T_GetNumRecordsToCopy := fun _ st => (2, st);
  T_GetArrayCopy := fun this _ _ a => (this, a);
  T_ResetCounters := fun _ _ st => st
}.

(** the machine ranges ([fits]) hold before every lookup of a sequence of
    lookups and stores, and at its end *)
Fixpoint fits_along (fuel : nat) (s : CHash) (kvs : list (Z * Z)) : Prop :=
  match kvs with
  | [] => fits s
  | (k, v) :: kvs =>
      fits s /\
      match LookupPointer fuel s k with
      | Ok (slot, s1) => fits_along fuel (populate s1 slot v) kvs
      | _ => True
      end
  end.

(** 100 keys, 4096 to 4888 in steps of 8, each with the value key + 1 *)
Definition hundred_keys : list (Z * Z) :=
  (fun i => (4096 + 8 * i, 4097 + 8 * i)) <$> seqZ 0 100.

(** ** Reading the chains back *)

(** the nodes that the [Next] links visit from [p], at most [fuel] of them *)
Fixpoint read_chain (fuel : nat) (m : gmap Z Z) (p : Z) : list Z :=
  if p =? 0 then []
  else match fuel with
       | O => []
       | S fuel => p :: read_chain fuel m (load m (p + off_Next))
       end.

(** the chains of all the buckets of a table *)
Definition chains_of (fuel : nat) (s : CHash) : list (list Z) :=
  (fun i => read_chain fuel (mem s) (load (mem s) (bucket_addr (HashTable s) i)))
    <$> seqZ 0 (HashTableSize s).

(** a table of 8 buckets with six keys in six different buckets, each with
    the value key + 1; the key 4184 falls into a seventh bucket *)
Definition six_keys : list (Z * Z) :=
  (fun k => (k, k + 1)) <$> [4096; 4104; 4112; 4120; 4128; 4144].

Definition six_keys_table : CHash :=
  match lookups 8 (fresh_table 8 65536) six_keys with
  | Ok (_, s) => s
  | _ => fresh_table 8 65536
  end.

(** the bucket, in a table of [n] buckets, of the key that node [a] holds *)
Definition key_bucket (n : Z) (s : CHash) (a : Z) : Z :=
  HashPointer (node_key (mem s) a) mod n.

(** twelve keys whose hashes agree in the low 10 bits, so that they share a
    bucket at every table length from 8 to 1024; each with the value key + 1 *)
Definition twelve_keys : list (Z * Z) :=
  (fun k => (k, k + 1)) <$>
    [3000; 24392; 46440; 100800; 108608; 122456; 155600; 170288;
     195560; 319432; 397400; 432312].
(** * Properties of the arithmetic *)

Lemma rne_floor (n d : Z) : 0 < d -> n / d <= rne n d <= n / d + 1.
Proof.
  intros Hd. unfold rne.
  repeat match goal with |- context [if ?b then _ else _] => destruct b end; lia.
Qed.

Lemma rne_near (n d : Z) :
  0 < d -> 2 * (rne n d * d - n) <= d /\ 2 * (n - rne n d * d) <= d.
Proof.
  intros Hd. unfold rne.
  pose proof (Z.div_mod n d ltac:(lia)) as E.
  pose proof (Z.mod_pos_bound n d Hd) as B.
  destruct (Z.ltb_spec (2 * (n mod d)) d);
    [|destruct (Z.ltb_spec d (2 * (n mod d))); [|destruct (Z.even (n / d))]]; nia.
Qed.

(** the rounded quotient never crosses an integer bound of the exact one *)
Lemma rne_lower (n d F : Z) : 0 < d -> F * d <= n -> F <= rne n d.
Proof.
  intros Hd H. pose proof (rne_floor n d Hd).
  assert (F <= n / d) by (apply Z.div_le_lower_bound; lia). lia.
Qed.

Lemma rne_upper (n d G : Z) : 0 < d -> n <= G * d -> rne n d <= G.
Proof.
  intros Hd H. unfold rne.
  pose proof (Z.div_mod n d ltac:(lia)) as E.
  pose proof (Z.mod_pos_bound n d Hd) as B.
  assert (n / d <= G) by (apply Z.div_le_upper_bound; lia).
  destruct (Z.ltb_spec (2 * (n mod d)) d); [lia|].
  assert (n / d < G) by nia.
  repeat match goal with |- context [if ?b then _ else _] => destruct b end; lia.
Qed.

Lemma rne_exact (n : Z) : rne n 1 = n.
Proof.
  unfold rne. rewrite Z.div_1_r, Z.mod_1_r. reflexivity.
Qed.


Ltac max_cases :=
  repeat match goal with
    | |- context [Z.max ?a ?b] =>
        first [rewrite (Z.max_l a b) by lia | rewrite (Z.max_r a b) by lia]
    end.

Lemma scale_shift (n d e c : Z) :
  0 < n -> 0 < d -> 0 <= c ->
  (scale_den d (e + c) <= scale_num n (e + c)
   <-> 2 ^ c * scale_den d e <= scale_num n e).
Proof.
  intros Hn Hd Hc. unfold scale_num, scale_den.
  assert (P0 : 2 ^ 0 = 1) by reflexivity.
  assert (Pc : 0 < 2 ^ c) by (apply Z.pow_pos_nonneg; lia).
  destruct (Z.le_gt_cases 0 e) as [He|He].
  - max_cases. rewrite Z.pow_add_r, P0 by lia.
    replace (d * (2 ^ e * 2 ^ c)) with (2 ^ c * (d * 2 ^ e)) by ring. lia.
  - destruct (Z.le_gt_cases (e + c) 0) as [Hec|Hec].
    + max_cases. rewrite P0.
      assert (E1 : 2 ^ (- e) = 2 ^ (- (e + c)) * 2 ^ c).
      { rewrite <- Z.pow_add_r by lia. f_equal. lia. }
      rewrite E1.
      assert (0 < 2 ^ (- (e + c))) by (apply Z.pow_pos_nonneg; lia).
      generalize dependent (2 ^ (- (e + c))). generalize dependent (2 ^ c).
      intros. split; intros; nia.
    + max_cases. rewrite P0.
      assert (E1 : 2 ^ c = 2 ^ (e + c) * 2 ^ (- e)).
      { rewrite <- Z.pow_add_r by lia. f_equal. lia. }
      rewrite E1.
      assert (0 < 2 ^ (e + c)) by (apply Z.pow_pos_nonneg; lia).
      assert (0 < 2 ^ (- e)) by (apply Z.pow_pos_nonneg; lia).
      clear E1 Pc.
      generalize dependent (2 ^ (e + c)). generalize dependent (2 ^ (- e)).
      intros. split; intros; nia.
Qed.

Lemma f32_exp_spec (n d : Z) :
  0 < n -> 0 < d ->
  let e := f32_exp n d in
  2 ^ 23 * scale_den d e <= scale_num n e < 2 ^ 24 * scale_den d e.
Proof.
  intros Hn Hd e.
  pose proof (Z.log2_spec n Hn) as Ln. pose proof (Z.log2_spec d Hd) as Ld.
  pose proof (Z.log2_nonneg n). pose proof (Z.log2_nonneg d).
  set (k := Z.log2 n - Z.log2 d) in *.
  assert (Hk1 : ~ scale_den d (k + 1) <= scale_num n (k + 1)).
  { unfold scale_den, scale_num. intros HH.
    destruct (Z.le_gt_cases 0 (k + 1)).
    - revert HH. max_cases. replace (2 ^ 0) with 1 by reflexivity.
      intros HH. assert (2 ^ (Z.log2 n + 1) = 2 ^ Z.log2 d * 2 ^ (k + 1)).
      { rewrite <- Z.pow_add_r by lia. f_equal. lia. }
      assert (0 < 2 ^ (k+1)) by (apply Z.pow_pos_nonneg; lia). nia.
    - revert HH. max_cases. replace (2 ^ 0) with 1 by reflexivity.
      intros HH. assert (2 ^ (Z.log2 n + 1) * 2 ^ (- (k + 1)) = 2 ^ Z.log2 d).
      { rewrite <- Z.pow_add_r by lia. f_equal. lia. }
      assert (0 < 2 ^ (- (k+1))) by (apply Z.pow_pos_nonneg; lia). nia. }
  assert (Hk0 : scale_den d (k - 1) <= scale_num n (k - 1)).
  { unfold scale_den, scale_num.
    destruct (Z.le_gt_cases 0 (k - 1)).
    - max_cases. replace (2 ^ 0) with 1 by reflexivity.
      assert (2 ^ (Z.log2 d + 1) * 2 ^ (k - 1) = 2 ^ Z.log2 n).
      { rewrite <- Z.pow_add_r by lia. f_equal. lia. }
      assert (0 < 2 ^ (k-1)) by (apply Z.pow_pos_nonneg; lia). nia.
    - max_cases. replace (2 ^ 0) with 1 by reflexivity.
      assert (2 ^ (Z.log2 d + 1) = 2 ^ Z.log2 n * 2 ^ (- (k - 1))).
      { rewrite <- Z.pow_add_r by lia. f_equal. lia. }
      assert (0 < 2 ^ (- (k-1))) by (apply Z.pow_pos_nonneg; lia). nia. }
  assert (He : exists E, e = E - 23 /\ scale_den d E <= scale_num n E
                         /\ ~ scale_den d (E + 1) <= scale_num n (E + 1)).
  { subst e. unfold f32_exp. fold k.
    destruct (Z.leb_spec (d * 2 ^ Z.max k 0) (n * 2 ^ Z.max (- k) 0)) as [T|T].
    - exists k. repeat split; auto.
    - exists (k - 1). repeat split; auto.
      replace (k - 1 + 1) with k by lia. unfold scale_den, scale_num. lia. }
  destruct He as (E & -> & H1 & H2).
  replace E with (E - 23 + 23) in H1 by lia.
  replace (E + 1) with (E - 23 + 24) in H2 by lia.
  rewrite scale_shift in H1, H2 by lia. lia.
Qed.

Lemma f32_round_pos (n d : Z) :
  0 < n ->
  f32_round n d =
  Fin (rne (scale_num n (f32_exp n d)) (scale_den d (f32_exp n d))) (f32_exp n d).
Proof.
  intros Hn. unfold f32_round.
  destruct (Z.eqb_spec n 0); [lia|].
  rewrite Z.abs_eq, Z.sgn_pos by lia.
  unfold scale_num, scale_den. f_equal. lia.
Qed.

(** integers below [2^24] convert exactly *)
Lemma f32_of_int_exact (t : Z) :
  0 < t < 2 ^ 24 ->
  f32_of_int t = Fin (t * 2 ^ (23 - Z.log2 t)) (Z.log2 t - 23).
Proof.
  intros Ht. unfold f32_of_int. rewrite f32_round_pos by lia.
  pose proof (Z.log2_spec t ltac:(lia)) as L.
  pose proof (Z.log2_nonneg t).
  assert (Z.log2 t < 24).
  { apply Z.log2_lt_pow2; lia. }
  assert (E : f32_exp t 1 = Z.log2 t - 23).
  { unfold f32_exp. replace (Z.log2 1) with 0 by reflexivity.
    rewrite Z.sub_0_r. max_cases. replace (2 ^ 0) with 1 by reflexivity.
    destruct (Z.leb_spec (1 * 2 ^ Z.log2 t) (t * 1)); lia. }
  rewrite E. unfold scale_num, scale_den. max_cases.
  replace (2 ^ 0) with 1 by reflexivity. rewrite rne_exact.
  f_equal. f_equal. f_equal. lia.
Qed.

Lemma slots_threshold (n : Z) :
  0 < n < 5242880 ->
  f32_to_uint (f32_mul (f32_of_int n) f32_0_8) = 4 * n / 5.
Proof.
  intros Hn. rewrite f32_of_int_exact by lia.
  pose proof (Z.log2_nonneg n).
  assert (Z.log2 n < 24) by (apply Z.log2_lt_pow2; lia).
  unfold f32_0_8, f32_mul, f32_num, f32_den. max_cases.
  replace (- (-24)) with 24 by lia.
  replace (2 ^ 0) with 1 by reflexivity. rewrite !Z.mul_1_r.
  replace (- (Z.log2 n - 23)) with (23 - Z.log2 n) by lia.
  set (c := 2 ^ (23 - Z.log2 n)).
  assert (Hc : 0 < c) by (apply Z.pow_pos_nonneg; lia).
  set (n' := n * c * 13421773). set (d' := c * 2 ^ 24).
  assert (Hn' : 0 < n') by (subst n'; nia).
  assert (Hd' : 0 < d') by (subst d'; nia).
  rewrite f32_round_pos by assumption.
  pose proof (f32_exp_spec n' d' Hn' Hd') as S. simpl in S.
  set (e2 := f32_exp n' d') in *.
  assert (He2 : e2 <= -2).
  { destruct (Z.le_gt_cases e2 (-2)); [assumption|exfalso].
    unfold scale_num, scale_den in S.
    assert (2 ^ Z.max (- e2) 0 <= 2).
    { change 2 with (2 ^ 1) at 2. apply Z.pow_le_mono_r; lia. }
    assert (1 <= 2 ^ Z.max e2 0).
    { change 1 with (2 ^ 0). apply Z.pow_le_mono_r; lia. }
    assert (2 ^ 23 * d' <= n' * 2) by nia.
    subst n' d'. change (2 ^ 23) with 8388608 in *. change (2 ^ 24) with 16777216 in *.
    nia. }
  unfold scale_num, scale_den in *. revert S. max_cases.
  replace (2 ^ 0) with 1 by reflexivity. rewrite !Z.mul_1_r. intros S.
  set (P := 2 ^ (- e2)) in *.
  assert (HP : 4 <= P).
  { subst P. change 4 with (2 ^ 2). apply Z.pow_le_mono_r; lia. }
  set (F := 4 * n / 5).
  assert (HF : 5 * F <= 4 * n < 5 * F + 5).
  { subst F. pose proof (Z.div_mod (4 * n) 5 ltac:(lia)).
    pose proof (Z.mod_pos_bound (4 * n) 5 ltac:(lia)). lia. }
  set (q := rne (n' * P) d').
  assert (Hlo : F * P <= q).
  { apply rne_lower; [assumption|]. subst n' d'.
    change (2 ^ 24) with 16777216. nia. }
  assert (Hhi : q < (F + 1) * P).
  { pose proof (rne_near (n' * P) d' Hd') as [N1 _]. fold q in N1.
    subst n' d'. change (2 ^ 24) with 16777216 in *.
    assert (2 * q * 16777216 <= 2 * n * 13421773 * P + 16777216) by nia.
    assert (2 * n * 13421773 * P + 16777216 < 2 * (F + 1) * P * 16777216) by nia.
    nia. }
  unfold f32_to_uint, f32_num, f32_den. max_cases.
  replace (2 ^ 0) with 1 by reflexivity. rewrite Z.mul_1_r.
  fold P. fold q.
  assert (0 <= q) by nia.
  rewrite Z.quot_div_nonneg by lia.
  assert (Hq : q / P = F).
  { symmetry. apply Z.div_unique with (r := q - F * P); lia. }
  rewrite Hq. unfold u32. apply Z.mod_small. change (2 ^ 32) with 4294967296. lia.
Qed.

Lemma probe_threshold (t u : Z) :
  0 <= t < 2 ^ 24 -> 0 < u < 2 ^ 24 ->
  f32_gt (f32_div (f32_of_int t) (f32_of_int u)) f32_5 = (5 * u <? t).
Proof.
  intros Ht Hu. rewrite (f32_of_int_exact u) by lia.
  pose proof (Z.log2_nonneg u).
  assert (Z.log2 u < 24) by (apply Z.log2_lt_pow2; lia).
  set (cu := 2 ^ (23 - Z.log2 u)).
  assert (Hcu : 0 < cu) by (apply Z.pow_pos_nonneg; lia).
  destruct (Z.eq_dec t 0) as [->|Ht0].
  { change (f32_of_int 0) with (Fin 0 0). unfold f32_div.
    destruct (Z.eqb_spec (u * cu) 0); [nia|].
    destruct (Z.ltb_spec (5 * u) 0); [lia|].
    unfold f32_num. rewrite Z.mul_0_r, Z.mul_0_l. reflexivity. }
  rewrite (f32_of_int_exact t) by lia.
  pose proof (Z.log2_nonneg t).
  assert (Z.log2 t < 24) by (apply Z.log2_lt_pow2; lia).
  set (ct := 2 ^ (23 - Z.log2 t)).
  assert (Hct : 0 < ct) by (apply Z.pow_pos_nonneg; lia).
  unfold f32_div. destruct (Z.eqb_spec (u * cu) 0); [nia|].
  rewrite Z.sgn_pos by nia. unfold f32_num, f32_den. max_cases.
  replace (2 ^ 0) with 1 by reflexivity. rewrite !Z.mul_1_r, Z.mul_1_l.
  replace (- (Z.log2 u - 23)) with (23 - Z.log2 u) by lia.
  replace (- (Z.log2 t - 23)) with (23 - Z.log2 t) by lia.
  fold cu ct. rewrite Z.abs_eq by nia.
  set (n' := t * ct * cu). set (d' := ct * (u * cu)).
  assert (Hn' : 0 < n') by (subst n'; nia).
  assert (Hd' : 0 < d') by (subst d'; nia).
  rewrite f32_round_pos by assumption.
  pose proof (f32_exp_spec n' d' Hn' Hd') as S. simpl in S.
  set (e := f32_exp n' d') in *.
  unfold f32_gt, f32_5, f32_num, f32_den.
  replace (2 ^ Z.max 0 0) with 1 by reflexivity.
  replace (2 ^ Z.max (- 0) 0) with 1 by reflexivity. rewrite Z.mul_1_r.
  unfold scale_num, scale_den in *.
  set (K := ct * cu). assert (HK : 0 < K) by (subst K; nia).
  assert (En : n' = t * K) by (subst n' K; ring).
  assert (Ed : d' = u * K) by (subst d' K; ring).
  change (2 ^ 23) with 8388608 in *. change (2 ^ 24) with 16777216 in *.
  destruct (Z.le_gt_cases 0 e) as [He|He].
  - revert S. max_cases. replace (2 ^ 0) with 1 by reflexivity.
    rewrite !Z.mul_1_r. intros S.
    set (B := 2 ^ e) in *.
    assert (HB : 1 <= B).
    { subst B. change 1 with (2 ^ 0). apply Z.pow_le_mono_r; lia. }
    assert (Hq : 8388608 <= rne n' (d' * B)).
    { apply rne_lower; nia. }
    assert (5 * u < t).
    { rewrite En, Ed in S. nia. }
    destruct (Z.ltb_spec (5 * u) t); [|lia].
    destruct (Z.ltb_spec 5 (rne n' (d' * B) * B)); [reflexivity|nia].
  - revert S. max_cases. replace (2 ^ 0) with 1 by reflexivity.
    rewrite !Z.mul_1_r. intros S.
    set (A := 2 ^ (- e)) in *.
    assert (HA : 2 <= A).
    { subst A. change 2 with (2 ^ 1) at 1. apply Z.pow_le_mono_r; lia. }
    set (q := rne (n' * A) d').
    destruct (Z.ltb_spec (5 * u) t) as [C|C].
    + pose proof (rne_near (n' * A) d' Hd') as [_ N2]. fold q in N2.
      rewrite En, Ed in *.
      assert (u < 2 * A) by nia.
      assert (2 * t * A - u <= 2 * q * u) by nia.
      assert (10 * A * u < 2 * t * A - u) by nia.
      assert (5 * A < q) by nia.
      destruct (Z.ltb_spec (5 * A) q); [reflexivity|lia].
    + assert (q <= 5 * A).
      { apply rne_upper; [assumption|]. rewrite En, Ed. nia. }
      destruct (Z.ltb_spec (5 * A) q); [lia|reflexivity].
Qed.

(** * Memory *)

Ltac sz :=
  unfold apart, table_bytes, bucket_addr, node_key, node_value,
    sizeof_Hash_t, sizeof_ptr, off_key, off_value, off_Next in *;
  cbn [HashAllocator HashTableSize HashTable OldHashTable
       OldHashTableFreeRemaining NumUsedSlots MaxListLength NumTotalRecords
       mem brk] in *.

Lemma load_store_eq (m : gmap Z Z) (a v : Z) : load (store m a v) a = v.
Proof. unfold load, store. by rewrite lookup_insert_eq. Qed.

Lemma load_store_ne (m : gmap Z Z) (a b v : Z) :
  a <> b -> load (store m a v) b = load m b.
Proof. intros. unfold load, store. by rewrite lookup_insert_ne. Qed.

(** a chain only depends on the [Next] members of its own nodes *)
Lemma chain_store (m : gmap Z Z) (x v : Z) (l : list Z) (p : Z) :
  (forall a, a ∈ l -> a + off_Next <> x) ->
  chain m p l -> chain (store m x v) p l.
Proof.
  revert p. induction l as [|a l IH]; intros p Hx; simpl; [done|].
  intros (-> & Ha & Hc). split; [done|]. split; [done|].
  rewrite load_store_ne by (apply not_eq_sym, Hx; left).
  apply IH; [|done]. intros b Hb. apply Hx. by right.
Qed.

Lemma chain_nonzero (m : gmap Z Z) (p : Z) (l : list Z) :
  chain m p l -> forall a, a ∈ l -> a <> 0.
Proof.
  revert p. induction l as [|b l IH]; intros p Hc a Ha.
  - by apply elem_of_nil in Ha.
  - destruct Hc as (-> & Hb & Hc). apply elem_of_cons in Ha as [->|Ha]; eauto.
Qed.

Lemma chain_head_zero (m : gmap Z Z) (l : list Z) : chain m 0 l -> l = [].
Proof. destruct l; [done|]. simpl. intros (<- & ? & _). done. Qed.

Lemma chain_agree (m : gmap Z Z) (p : Z) (l1 l2 : list Z) :
  chain m p l1 -> chain m p l2 -> l1 = l2.
Proof.
  revert p l2. induction l1 as [|a l1 IH]; intros p [|b l2]; simpl.
  - done.
  - intros -> (<- & ? & _). done.
  - intros (-> & ? & _) ->. done.
  - intros (-> & _ & H1) (<- & _ & H2). f_equal. eauto.
Qed.

(** linking a node behind the last node of a chain *)
Lemma chain_snoc (m : gmap Z Z) (p q a : Z) (l : list Z) :
  last l = Some q -> chain m p l -> a <> 0 -> a ∉ l -> NoDup l ->
  load m (a + off_Next) = 0 ->
  (forall b, b ∈ l -> apart a sizeof_Hash_t b sizeof_Hash_t) ->
  chain (store m (q + off_Next) a) p (l ++ [a]).
Proof.
  revert p. induction l as [|b l IH]; intros p Hq Hc Ha Hnin Hnd Hnext Hsep; [done|].
  destruct Hc as (-> & Hb & Hc). simpl. split; [done|]. split; [done|].
  destruct l as [|c l].
  - simpl in *. injection Hq as <-. rewrite load_store_eq.
    split; [done|]. split; [done|].
    rewrite load_store_ne; [done|].
    specialize (Hsep b ltac:(left)). sz. lia.
  - apply NoDup_cons in Hnd as [Hbn Hnd].
    rewrite last_cons_cons in Hq.
    assert (Hlast : q ∈ c :: l) by (by apply last_Some_elem_of).
    rewrite load_store_ne.
    + apply IH; try done.
      * intros Hin. apply Hnin. by right.
      * intros d Hd. apply Hsep. by right.
    + intros E. assert (q = b) by (sz; lia). congruence.
Qed.

(** * The chain walks *)

Lemma u32_small (x : Z) : 0 <= x < 2 ^ 32 -> u32 x = x.
Proof. intros. unfold u32. by apply Z.mod_small. Qed.

Lemma max_if (mx x : Z) : (if mx <? x then x else mx) = Z.max mx x.
Proof. destruct (Z.ltb_spec mx x); lia. Qed.

Lemma walk_missing (fuel : nat) (m : gmap Z Z) (k : Z) (l : list Z)
    (p prev len mx : Z) :
  chain m p l -> (length l <= fuel)%nat ->
  0 <= len <= mx -> len + Z.of_nat (length l) < 2 ^ 32 ->
  k ∉ (node_key m <$> l) ->
  walk fuel m k p prev len mx
  = Ok (Missing (default prev (last l)) (Z.max mx (len + Z.of_nat (length l)))).
Proof.
  revert fuel p prev len mx.
  induction l as [|a l IH]; intros fuel p prev len mx Hc Hf Hlen Hb Hk.
  - simpl in Hc. subst p. destruct fuel; simpl; do 2 f_equal; lia.
  - destruct Hc as (-> & Ha & Hc). simpl in Hf, Hb.
    destruct fuel as [|fuel]; [lia|].
    cbn [walk]. destruct (Z.eqb_spec a 0); [done|].
    rewrite u32_small by lia.
    rewrite fmap_cons in Hk. apply not_elem_of_cons in Hk as [Hk1 Hk2].
    unfold node_key in Hk1.
    destruct (Z.eqb_spec (load m (a + off_key)) k); [done|].
    rewrite max_if. cbn [length] in Hb.
    rewrite (IH fuel _ a (len + 1)) by (done || lia).
    do 2 f_equal.
    + rewrite last_cons. by destruct (last l).
    + cbn [length]. lia.
Qed.

Lemma walk_found (fuel : nat) (m : gmap Z Z) (k a : Z) (l1 l2 : list Z)
    (p prev len mx : Z) :
  chain m p (l1 ++ a :: l2) -> (length l1 < fuel)%nat ->
  0 <= len <= mx -> len + Z.of_nat (length l1) + 1 < 2 ^ 32 ->
  k ∉ (node_key m <$> l1) -> node_key m a = k ->
  walk fuel m k p prev len mx
  = Ok (Found a (Z.max mx (len + Z.of_nat (length l1) + 1))).
Proof.
  revert fuel p prev len mx.
  induction l1 as [|b l1 IH]; intros fuel p prev len mx Hc Hf Hlen Hb Hk Ha.
  - destruct Hc as (-> & Hnz & Hc). destruct fuel as [|fuel]; [simpl in Hf; lia|].
    cbn [walk]. destruct (Z.eqb_spec a 0); [done|].
    rewrite u32_small by (simpl in Hb; lia).
    unfold node_key in Ha. destruct (Z.eqb_spec (load m (a + off_key)) k); [|done].
    rewrite max_if. do 2 f_equal. simpl. lia.
  - destruct Hc as (-> & Hnz & Hc). simpl in Hf.
    destruct fuel as [|fuel]; [lia|].
    cbn [walk]. destruct (Z.eqb_spec b 0); [done|].
    cbn [length] in Hb. rewrite u32_small by lia.
    rewrite fmap_cons in Hk. apply not_elem_of_cons in Hk as [Hk1 Hk2].
    unfold node_key in Hk1.
    destruct (Z.eqb_spec (load m (b + off_key)) k); [done|].
    rewrite max_if.
    rewrite (IH fuel _ b (len + 1)) by (done || lia).
    do 2 f_equal. cbn [length]. lia.
Qed.

Lemma find_missing (fuel : nat) (m : gmap Z Z) (k : Z) (l : list Z) (p : Z) :
  chain m p l -> (length l <= fuel)%nat -> k ∉ (node_key m <$> l) ->
  find fuel m k p = Ok None.
Proof.
  revert fuel p. induction l as [|a l IH]; intros fuel p Hc Hf Hk.
  - simpl in Hc. subst p. by destruct fuel.
  - destruct Hc as (-> & Ha & Hc). simpl in Hf.
    destruct fuel as [|fuel]; [lia|].
    cbn [find]. destruct (Z.eqb_spec a 0); [done|].
    rewrite fmap_cons in Hk. apply not_elem_of_cons in Hk as [Hk1 Hk2].
    unfold node_key in Hk1.
    destruct (Z.eqb_spec (load m (a + off_key)) k); [done|].
    apply IH; [done|lia|done].
Qed.

Lemma find_found (fuel : nat) (m : gmap Z Z) (k a : Z) (l : list Z) (p : Z) :
  chain m p l -> (length l <= fuel)%nat ->
  a ∈ l -> node_key m a = k ->
  exists b, find fuel m k p = Ok (Some b) /\ b ∈ l /\ node_key m b = k.
Proof.
  revert fuel p. induction l as [|c l IH]; intros fuel p Hc Hf Hin Ha.
  - by apply elem_of_nil in Hin.
  - destruct Hc as (-> & Hnz & Hc). simpl in Hf.
    destruct fuel as [|fuel]; [lia|].
    cbn [find]. destruct (Z.eqb_spec c 0); [done|].
    destruct (Z.eqb_spec (load m (c + off_key)) k) as [E|E].
    + exists c. split; [done|]. split; [by left|done].
    + apply elem_of_cons in Hin as [->|Hin]; [done|].
      destruct (IH fuel _ Hc ltac:(lia) Hin Ha) as (b & ? & ? & ?).
      exists b. split; [done|]. split; [by right|done].
Qed.

Lemma walk_tail_spec (fuel : nat) (m : gmap Z Z) (l : list Z) (p prev len mx : Z) :
  chain m p l -> (length l <= fuel)%nat ->
  0 <= len <= mx -> len + Z.of_nat (length l) < 2 ^ 32 ->
  walk_tail fuel m p prev len mx
  = Ok (default prev (last l), Z.max mx (len + Z.of_nat (length l))).
Proof.
  revert fuel p prev len mx.
  induction l as [|a l IH]; intros fuel p prev len mx Hc Hf Hlen Hb.
  - simpl in Hc. subst p. destruct fuel; simpl; do 2 f_equal; lia.
  - destruct Hc as (-> & Ha & Hc). simpl in Hf. cbn [length] in Hb.
    destruct fuel as [|fuel]; [lia|].
    cbn [walk_tail]. destruct (Z.eqb_spec a 0); [done|].
    rewrite u32_small by lia.
    rewrite max_if.
    rewrite (IH fuel _ a (len + 1)) by (done || lia).
    do 2 f_equal.
    + rewrite last_cons. by destruct (last l).
    + cbn [length]. lia.
Qed.

(** * Lists of chains *)

Lemma elem_of_bucket (B : list (list Z)) (i : nat) (l : list Z) (a : Z) :
  B !! i = Some l -> a ∈ l -> a ∈ mjoin B.
Proof.
  intros Hi Ha. apply list_elem_of_join. exists l. split; [done|].
  by eapply list_elem_of_lookup_2.
Qed.

Lemma bucket_of_elem (B : list (list Z)) (a : Z) :
  a ∈ mjoin B -> exists (i : nat) (l : list Z), B !! i = Some l /\ a ∈ l.
Proof.
  intros (l & Ha & Hl)%list_elem_of_join.
  apply list_elem_of_lookup in Hl as [i Hi]. eauto.
Qed.

Lemma split_bucket (B : list (list Z)) (i : nat) (l : list Z) :
  B !! i = Some l -> B = take i B ++ l :: drop (S i) B.
Proof. intros Hi. by rewrite <- (take_drop_middle B i l) at 1. Qed.

Lemma alter_bucket (f : list Z -> list Z) (B : list (list Z)) (i : nat) (l : list Z) :
  B !! i = Some l -> alter f i B = take i B ++ f l :: drop (S i) B.
Proof.
  intros Hi. rewrite (split_bucket B i l Hi) at 1.
  pose proof (lookup_lt_Some _ _ _ Hi) as Hlt.
  rewrite alter_app_r_alt by (rewrite length_take; lia).
  rewrite length_take, Nat.min_l, Nat.sub_diag by lia. done.
Qed.

Lemma join_snoc (B : list (list Z)) (i : nat) (l : list Z) (a : Z) :
  B !! i = Some l -> mjoin (alter (snoc a) i B) ≡ₚ a :: mjoin B.
Proof.
  intros Hi. rewrite (alter_bucket _ _ _ _ Hi).
  rewrite (split_bucket B i l Hi) at 3.
  rewrite !join_app. simpl. unfold snoc.
  rewrite <- !app_assoc. simpl.
  rewrite (Permutation_middle (mjoin (take i B)) _ a).
  apply Permutation_app_head. rewrite <- Permutation_middle. done.
Qed.

Lemma bucket_NoDup (B : list (list Z)) (i : nat) (l : list Z) :
  NoDup (mjoin B) -> B !! i = Some l -> NoDup l.
Proof.
  intros Hnd Hi. rewrite (split_bucket B i l Hi) in Hnd.
  rewrite join_app in Hnd. simpl in Hnd.
  apply NoDup_app in Hnd as (_ & _ & Hnd).
  by apply NoDup_app in Hnd as (Hnd & _ & _).
Qed.

Lemma buckets_disjoint (B : list (list Z)) (i j : nat) (l1 l2 : list Z) (a : Z) :
  NoDup (mjoin B) -> B !! i = Some l1 -> B !! j = Some l2 -> i <> j ->
  a ∈ l1 -> a ∈ l2 -> False.
Proof.
  revert i j. induction B as [|l B IH]; intros i j Hnd Hi Hj Hij H1 H2; [done|].
  simpl in Hnd. apply NoDup_app in Hnd as (Hl & Hd & HB).
  destruct i as [|i], j as [|j]; simpl in *; simplify_eq.
  - eapply Hd; [done|]. by eapply elem_of_bucket.
  - eapply Hd; [done|]. by eapply elem_of_bucket.
  - eapply (IH i j); eauto.
Qed.

Lemma used_snoc (B : list (list Z)) (i : nat) (l : list Z) (a : Z) :
  B !! i = Some l ->
  length (filter (fun l => l <> []) (alter (snoc a) i B))
  = (length (filter (fun l => l <> []) B) + (if decide (l = []) then 1 else 0))%nat.
Proof.
  intros Hi. rewrite (alter_bucket _ _ _ _ Hi).
  rewrite (split_bucket B i l Hi) at 3.
  rewrite !filter_app, !length_app, !filter_cons.
  assert (snoc a l <> []) by (unfold snoc; by destruct l).
  destruct (decide (snoc a l <> [])); [|done].
  destruct (decide (l = [])) as [->|Hl].
  - destruct (decide ([] <> [])); [done|]. simpl. lia.
  - destruct (decide (l <> [])); [|done]. simpl. lia.
Qed.

(** * Linking a node into a table *)

Lemma link_table (m : gmap Z Z) (tbl : Z) (B : list (list Z)) (h : nat)
    (l : list Z) (a : Z) :
  table_rep m tbl B -> NoDup (mjoin B) -> B !! h = Some l ->
  a <> 0 -> a ∉ mjoin B -> load m (a + off_Next) = 0 ->
  (forall b, b ∈ mjoin B -> apart a sizeof_Hash_t b sizeof_Hash_t) ->
  (forall b, b ∈ a :: mjoin B ->
     apart b sizeof_Hash_t tbl (sizeof_ptr * Z.of_nat (length B))) ->
  table_rep (link m tbl (Z.of_nat h) (default 0 (last l)) a) tbl
    (alter (snoc a) h B).
Proof.
  intros Hrep Hnd Hh Ha Hnin Hnext Hsep Htbl i li Hi.
  pose proof (lookup_lt_Some _ _ _ Hh) as Hlt.
  assert (Hnz : forall b, b ∈ l -> b <> 0).
  { eapply chain_nonzero. by apply Hrep. }
  assert (Hl_in : forall b, b ∈ l -> b ∈ mjoin B).
  { intros b Hb. by eapply elem_of_bucket. }
  assert (Ha_tbl := Htbl a ltac:(left)).
  destruct (decide (i = h)) as [->|Hne].
  - rewrite list_lookup_alter_eq, Hh in Hi. simpl in Hi. injection Hi as <-.
    unfold link. destruct (decide (l = [])) as [->|Hlne].
    + simpl. rewrite load_store_eq.
      cbn. split; [done|]. split; [done|].
      rewrite load_store_ne; [done|]. sz. lia.
    + assert (is_Some (last l)) as [q Hq] by (by apply last_is_Some).
      rewrite Hq. simpl.
      assert (Hql : q ∈ l) by (by apply last_Some_elem_of).
      destruct (Z.eqb_spec q 0) as [E|_]; [by apply Hnz in Hql|].
      rewrite load_store_ne.
      * apply chain_snoc; try done.
        -- by apply Hrep.
        -- intros Hin. by apply Hnin, Hl_in.
        -- by eapply bucket_NoDup.
        -- intros b Hb. by apply Hsep, Hl_in.
      * specialize (Htbl q ltac:(right; by apply Hl_in)). sz. lia.
  - rewrite list_lookup_alter_ne in Hi by done.
    pose proof (lookup_lt_Some _ _ _ Hi) as Hlti.
    specialize (Hrep i li Hi).
    unfold link. destruct (last l) as [q|] eqn:Hq; simpl.
    + assert (Hql : q ∈ l) by (by apply last_Some_elem_of).
      destruct (Z.eqb_spec q 0) as [E|_]; [by apply Hnz in Hql|].
      rewrite load_store_ne.
      * apply chain_store; [|done]. intros b Hb E.
        assert (b = q) by (sz; lia). subst b.
        by eapply (buckets_disjoint B i h li l q).
      * specialize (Htbl q ltac:(right; by apply Hl_in)). sz. lia.
    + change (0 =? 0) with true. cbv iota.
      rewrite load_store_ne by (sz; lia).
      apply chain_store; [|done]. intros b Hb E.
      specialize (Htbl b ltac:(right; by eapply elem_of_bucket)). sz. lia.
Qed.

(** * Looking a key up in a well-formed table *)

Section Lookup.

Context (s : CHash) (B : list (list Z)).
Hypothesis HI : Inv s B.
Hypothesis HR : in_range s.

Lemma slot_of_ok (k : Z) :
  slot_of s k = Ok (HashPointer k mod HashTableSize s) /\
  0 <= HashPointer k mod HashTableSize s < HashTableSize s.
Proof.
  destruct (inv_size _ _ HI) as [Hpos Hlen]. destruct HR as (Hsz & _).
  unfold slot_of. rewrite u32_small by (change (2 ^ 30) with 1073741824 in Hsz;
    change (2 ^ 32) with 4294967296; lia).
  destruct (Z.eqb_spec (HashTableSize s) 0); [lia|].
  split; [done|]. apply Z.mod_pos_bound. lia.
Qed.

(** the chain of the bucket a key hashes to *)
Lemma bucket_of_key (k : Z) :
  exists l, B !! Z.to_nat (HashPointer k mod HashTableSize s) = Some l.
Proof.
  destruct (slot_of_ok k) as [_ Hh]. destruct (inv_size _ _ HI) as [_ Hlen].
  apply lookup_lt_is_Some_2. lia.
Qed.

Lemma chain_length_le (i : nat) (l : list Z) :
  B !! i = Some l -> (length l <= length (mjoin B))%nat.
Proof.
  intros Hi. rewrite (split_bucket B i l Hi), join_app. simpl.
  rewrite !length_app. lia.
Qed.

Lemma total_bound : Z.of_nat (length (mjoin B)) < 2 ^ 32 - 1.
Proof. destruct HR as (_ & Ht & _). by rewrite <- (inv_total _ _ HI). Qed.

(** a key that no node holds: the walk ends behind the last node of its
    bucket, having counted the whole chain *)
Lemma probe_missing (fuel : nat) (k : Z) (l : list Z) :
  (length (mjoin B) <= fuel)%nat ->
  B !! Z.to_nat (HashPointer k mod HashTableSize s) = Some l ->
  k ∉ (node_key (mem s) <$> mjoin B) ->
  probe fuel s k
  = Ok (Missing (default 0 (last l))
                (Z.max (MaxListLength s) (Z.of_nat (length l)))).
Proof.
  intros Hf Hl Hk. destruct (slot_of_ok k) as [Hs Hh].
  pose proof (chain_length_le _ _ Hl). pose proof total_bound.
  unfold probe. rewrite Hs. simpl.
  rewrite (walk_missing fuel (mem s) k l).
  - done.
  - replace (HashPointer k mod HashTableSize s)
      with (Z.of_nat (Z.to_nat (HashPointer k mod HashTableSize s))) by lia.
    by apply (inv_chains _ _ HI).
  - lia.
  - pose proof (inv_max _ _ HI). lia.
  - lia.
  - intros Hin. apply Hk. apply list_elem_of_fmap in Hin as (a & -> & Ha).
    apply list_elem_of_fmap. exists a. split; [done|]. by eapply elem_of_bucket.
Qed.

(** a node is in the bucket its key hashes to *)
Lemma node_bucket (a : Z) :
  a ∈ mjoin B ->
  exists l, B !! Z.to_nat (HashPointer (node_key (mem s) a) mod HashTableSize s)
            = Some l /\ a ∈ l.
Proof.
  intros (i & l & Hi & Ha)%bucket_of_elem.
  rewrite (inv_keys _ _ HI i l a Hi Ha), Nat2Z.id. eauto.
Qed.

Lemma key_inj (a b : Z) :
  a ∈ mjoin B -> b ∈ mjoin B -> node_key (mem s) a = node_key (mem s) b -> a = b.
Proof.
  intros Ha Hb E.
  apply list_elem_of_lookup in Ha as [i Hi]. apply list_elem_of_lookup in Hb as [j Hj].
  pose proof (inv_keys_nodup _ _ HI) as Hnd.
  assert (i = j); [|by simplify_eq].
  eapply NoDup_lookup; [exact Hnd| |].
  - rewrite list_lookup_fmap, Hi. done.
  - rewrite list_lookup_fmap, Hj. simpl. by rewrite E.
Qed.

(** a key some node holds: the walk stops at that node *)
Lemma probe_found (fuel : nat) (a : Z) :
  (length (mjoin B) <= fuel)%nat -> a ∈ mjoin B ->
  exists mx, probe fuel s (node_key (mem s) a) = Ok (Found a mx)
             /\ MaxListLength s <= mx.
Proof.
  intros Hf Ha. set (k := node_key (mem s) a).
  destruct (slot_of_ok k) as [Hs Hh].
  destruct (node_bucket a Ha) as (l & Hl & Hal). fold k in Hl.
  pose proof (chain_length_le _ _ Hl). pose proof total_bound.
  apply list_elem_of_split in Hal as (l1 & l2 & ->).
  rewrite length_app in H. simpl in H.
  exists (Z.max (MaxListLength s) (0 + Z.of_nat (length l1) + 1)).
  split; [|lia].
  unfold probe. rewrite Hs. simpl.
  apply (walk_found fuel (mem s) k a l1 l2).
  - replace (HashPointer k mod HashTableSize s)
      with (Z.of_nat (Z.to_nat (HashPointer k mod HashTableSize s))) by lia.
    by apply (inv_chains _ _ HI).
  - lia.
  - pose proof (inv_max _ _ HI). lia.
  - lia.
  - intros Hin. apply list_elem_of_fmap in Hin as (b & Hkb & Hb).
    assert (b ∈ mjoin B).
    { eapply elem_of_bucket; [exact Hl|]. apply elem_of_app. by left. }
    assert (a = b) by (by apply key_inj).
    subst b. pose proof (bucket_NoDup _ _ _ (inv_nodup _ _ HI) Hl) as Hnd.
    apply NoDup_app in Hnd as (_ & Hd & _). apply (Hd a Hb). by left.
  - done.
Qed.

End Lookup.

(** * Storage for a new node *)

Lemma align_up_8 (b : Z) : b <= align_up b 8 <= b + 7 /\ align_up b 8 mod 8 = 0.
Proof.
  unfold align_up.
  pose proof (Z.div_mod (b + 8 - 1) 8 ltac:(lia)).
  pose proof (Z.mod_pos_bound (b + 8 - 1) 8 ltac:(lia)).
  split; [lia|]. by rewrite Z.mod_mul.
Qed.

(** the cursor arithmetic when the cursor is pointer-aligned and at least
    one node fits behind it *)
Lemma AllocateFromOldHashTable_fits (s : CHash) :
  0 < OldHashTable s -> OldHashTable s mod 8 = 0 ->
  sizeof_Hash_t <= OldHashTableFreeRemaining s ->
  OldHashTable s + OldHashTableFreeRemaining s < 2 ^ 63 ->
  AllocateFromOldHashTable s =
    (OldHashTable s,
     if 2 * sizeof_Hash_t <=? OldHashTableFreeRemaining s
     then set_old s (OldHashTable s + sizeof_Hash_t)
            (OldHashTableFreeRemaining s - sizeof_Hash_t)
     else set_old s 0 0).
Proof.
  intros Hpos Hal Hrem Hb. unfold AllocateFromOldHashTable.
  unfold sizeof_Hash_t, sizeof_ptr in *.
  change (2 ^ 63) with 9223372036854775808 in Hb.
  assert (E1 : u64 (OldHashTable s + 24 + 8 - 1) = OldHashTable s + 31).
  { unfold u64. rewrite Z.mod_small; [lia|].
    change (2 ^ 64) with 18446744073709551616. lia. }
  assert (E2 : (OldHashTable s + 31) / 8 * 8 = OldHashTable s + 24).
  { pose proof (Z.div_mod (OldHashTable s) 8 ltac:(lia)) as D.
    rewrite Hal, Z.add_0_r in D.
    replace (OldHashTable s + 31) with (7 + (OldHashTable s / 8 + 3) * 8) by lia.
    rewrite Z.div_add by lia. change (7 / 8) with 0. lia. }
  rewrite E1, E2.
  replace (OldHashTable s + 24 - OldHashTable s) with 24 by lia.
  change (u64 24) with 24.
  assert (E3 : u64 (OldHashTableFreeRemaining s - 24)
               = OldHashTableFreeRemaining s - 24).
  { unfold u64. apply Z.mod_small.
    change (2 ^ 64) with 18446744073709551616. lia. }
  rewrite E3.
  destruct (Z.leb_spec 24 (OldHashTableFreeRemaining s - 24));
    destruct (Z.leb_spec (2 * 24) (OldHashTableFreeRemaining s)); try lia; done.
Qed.

Section NewNode.

Context (s : CHash) (B : list (list Z)).
Hypothesis HI : Inv s B.
Hypothesis HR : in_range s.

Lemma new_node_fresh : exists n s', new_node s = Ok (n, s') /\ fresh_node s B n s'.
Proof.
  destruct HR as (_ & _ & Hbrk).
  destruct (inv_table _ _ HI) as (Htpos & Htal & Htb).
  destruct (inv_size _ _ HI) as (Hsz & _).
  unfold new_node. destruct (Z.eqb_spec (OldHashTable s) 0) as [E|E]; simpl.
  - unfold alloc. destruct (Z.eqb_spec (HashAllocator s) 0) as [E0|_].
    { by destruct (inv_alloc _ _ HI). }
    destruct (align_up_8 (brk s)) as [Hb _].
    eexists _, _. split; [reflexivity|].
    unfold fresh_node, set_brk, AllocateBytes. simpl.
    split_and!; try done; try (sz; lia).
    + intros b Hb'. destruct (inv_nodes _ _ HI b Hb') as (? & ? & _). sz. lia.
    + by left.
  - destruct (inv_cursor _ _ HI) as [E0|(Hpos & Hal & Hrem & Hend & Htbl & Hnodes)];
      [done|].
    rewrite AllocateFromOldHashTable_fits; try done; [|sz; lia].
    eexists _, _. split; [reflexivity|].
    destruct (Z.leb_spec (2 * sizeof_Hash_t) (OldHashTableFreeRemaining s)).
    + unfold fresh_node, set_old, cursor_ok. simpl.
      split_and!; try done; try (sz; lia).
      * intros b Hb'. specialize (Hnodes b Hb'). sz. lia.
      * right. split_and!; try (sz; lia).
        -- rewrite <- Z.add_mod_idemp_l by (sz; lia).
           unfold sizeof_ptr in *. by rewrite Hal.
        -- intros a [->|Ha]%elem_of_cons; [sz; lia|].
           specialize (Hnodes a Ha). sz. lia.
    + unfold fresh_node, set_old, cursor_ok. simpl.
      split_and!; try done; try (sz; lia).
      intros b Hb'. specialize (Hnodes b Hb'). sz. lia.
Qed.

End NewNode.

(** * Adding a node for a new key *)

Ltac proj_in_one H :=
  cbn [HashAllocator HashTableSize HashTable OldHashTable
       OldHashTableFreeRemaining NumUsedSlots MaxListLength NumTotalRecords
       mem brk set_stats set_mem set_old set_brk set_table] in H.

Tactic Notation "proj_in" hyp(A) hyp(B) hyp(C) hyp(D) :=
  proj_in_one A; proj_in_one B; proj_in_one C; proj_in_one D.

Ltac proj :=
  cbn [HashAllocator HashTableSize HashTable OldHashTable
       OldHashTableFreeRemaining NumUsedSlots MaxListLength NumTotalRecords
       mem brk set_stats set_mem set_old set_brk set_table].

Lemma load_link_other (m : gmap Z Z) (tbl h prev a x : Z) :
  (prev = 0 -> x <> bucket_addr tbl h) ->
  (prev <> 0 -> x <> prev + off_Next) ->
  load (link m tbl h prev a) x = load m x.
Proof.
  intros H1 H2. unfold link.
  destruct (Z.eqb_spec prev 0); rewrite load_store_ne; auto;
    apply not_eq_sym; auto.
Qed.

Lemma table_rep_store (m : gmap Z Z) (tbl : Z) (B : list (list Z)) (x v : Z) :
  table_rep m tbl B ->
  (forall i : nat, (i < length B)%nat -> bucket_addr tbl (Z.of_nat i) <> x) ->
  (forall b, b ∈ mjoin B -> b + off_Next <> x) ->
  table_rep (store m x v) tbl B.
Proof.
  intros Hrep Ht Hn i l Hi.
  rewrite load_store_ne.
  - apply chain_store; [|by apply Hrep].
    intros b Hb. apply Hn. by eapply elem_of_bucket.
  - apply not_eq_sym, Ht. by eapply lookup_lt_Some.
Qed.

Lemma last_default_zero (m : gmap Z Z) (p : Z) (l : list Z) :
  chain m p l -> (default 0 (last l) = 0 <-> l = []).
Proof.
  intros Hc. split; [|by intros ->].
  intros E. destruct (last l) as [q|] eqn:Hq; [|by apply last_None].
  simpl in E. subst q. apply last_Some_elem_of in Hq.
  by apply (chain_nonzero _ _ _ Hc) in Hq.
Qed.

Lemma last_default_elem (l : list Z) :
  l <> [] -> default 0 (last l) ∈ l.
Proof.
  intros Hl. apply last_is_Some in Hl as [q Hq]. rewrite Hq. simpl.
  by apply last_Some_elem_of.
Qed.

Lemma link_new_eq (s s1 : CHash) (k h prev n : Z) :
  new_node s = Ok (n, s1) ->
  link_new s k h prev =
  Ok (n, set_stats
           (set_mem s1
              (link (store (store (store (mem s1) (n + off_key) k)
                              (n + off_value) 0) (n + off_Next) 0)
                 (HashTable s1) h prev n))
           (if prev =? 0 then u32 (NumUsedSlots s1 + 1) else NumUsedSlots s1)
           (MaxListLength s1) (u32 (NumTotalRecords s1 + 1))).
Proof.
  intros E. unfold link_new, link. rewrite E. simpl.
  by destruct (prev =? 0).
Qed.

Section LinkNew.

Context (s : CHash) (B : list (list Z)) (k : Z) (l : list Z).
Hypothesis HI : Inv s B.
Hypothesis HR : in_range s.
Let h : Z := HashPointer k mod HashTableSize s.
Hypothesis Hl : B !! Z.to_nat h = Some l.
Hypothesis Hk : k ∉ (node_key (mem s) <$> mjoin B).

Lemma link_new_inv :
  exists n s', link_new s k h (default 0 (last l)) = Ok (n, s') /\
    Inv s' (alter (snoc n) (Z.to_nat h) B) /\
    (n ∉ mjoin B) /\ node_key (mem s') n = k /\ node_value (mem s') n = 0 /\
    (forall b, b ∈ mjoin B ->
       node_key (mem s') b = node_key (mem s) b /\
       node_value (mem s') b = node_value (mem s) b) /\
    HashTableSize s' = HashTableSize s /\ HashTable s' = HashTable s /\
    MaxListLength s' = MaxListLength s /\
    NumUsedSlots s' = NumUsedSlots s + (if decide (l = []) then 1 else 0) /\
    NumTotalRecords s' = NumTotalRecords s + 1 /\
    brk s <= brk s' <= brk s + 31.
Proof.
  destruct (new_node_fresh s B HI HR) as (n & s1 & E & F).
  destruct F as (Fm & Fa & Fsz & Ftb & Fu & Fmx & Ft & Fpos & Fend & Fbrk & Fat & Fan & Fc).
  destruct (slot_of_ok s B HI HR k) as [_ Hh]. fold h in Hh.
  destruct (inv_size _ _ HI) as (Hsz & Hlen).
  destruct (inv_table _ _ HI) as (Htpos & Htal & Htb).
  pose proof (inv_chains _ _ HI) as Hrep.
  pose proof (Hrep _ _ Hl) as Hcl. rewrite Z2Nat.id in Hcl by lia.
  assert (Hnin : n ∉ mjoin B).
  { intros Hin. specialize (Fan n Hin). sz. lia. }
  assert (Hlin : forall b, b ∈ l -> b ∈ mjoin B).
  { intros b Hb. by eapply elem_of_bucket. }
  assert (Hprev : default 0 (last l) = 0 /\ l = [] \/
                  default 0 (last l) ∈ mjoin B /\ l <> [] /\ default 0 (last l) <> 0).
  { destruct (decide (l = [])) as [->|Hne]; [by left|right].
    split; [by apply Hlin, last_default_elem|]. split; [done|].
    intros E0. by apply (last_default_zero _ _ _ Hcl) in E0. }
  set (prev := default 0 (last l)) in *.
  set (m3 := store (store (store (mem s1) (n + off_key) k) (n + off_value) 0)
               (n + off_Next) 0).
  set (m4 := link m3 (HashTable s1) h prev n).
  assert (Hold : forall b x, b ∈ mjoin B -> b <= x < b + sizeof_Hash_t ->
                 (prev <> 0 -> x <> prev + off_Next) -> load m4 x = load (mem s) x).
  { intros b x Hb Hx Hxp. destruct (inv_nodes _ _ HI b Hb) as (? & ? & ?).
    specialize (Fan b Hb). unfold m4, m3.
    rewrite load_link_other by (intros; rewrite ?Ftb; sz; lia).
    rewrite !load_store_ne by (sz; lia). by rewrite Fm. }
  assert (Hnew : forall x, n <= x < n + sizeof_Hash_t -> load m4 x = load m3 x).
  { intros x Hx. unfold m4. apply load_link_other; [intros; rewrite Ftb; sz; lia|].
    intros Hp0. destruct Hprev as [[Hp _]|(Hp & _ & _)]; [done|].
    specialize (Fan _ Hp). sz. lia. }
  assert (Hkey_old : forall b, b ∈ mjoin B -> node_key m4 b = node_key (mem s) b).
  { intros b Hb. unfold node_key. apply (Hold b); [done|sz; lia|].
    intros Hp0. destruct Hprev as [[Hp _]|(Hp & _ & _)]; [done|].
    destruct (decide (b = prev)) as [->|Hne]; [sz; lia|].
    pose proof (inv_sep _ _ HI b prev Hb Hp Hne). sz. lia. }
  assert (Hval_old : forall b, b ∈ mjoin B -> node_value m4 b = node_value (mem s) b).
  { intros b Hb. unfold node_value. apply (Hold b); [done|sz; lia|].
    intros Hp0. destruct Hprev as [[Hp _]|(Hp & _ & _)]; [done|].
    destruct (decide (b = prev)) as [->|Hne]; [sz; lia|].
    pose proof (inv_sep _ _ HI b prev Hb Hp Hne). sz. lia. }
  assert (Hkey_new : node_key m4 n = k).
  { unfold node_key. rewrite Hnew by (sz; lia). unfold m3.
    rewrite !load_store_ne by (sz; lia). apply load_store_eq. }
  assert (Hval_new : node_value m4 n = 0).
  { unfold node_value. rewrite Hnew by (sz; lia). unfold m3.
    rewrite load_store_ne by (sz; lia). apply load_store_eq. }
  eexists n, _. split; [by apply link_new_eq|].
  fold m3 m4.
  assert (Hperm := join_snoc B _ l n Hl).
  assert (Hin' : forall a, a ∈ mjoin (alter (snoc n) (Z.to_nat h) B)
                           <-> a = n \/ a ∈ mjoin B).
  { intros a. rewrite Hperm. apply elem_of_cons. }
  split_and!; try done.
  - (* the invariant *)
    constructor; proj.
    + by rewrite Fa; apply (inv_alloc _ _ HI).
    + rewrite length_alter, Fsz. done.
    + rewrite Ftb. unfold table_bytes in *. proj. rewrite Fsz. lia.
    + rewrite Ftb. unfold m4. rewrite Ftb.
      assert (Hh' : h = Z.of_nat (Z.to_nat h)) by lia.
      rewrite Hh' at 1.
      apply link_table; try done.
      * unfold m3. rewrite Fm.
        repeat apply table_rep_store; try done;
          try (intros i Hi; sz; lia);
          try (intros b Hb; specialize (Fan b Hb); sz; lia).
      * by apply (inv_nodup _ _ HI).
      * lia.
      * unfold m3. apply load_store_eq.
      * intros b [->|Hb]%elem_of_cons.
        -- rewrite Hlen. exact Fat.
        -- rewrite Hlen. by apply (inv_nodes _ _ HI).
    + rewrite Hperm. apply NoDup_cons. split; [done|]. by apply (inv_nodup _ _ HI).
    + intros a [->|Ha]%Hin'.
      * unfold table_bytes. proj. rewrite Ftb, Fsz. split_and!; try done.
      * destruct (inv_nodes _ _ HI a Ha) as (? & ? & ?).
        unfold table_bytes. proj. rewrite Ftb, Fsz. split_and!; try done. lia.
    + intros a b [->|Ha]%Hin' [->|Hb]%Hin' Hab; try done.
      * by apply Fan.
      * specialize (Fan a Ha). sz. lia.
      * by apply (inv_sep _ _ HI).
    + intros a Ha. unfold m4.
      rewrite load_link_other.
      * unfold m3. rewrite !load_store_ne by (sz; lia).
        rewrite Fm. apply (inv_fresh _ _ HI). lia.
      * intros _. rewrite Ftb. sz. lia.
      * intros Hp0. destruct Hprev as [[Hp _]|(Hp & _ & _)]; [done|].
        destruct (inv_nodes _ _ HI _ Hp). sz. lia.
    + intros i li a Hi Ha. rewrite Fsz.
      destruct (decide (i = Z.to_nat h)) as [->|Hne].
      * rewrite list_lookup_alter_eq, Hl in Hi. simpl in Hi. injection Hi as <-.
        unfold snoc in Ha. apply elem_of_app in Ha as [Ha|Ha].
        -- rewrite Hkey_old by (by apply Hlin).
           by apply (inv_keys _ _ HI _ l).
        -- apply list_elem_of_singleton in Ha as ->. rewrite Hkey_new.
           fold h. lia.
      * rewrite list_lookup_alter_ne in Hi by done.
        rewrite Hkey_old by (by eapply elem_of_bucket).
        by apply (inv_keys _ _ HI _ li).
    + rewrite Hperm. rewrite fmap_cons. apply NoDup_cons. split.
      * rewrite Hkey_new. intros Hin. apply Hk.
        apply list_elem_of_fmap in Hin as (b & Eb & Hb).
        apply list_elem_of_fmap. exists b. split; [|done].
        by rewrite <- Hkey_old.
      * assert (Hext : node_key m4 <$> mjoin B = node_key (mem s) <$> mjoin B).
        { apply list_fmap_ext. intros i b Hb. apply Hkey_old.
          by eapply list_elem_of_lookup_2. }
        rewrite Hext. by apply (inv_keys_nodup _ _ HI).
    + rewrite (used_snoc _ _ l) by done.
      rewrite Fu, (inv_used _ _ HI).
      destruct Hprev as [[-> ->]|(_ & Hne & Hp)]; simpl.
      * rewrite u32_small; [lia|].
        assert (length (filter (fun l => l <> []) B) <= length B)%nat
          by apply length_filter.
        destruct HR as (? & _). change (2 ^ 30) with 1073741824 in *.
        change (2 ^ 32) with 4294967296. lia.
      * destruct (Z.eqb_spec prev 0); [done|].
        destruct (decide (l = [])); [done|]. lia.
    + rewrite Hperm. cbn [length]. rewrite Ft, u32_small.
      * rewrite (inv_total _ _ HI). lia.
      * destruct HR as (_ & ? & _). rewrite (inv_total _ _ HI) in *.
        change (2 ^ 32) with 4294967296 in *. lia.
    + rewrite Fmx. by apply (inv_max _ _ HI).
    + destruct Fc as [Fc|(C1 & C2 & C3 & C4 & C5 & C6)]; [by left|right].
      unfold table_bytes in *. proj. split_and!; try done.
      intros a Ha%Hin'. apply C6. simpl. apply elem_of_cons. done.
  - intros b Hb. proj. split; [by apply Hkey_old|by apply Hval_old].
  - proj. rewrite Fu. destruct Hprev as [[-> ->]|(_ & Hne & Hp)].
    + simpl. rewrite u32_small; [done|].
      rewrite (inv_used _ _ HI).
      assert (length (filter (fun l => l <> []) B) <= length B)%nat
        by apply length_filter.
      destruct HR as (? & _). change (2 ^ 30) with 1073741824 in *.
      change (2 ^ 32) with 4294967296. lia.
    + destruct (Z.eqb_spec prev 0); [done|].
      destruct (decide (l = [])); [done|]. lia.
  - proj. rewrite Ft, u32_small; [done|].
    destruct HR as (_ & ? & _). rewrite (inv_total _ _ HI) in *.
    change (2 ^ 32) with 4294967296 in *. lia.
  - proj. lia.
  - proj. lia.
Qed.

End LinkNew.

(** * Moving the nodes into the new bucket array *)

Lemma migrate_node_eq (fuel : nat) (s : CHash) (p h prev mx : Z) :
  slot_of s (load (mem s) (p + off_key)) = Ok h ->
  walk_tail fuel (mem s) (load (mem s) (bucket_addr (HashTable s) h)) 0 0
    (MaxListLength s) = Ok (prev, mx) ->
  migrate_node fuel s p =
  Ok (load (mem s) (p + off_Next),
      set_stats
        (set_mem s (link (store (mem s) (p + off_Next) 0) (HashTable s) h prev p))
        (if prev =? 0 then u32 (NumUsedSlots s + 1) else NumUsedSlots s)
        mx (u32 (NumTotalRecords s + 1))).
Proof.
  intros E1 E2. unfold migrate_node, link. rewrite E1. simpl. rewrite E2. simpl.
  by destruct (prev =? 0).
Qed.

Section Migration.

Context (s0 : CHash) (B : list (list Z)).
Hypothesis HI : Inv s0 B.
Hypothesis HR : in_range s0.

Lemma old_chains_store (m : gmap Z Z) (i : nat) (x v : Z) :
  old_chains s0 B m i ->
  (forall (j : nat) (l : list Z) b, (i <= j)%nat -> B !! j = Some l -> b ∈ l ->
     b + off_Next <> x) ->
  old_chains s0 B (store m x v) i.
Proof.
  intros Ho Hx j l Hj Hl. apply chain_store; [|by apply Ho].
  intros b Hb. by eapply Hx.
Qed.

(** the nodes still to be moved are not in the new chains *)
Lemma mig_todo (s : CHash) (Bn : list (list Z)) (R : list Z) (a : Z) :
  Mig s0 B s Bn R -> a ∈ R -> a ∈ mjoin B /\ a ∉ mjoin Bn.
Proof.
  intros HM Ha. pose proof (mig_perm _ _ _ _ _ HM) as Hp.
  split.
  - rewrite <- Hp. apply elem_of_app. by right.
  - pose proof (inv_nodup _ _ HI) as Hnd. rewrite <- Hp in Hnd.
    apply NoDup_app in Hnd as (_ & Hd & _). intros Hin. by apply (Hd a).
Qed.

Lemma mig_done (s : CHash) (Bn : list (list Z)) (R : list Z) (a : Z) :
  Mig s0 B s Bn R -> a ∈ mjoin Bn -> a ∈ mjoin B /\ a ∉ R.
Proof.
  intros HM Ha. pose proof (mig_perm _ _ _ _ _ HM) as Hp.
  split.
  - rewrite <- Hp. apply elem_of_app. by left.
  - pose proof (inv_nodup _ _ HI) as Hnd. rewrite <- Hp in Hnd.
    apply NoDup_app in Hnd as (_ & Hd & _). by apply Hd.
Qed.


Lemma chain_link_other (m : gmap Z Z) (tbl hh prev a p : Z) (l : list Z) :
  chain m p l ->
  (prev = 0 -> forall b, b ∈ l -> b + off_Next <> bucket_addr tbl hh) ->
  (prev <> 0 -> prev ∉ l) ->
  chain (link m tbl hh prev a) p l.
Proof.
  intros Hc H1 H2. unfold link. destruct (Z.eqb_spec prev 0) as [E|E].
  - apply chain_store; [|done]. by apply H1.
  - apply chain_store; [|done]. intros b Hb Eb.
    assert (b = prev) by (sz; lia). subst b. by apply H2.
Qed.

Lemma migrate_node_spec (fuel : nat) (s : CHash) (Bn : list (list Z)) (a : Z)
    (rest : list Z) (i : nat) :
  Mig s0 B s Bn (a :: rest ++ mjoin (drop i B)) ->
  chain (mem s) a (a :: rest) ->
  old_chains s0 B (mem s) i ->
  (length (mjoin B) <= fuel)%nat ->
  exists s' Bn',
    migrate_node fuel s a = Ok (load (mem s) (a + off_Next), s') /\
    Mig s0 B s' Bn' (rest ++ mjoin (drop i B)) /\
    chain (mem s') (load (mem s) (a + off_Next)) rest /\
    old_chains s0 B (mem s') i.
Proof.
  intros HM Hc Ho Hf.
  destruct HM as [Ma [Msz Mlen] (Mt1 & Mt2 & Mt3) [Mo1 Mo2] Mrep Mperm Mkeys
                  Msame Mheads Mfresh Mused Mtotal Mmax].
  destruct (inv_size _ _ HI) as (Hsz & Hlen).
  destruct (inv_table _ _ HI) as (Htpos & Htal & Htb).
  destruct HR as (Rsz & Rtot & Rbrk).
  change (2 ^ 30) with 1073741824 in Rsz.
  change (2 ^ 32 - 1) with 4294967295 in Rtot.
  rewrite (inv_total _ _ HI) in Rtot.
  pose proof (inv_nodup _ _ HI) as Hnd. rewrite <- Mperm in Hnd.
  apply NoDup_app in Hnd as (Hnd1 & Hd1 & Hnd2).
  apply NoDup_cons in Hnd2 as (Ha_rest & Hnd2).
  apply NoDup_app in Hnd2 as (Hnd_rest & Hd2 & Hnd_L).
  assert (HinB : forall x, x ∈ mjoin Bn \/ x = a \/ x ∈ rest \/ x ∈ mjoin (drop i B)
                           -> x ∈ mjoin B).
  { intros x Hx. rewrite <- Mperm. rewrite elem_of_app, elem_of_cons, elem_of_app.
    tauto. }
  assert (Hfacts : forall x, x ∈ mjoin B ->
            0 < x /\ x + sizeof_Hash_t <= brk s0 /\
            apart x sizeof_Hash_t (HashTable s0) (table_bytes s0)).
  { intros x Hx. by apply (inv_nodes _ _ HI). }
  assert (HaB : a ∈ mjoin B) by (apply HinB; tauto).
  assert (Ha_Bn : a ∉ mjoin Bn).
  { intros Hin. apply (Hd1 a Hin). by left. }
  assert (Ha_L : a ∉ mjoin (drop i B)).
  { intros Hin. apply Ha_rest. apply elem_of_app. by right. }
  assert (Ha_r : a ∉ rest).
  { intros Hin. apply Ha_rest. apply elem_of_app. by left. }
  destruct Hc as (_ & Hanz & Hc).
  set (k := load (mem s) (a + off_key)).
  remember (HashPointer k mod HashTableSize s) as hz eqn:Ehz.
  assert (Hhz : 0 <= hz < HashTableSize s) by (subst hz; apply Z.mod_pos_bound; lia).
  assert (Hslot : slot_of s k = Ok hz).
  { unfold slot_of. rewrite u32_small by (change (2 ^ 32) with 4294967296; lia).
    destruct (Z.eqb_spec (HashTableSize s) 0); [lia|by subst hz]. }
  assert (is_Some (Bn !! Z.to_nat hz)) as [l' Hl'].
  { apply lookup_lt_is_Some_2. lia. }
  pose proof (Mrep _ _ Hl') as Hcl'. rewrite Z2Nat.id in Hcl' by lia.
  assert (Hl'B : forall b, b ∈ l' -> b ∈ mjoin Bn).
  { intros b Hb. by eapply elem_of_bucket. }
  assert (Hlen_Bn : (length (mjoin Bn) <= length (mjoin B))%nat).
  { rewrite <- Mperm, length_app. lia. }
  assert (Hlen_l' : (length l' <= length (mjoin Bn))%nat).
  { by eapply chain_length_le. }
  assert (Hwalk : walk_tail fuel (mem s)
            (load (mem s) (bucket_addr (HashTable s) hz)) 0 0 (MaxListLength s)
          = Ok (default 0 (last l'),
                Z.max (MaxListLength s) (0 + Z.of_nat (length l')))).
  { apply walk_tail_spec; try done; lia. }
  set (prev := default 0 (last l')) in *.
  assert (Hprev : prev = 0 /\ l' = [] \/
                  prev ∈ mjoin Bn /\ l' <> [] /\ prev <> 0).
  { destruct (decide (l' = [])) as [->|Hne]; [by left|right].
    split; [by apply Hl'B, last_default_elem|]. split; [done|].
    intros E0. by apply (last_default_zero _ _ _ Hcl') in E0. }
  set (m1 := store (mem s) (a + off_Next) 0).
  set (m2 := link m1 (HashTable s) hz prev a).
  eexists _, (alter (snoc a) (Z.to_nat hz) Bn).
  split; [by apply (migrate_node_eq fuel s a hz)|].
  fold prev m1 m2.
  assert (Hload : forall x,
            x <> a + off_Next ->
            (prev = 0 -> x <> bucket_addr (HashTable s) hz) ->
            (prev <> 0 -> x <> prev + off_Next) ->
            load m2 x = load (mem s) x).
  { intros x H1 H2 H3. unfold m2. rewrite load_link_other by done.
    unfold m1. by rewrite load_store_ne. }
  assert (HprevB : prev <> 0 -> prev ∈ mjoin B /\ prev <> a).
  { intros Hp. destruct Hprev as [[? _]|(Hp' & _ & _)]; [done|].
    split; [apply HinB; tauto|]. intros ->. done. }
  assert (Hfield : forall x d, x ∈ mjoin B -> (d = off_key \/ d = off_value) ->
            load m2 (x + d) = load (mem s) (x + d)).
  { intros x d Hx Hd. destruct (Hfacts x Hx) as (? & ? & ?).
    destruct (Hfacts a HaB) as (? & ? & ?).
    apply Hload.
    - destruct (decide (x = a)) as [->|Hne]; [sz; lia|].
      pose proof (inv_sep _ _ HI x a Hx HaB Hne). sz. lia.
    - intros _. sz. lia.
    - intros Hp. destruct (HprevB Hp) as [HpB _].
      destruct (decide (x = prev)) as [->|Hne]; [sz; lia|].
      pose proof (inv_sep _ _ HI x prev Hx HpB Hne). sz. lia. }
  assert (Hperm' := join_snoc Bn _ l' a Hl').
  split_and!.
  - (* the migration invariant *)
    constructor; proj.
    + done.
    + by rewrite length_alter.
    + unfold table_bytes in *. proj. done.
    + done.
    + assert (Hh' : hz = Z.of_nat (Z.to_nat hz)) by lia.
      unfold m2. rewrite Hh' at 1.
      destruct (Hfacts a HaB) as (? & ? & ?).
      apply link_table; try done.
      * unfold m1. apply table_rep_store; [done| |].
        -- intros j Hj. sz. lia.
        -- intros b Hb. assert (b <> a) by (by intros ->).
           pose proof (inv_sep _ _ HI b a ltac:(apply HinB; tauto) HaB H2).
           sz. lia.
      * unfold m1. apply load_store_eq.
      * intros b Hb. assert (a <> b) by (by intros ->).
        apply (inv_sep _ _ HI); try done. apply HinB; tauto.
      * intros b Hb. assert (b ∈ mjoin B).
        { apply elem_of_cons in Hb as [->|Hb]; [done|]. apply HinB; tauto. }
        destruct (Hfacts b H2) as (? & ? & ?). sz. lia.
    + rewrite Hperm'. rewrite <- Mperm, <- app_comm_cons.
      by rewrite Permutation_middle.
    + intros j lj b Hj Hb.
      assert (b ∈ mjoin B).
      { assert (b ∈ mjoin (alter (snoc a) (Z.to_nat hz) Bn))
          by (by eapply elem_of_bucket).
        rewrite Hperm' in H. apply elem_of_cons in H as [->|H]; [done|].
        apply HinB; tauto. }
      unfold node_key. rewrite Hfield by (done || by left).
      destruct (decide (j = Z.to_nat hz)) as [->|Hne].
      * rewrite list_lookup_alter_eq, Hl' in Hj. simpl in Hj. injection Hj as <-.
        unfold snoc in Hb. apply elem_of_app in Hb as [Hb|Hb].
        -- by apply (Mkeys _ l').
        -- apply list_elem_of_singleton in Hb as ->. fold k. lia.
      * rewrite list_lookup_alter_ne in Hj by done. by apply (Mkeys _ lj).
    + intros x Hx. unfold node_key, node_value.
      rewrite !Hfield by (done || (by left) || (by right)).
      by apply Msame.
    + intros j Hj. rewrite <- Mheads by done.
      destruct (Hfacts a HaB) as (? & ? & ?).
      apply Hload.
      * sz. lia.
      * intros _. sz. lia.
      * intros Hp. destruct (HprevB Hp) as [HpB _].
        destruct (Hfacts prev HpB) as (? & ? & ?). sz. lia.
    + intros x Hx. rewrite Hload; [by apply Mfresh| | |].
      * destruct (Hfacts a HaB) as (? & ? & ?). sz. lia.
      * intros _. sz. lia.
      * intros Hp. destruct (HprevB Hp) as [HpB _].
        destruct (Hfacts prev HpB) as (? & ? & ?). sz. lia.
    + rewrite (used_snoc _ _ l') by done. rewrite Mused.
      assert (length (filter (fun l => l <> []) Bn) <= length Bn)%nat
        by apply length_filter.
      destruct Hprev as [[-> ->]|(_ & Hne & Hp)]; simpl.
      * rewrite u32_small; [lia|]. change (2 ^ 32) with 4294967296. lia.
      * destruct (Z.eqb_spec prev 0); [done|].
        destruct (decide (l' = [])); [done|]. lia.
    + rewrite Hperm'. cbn [length]. rewrite Mtotal, u32_small; [lia|].
      change (2 ^ 32) with 4294967296. lia.
    + lia.
  - (* the rest of the old chain *)
    destruct (Hfacts a HaB) as (? & ? & ?).
    unfold m2. apply chain_link_other.
    + unfold m1. apply chain_store; [|done].
      intros b Hb Eb. assert (b = a) by (sz; lia). by subst b.
    + intros _ b Hb. destruct (Hfacts b ltac:(apply HinB; tauto)) as (? & ? & ?).
      sz. lia.
    + intros Hp Hin. destruct Hprev as [[? _]|(Hp' & _ & _)]; [done|].
      apply (Hd1 prev Hp'). right. apply elem_of_app. by left.
  - (* the later old chains *)
    intros j lj Hj Hlj.
    assert (HljL : forall b, b ∈ lj -> b ∈ mjoin (drop i B)).
    { intros b Hb. eapply (elem_of_bucket _ (j - i)); [|done].
      rewrite lookup_drop. rewrite <- Hlj. f_equal. lia. }
    unfold m2. apply chain_link_other.
    + unfold m1. apply chain_store; [|by apply (Ho j)].
      intros b Hb Eb. assert (b = a) by (sz; lia). subst b.
      by apply Ha_L, HljL.
    + intros _ b Hb.
      destruct (Hfacts b ltac:(apply HinB; right; right; right; by apply HljL))
        as (? & ? & ?).
      sz. lia.
    + intros Hp Hin. destruct Hprev as [[? _]|(Hp' & _ & _)]; [done|].
      apply (Hd1 prev Hp'). right. apply elem_of_app. right. by apply HljL.
Qed.

End Migration.

Section Migration2.

Context (s0 : CHash) (B : list (list Z)).
Hypothesis HI : Inv s0 B.
Hypothesis HR : in_range s0.

Lemma migrate_chain_spec (fuel n : nat) (rest : list Z) (i : nat) :
  (length (mjoin B) <= fuel)%nat -> (length rest <= n)%nat ->
  forall (s : CHash) (Bn : list (list Z)) (p : Z),
  Mig s0 B s Bn (rest ++ mjoin (drop i B)) ->
  chain (mem s) p rest ->
  old_chains s0 B (mem s) i ->
  exists s' Bn',
    migrate_chain fuel n s p = Ok s' /\
    Mig s0 B s' Bn' (mjoin (drop i B)) /\
    old_chains s0 B (mem s') i.
Proof.
  intros Hf. revert n.
  induction rest as [|a rest IH]; intros n Hn s Bn p HM Hc Ho.
  - simpl in Hc. subst p. exists s, Bn. by destruct n.
  - pose proof Hc as (-> & Hnz & _). simpl in Hn.
    destruct n as [|n]; [lia|].
    destruct (migrate_node_spec s0 B HI HR fuel s Bn a rest i HM Hc Ho Hf)
      as (s1 & Bn1 & E1 & HM1 & Hc1 & Ho1).
    destruct (IH n ltac:(lia) s1 Bn1 _ HM1 Hc1 Ho1) as (s2 & Bn2 & E2 & HM2 & Ho2).
    exists s2, Bn2. split; [|done].
    cbn [migrate_chain]. destruct (Z.eqb_spec a 0); [done|].
    rewrite E1. cbn [bind]. exact E2.
Qed.

Lemma old_chains_weaken (m : gmap Z Z) (i : nat) :
  old_chains s0 B m i -> old_chains s0 B m (S i).
Proof. intros Ho j l Hj Hl. apply Ho; [lia|done]. Qed.

Lemma migrate_buckets_spec (fuel : nat) (n : nat) :
  (length (mjoin B) <= fuel)%nat ->
  forall (i : nat) (s : CHash) (Bn : list (list Z)),
  (i + n = length B)%nat ->
  Mig s0 B s Bn (mjoin (drop i B)) ->
  old_chains s0 B (mem s) i ->
  exists s' Bn',
    migrate_buckets fuel n (Z.of_nat i) s = Ok s' /\ Mig s0 B s' Bn' [].
Proof.
  intros Hf. induction n as [|n IH]; intros i s Bn Hin HM Ho.
  - exists s, Bn. split; [done|].
    rewrite drop_ge in HM by lia. done.
  - assert (is_Some (B !! i)) as [l Hl] by (apply lookup_lt_is_Some_2; lia).
    assert (Hdrop : drop i B = l :: drop (S i) B).
    { by apply drop_S. }
    rewrite Hdrop in HM. cbn [mjoin list_join] in HM.
    destruct (mig_old _ _ _ _ _ HM) as [Eo _].
    assert (Hhead : load (mem s) (bucket_addr (OldHashTable s) (Z.of_nat i))
                    = load (mem s0) (bucket_addr (HashTable s0) (Z.of_nat i))).
    { rewrite Eo. apply (mig_heads _ _ _ _ _ HM).
      destruct (inv_size _ _ HI) as [_ Hlen]. lia. }
    assert (Hlen_l : (length l <= length (mjoin B))%nat) by (by eapply chain_length_le).
    destruct (migrate_chain_spec fuel fuel l (S i) Hf ltac:(lia) s Bn
                (load (mem s) (bucket_addr (OldHashTable s) (Z.of_nat i))) HM)
      as (s1 & Bn1 & E1 & HM1 & Ho1).
    { rewrite Hhead. by apply (Ho i). }
    { by apply old_chains_weaken. }
    destruct (IH (S i) s1 Bn1 ltac:(lia) HM1 Ho1) as (s2 & Bn2 & E2 & HM2).
    exists s2, Bn2. split; [|done].
    cbn [migrate_buckets]. rewrite E1. cbn [bind].
    replace (Z.of_nat i + 1) with (Z.of_nat (S i)) by lia. exact E2.
Qed.

End Migration2.

(** * IncreaseHashTableSize on a well-formed table *)

Lemma join_replicate_nil (n : nat) : mjoin (replicate n ([] : list Z)) = [].
Proof. induction n; [done|]. simpl. done. Qed.

Lemma filter_replicate_nil (n : nat) :
  filter (fun l : list Z => l <> []) (replicate n []) = [].
Proof.
  induction n as [|n IH]; [done|].
  cbn [replicate]. rewrite filter_cons. destruct (decide ([] <> [])); done.
Qed.

Lemma s32_small (x : Z) : - 2 ^ 31 <= x < 2 ^ 31 -> s32 x = x.
Proof.
  intros H. unfold s32. rewrite Z.mod_small; [lia|].
  change (2 ^ 31) with 2147483648 in *. change (2 ^ 32) with 4294967296. lia.
Qed.

Lemma u64_small (x : Z) : 0 <= x < 2 ^ 64 -> u64 x = x.
Proof. intros. unfold u64. by apply Z.mod_small. Qed.

Section Grow.

Context (s0 : CHash) (B : list (list Z)).
Hypothesis HI : Inv s0 B.
Hypothesis HR : in_range s0.

Lemma IncreaseHashTableSize_spec (fuel : nat) :
  (length (mjoin B) <= fuel)%nat ->
  exists s' B',
    IncreaseHashTableSize fuel s0 = Ok s' /\ Inv s' B' /\
    mjoin B' ≡ₚ mjoin B /\
    (forall a, a ∈ mjoin B ->
       node_key (mem s') a = node_key (mem s0) a /\
       node_value (mem s') a = node_value (mem s0) a) /\
    HashTableSize s' = 2 * HashTableSize s0 /\
    brk s0 <= brk s' <= brk s0 + 7 + 2 * table_bytes s0.
Proof.
  intros Hf.
  destruct (inv_size _ _ HI) as (Hsz & Hlen).
  destruct (inv_table _ _ HI) as (Htpos & Htal & Htb).
  pose proof HR as (Rsz & Rtot & Rbrk).
  change (2 ^ 30) with 1073741824 in Rsz.
  destruct (align_up_8 (brk s0)) as [Hb Hbal].
  unfold IncreaseHashTableSize, alloc.
  cbn [HashAllocator set_old HashTableSize HashTable].
  destruct (Z.eqb_spec (HashAllocator s0) 0) as [E0|_].
  { by destruct (inv_alloc _ _ HI). }
  cbn [bind]. unfold AllocateBytes.
  rewrite s32_small by (change (2 ^ 31) with 2147483648; lia).
  unfold sizeof_ptr.
  rewrite !u64_small by (change (2 ^ 64) with 18446744073709551616; lia).
  proj.
  match goal with |- context [migrate_buckets fuel _ 0 ?s] => set (s1 := s) end.
  assert (HM : Mig s0 B s1 (replicate (Z.to_nat (HashTableSize s0 * 2)) [])
                 (mjoin (drop 0 B))).
  { constructor; unfold s1; proj.
    - done.
    - rewrite length_replicate. lia.
    - unfold table_bytes, sizeof_ptr. proj. split_and!; try done; lia.
    - unfold table_bytes, sizeof_ptr. split; [done|lia].
    - intros i l Hi. apply lookup_replicate in Hi as [-> Hi]. simpl.
      apply (inv_fresh _ _ HI). sz. lia.
    - rewrite join_replicate_nil. done.
    - intros i l a Hi Ha. apply lookup_replicate in Hi as [-> Hi].
      by apply elem_of_nil in Ha.
    - done.
    - done.
    - intros a Ha. apply (inv_fresh _ _ HI). lia.
    - by rewrite filter_replicate_nil.
    - by rewrite join_replicate_nil.
    - done. }
  assert (Ho : old_chains s0 B (mem s1) 0).
  { intros j l _ Hl. unfold s1. proj. by apply (inv_chains _ _ HI). }
  destruct (migrate_buckets_spec s0 B HI HR fuel (Z.to_nat (HashTableSize s0)) Hf
              0%nat s1 _ ltac:(lia) HM Ho) as (s' & B' & E & HM').
  exists s', B'. split; [exact E|].
  destruct HM' as [Ma [Msz Mlen] (Mt1 & Mt2 & Mt3) [Mo1 Mo2] Mrep Mperm Mkeys
                   Msame Mheads Mfresh Mused Mtotal Mmax].
  rewrite app_nil_r in Mperm.
  assert (HinB : forall a, a ∈ mjoin B' <-> a ∈ mjoin B).
  { intros a. by rewrite Mperm. }
  split_and!; try done.
  - constructor.
    + rewrite Ma. by apply (inv_alloc _ _ HI).
    + split; [lia|done].
    + split_and!; [sz; lia|done|sz; lia].
    + done.
    + rewrite Mperm. by apply (inv_nodup _ _ HI).
    + intros a Ha%HinB. destruct (inv_nodes _ _ HI a Ha) as (? & ? & ?).
      split_and!; [done|sz; lia|sz; lia].
    + intros a b Ha%HinB Hb'%HinB. by apply (inv_sep _ _ HI).
    + done.
    + done.
    + assert (Hext : node_key (mem s') <$> mjoin B' = node_key (mem s0) <$> mjoin B').
      { apply list_fmap_ext.
        intros i a Ha. apply Msame, HinB. by eapply list_elem_of_lookup_2. }
      rewrite Hext, Mperm. by apply (inv_keys_nodup _ _ HI).
    + done.
    + done.
    + done.
    + right. rewrite Mo1, Mo2. unfold table_bytes in *.
      split_and!; try done; try (sz; lia).
      intros a Ha%HinB. destruct (inv_nodes _ _ HI a Ha) as (? & ? & ?).
      sz. lia.
  - sz. lia.
  - sz. lia.
Qed.

End Grow.

(** * LookupPointer on a well-formed table *)

Lemma fits_in_range (s : CHash) : fits s -> in_range s.
Proof.
  unfold fits, in_range. change (2 ^ 32) with 4294967296.
  change (2 ^ 63) with 9223372036854775808. lia.
Qed.

Lemma Inv_set_max (s : CHash) (B : list (list Z)) (mx : Z) :
  Inv s B -> 0 <= mx ->
  Inv (set_stats s (NumUsedSlots s) mx (NumTotalRecords s)) B.
Proof.
  intros [] Hmx. constructor; try done.
Qed.

(** [slot_of] only needs the size to fit the unsigned type *)
Lemma slot_of_small (s : CHash) (k : Z) :
  0 < HashTableSize s < 2 ^ 32 ->
  slot_of s k = Ok (HashPointer k mod HashTableSize s) /\
  0 <= HashPointer k mod HashTableSize s < HashTableSize s.
Proof.
  intros Hsz. unfold slot_of. rewrite u32_small by lia.
  destruct (Z.eqb_spec (HashTableSize s) 0); [lia|].
  split; [done|]. apply Z.mod_pos_bound. lia.
Qed.

Lemma relookup_found (fuel : nat) (s : CHash) (B : list (list Z)) (a : Z) :
  Inv s B -> HashTableSize s < 2 ^ 32 ->
  (length (mjoin B) <= fuel)%nat -> a ∈ mjoin B ->
  relookup fuel s (node_key (mem s) a) = Ok (a + off_value, s).
Proof.
  intros HI HR Hf Ha. set (k := node_key (mem s) a).
  destruct (inv_size _ _ HI) as [Hsz _].
  destruct (slot_of_small s k ltac:(lia)) as [Hs Hh].
  destruct (node_bucket s B HI a Ha) as (l & Hl & Hal). fold k in Hl.
  pose proof (chain_length_le B _ _ Hl).
  pose proof (inv_chains _ _ HI _ _ Hl) as Hc. rewrite Z2Nat.id in Hc by lia.
  destruct (find_found fuel (mem s) k a l _ Hc ltac:(lia) Hal eq_refl)
    as (b & E & Hb & Hkb).
  assert (b = a).
  { apply (key_inj s B HI); [by eapply elem_of_bucket|done|done]. }
  subst b. unfold relookup. rewrite Hs. cbn [bind]. rewrite E. done.
Qed.

Section LookupPointer.

Context (s : CHash) (B : list (list Z)) (fuel : nat).
Hypothesis HI : Inv s B.
Hypothesis HF : fits s.
Hypothesis Hfuel : (length (mjoin B) < fuel)%nat.

(** a key that is in the table: its node is found, nothing is allocated *)
Lemma LookupPointer_hit (a : Z) :
  a ∈ mjoin B ->
  exists mx, MaxListLength s <= mx /\
    LookupPointer fuel s (node_key (mem s) a)
    = Ok (a + off_value, set_stats s (NumUsedSlots s) mx (NumTotalRecords s)).
Proof.
  intros Ha. pose proof (fits_in_range _ HF) as HR.
  destruct (probe_found s B HI HR fuel a ltac:(lia) Ha) as (mx & E & Hmx).
  destruct (slot_of_ok s B HI HR (node_key (mem s) a)) as [Hs _].
  exists mx. split; [done|].
  unfold LookupPointer. rewrite Hs. cbn [bind]. rewrite E. done.
Qed.

(** a key that is not in the table: one node is added for it, with an empty
    value, and the table may grow; the nodes that were there keep their
    keys and values *)
Lemma LookupPointer_miss (k : Z) :
  k ∉ (node_key (mem s) <$> mjoin B) ->
  exists n s' B',
    LookupPointer fuel s k = Ok (n + off_value, s') /\ Inv s' B' /\
    mjoin B' ≡ₚ n :: mjoin B /\ (n ∉ mjoin B) /\
    node_key (mem s') n = k /\ node_value (mem s') n = 0 /\
    (forall b, b ∈ mjoin B ->
       node_key (mem s') b = node_key (mem s) b /\
       node_value (mem s') b = node_value (mem s) b).
Proof.
  intros Hk. pose proof (fits_in_range _ HF) as HR.
  destruct (slot_of_ok s B HI HR k) as [Hs Hh].
  destruct (bucket_of_key s B HI HR k) as [l Hl].
  pose proof (probe_missing s B HI HR fuel k l ltac:(lia) Hl Hk) as Ep.
  set (mx := Z.max (MaxListLength s) (Z.of_nat (length l))) in *.
  set (sm := set_stats s (NumUsedSlots s) mx (NumTotalRecords s)).
  assert (HIm : Inv sm B).
  { apply Inv_set_max; [done|]. pose proof (inv_max _ _ HI). lia. }
  assert (HRm : in_range sm) by exact HR.
  destruct (link_new_inv sm B k l HIm HRm Hl Hk)
    as (n & s1 & E1 & HI1 & Hnin & Hkn & Hvn & Hold & Esz & Etb & Emx & Eu & Et & Eb).
  assert (Hperm1 := join_snoc B _ l n Hl).
  unfold LookupPointer. rewrite Hs. cbn [bind]. rewrite Ep. cbn [bind].
  fold sm. change (HashTableSize sm) with (HashTableSize s) in E1.
  rewrite E1. cbn [bind].
  destruct (needs_resize s1).
  - (* the table grows *)
    assert (HR1 : in_range s1).
    { destruct HF as (F1 & F2 & F3). unfold in_range.
      change (2 ^ 32) with 4294967296 in *.
      change (2 ^ 63) with 9223372036854775808 in *.
      change (NumTotalRecords sm) with (NumTotalRecords s) in Et.
      change (brk sm) with (brk s) in Eb.
      change (HashTableSize sm) with (HashTableSize s) in Esz. lia. }
    assert (Hf1 : (length (mjoin (alter (snoc n) (Z.to_nat (HashPointer k mod HashTableSize s)) B))
                   <= fuel)%nat).
    { rewrite Hperm1. simpl. lia. }
    destruct (IncreaseHashTableSize_spec s1 _ HI1 HR1 fuel Hf1)
      as (s2 & B2 & E2 & HI2 & Hperm2 & Hsame2 & Esz2 & Eb2).
    rewrite E2. cbn [bind].
    assert (Hn1 : n ∈ mjoin (alter (snoc n) (Z.to_nat (HashPointer k mod HashTableSize s)) B)).
    { rewrite Hperm1. by left. }
    assert (Hn2 : n ∈ mjoin B2) by (by rewrite Hperm2).
    assert (HR2 : HashTableSize s2 < 2 ^ 32).
    { destruct HR1 as (R1 & _). change (2 ^ 30) with 1073741824 in R1.
      change (2 ^ 32) with 4294967296. lia. }
    assert (Ek2 : node_key (mem s2) n = k).
    { destruct (Hsame2 n Hn1) as [-> _]. done. }
    exists n, s2, B2. split_and!; try done.
    + rewrite <- Ek2. apply (relookup_found fuel s2 B2); try done.
      by rewrite Hperm2.
    + etrans; [exact Hperm2|exact Hperm1].
    + destruct (Hsame2 n Hn1) as [_ ->]. done.
    + intros b Hb. assert (Hb1 : b ∈ mjoin (alter (snoc n) (Z.to_nat (HashPointer k mod HashTableSize s)) B)).
      { rewrite Hperm1. by right. }
      destruct (Hsame2 b Hb1) as [-> ->]. by apply Hold.
  - exists n, s1, (alter (snoc n) (Z.to_nat (HashPointer k mod HashTableSize s)) B).
    split_and!; try done.
Qed.

End LookupPointer.

(** * The resize test *)

Lemma slots_threshold_le (n : Z) :
  0 < n <= 5242880 ->
  f32_to_uint (f32_mul (f32_of_int n) f32_0_8) = 4 * n / 5.
Proof.
  intros Hn. destruct (Z.eq_dec n 5242880) as [->|Hne].
  - vm_compute. reflexivity.
  - apply slots_threshold. lia.
Qed.

(** below the sizes where single precision starts to round, the test
    decides exactly what its comments say *)
Lemma resize_test_exact (size used total mx : Z) :
  0 < size <= 5242880 -> 0 < used < 2 ^ 24 -> 0 <= total < 2 ^ 24 ->
  resize_test size used total mx = true <-> resize_wanted size used total mx.
Proof.
  intros Hs Hu Ht. unfold resize_test, resize_wanted.
  rewrite slots_threshold_le by done.
  rewrite probe_threshold by done.
  rewrite !orb_true_iff, !Z.ltb_lt.
  pose proof (Z.div_mod (4 * size) 5 ltac:(lia)).
  pose proof (Z.mod_pos_bound (4 * size) 5 ltac:(lia)).
  lia.
Qed.

Lemma bind_Ok {A C : Type} (r : result A) (f : A -> result C) (c : C) :
  bind r f = Ok c -> exists a, r = Ok a /\ f a = Ok c.
Proof. destruct r; simpl; intros; try done. eauto. Qed.

Lemma new_node_counters (s s1 : CHash) (n : Z) :
  new_node s = Ok (n, s1) ->
  HashTableSize s1 = HashTableSize s /\ NumUsedSlots s1 = NumUsedSlots s /\
  NumTotalRecords s1 = NumTotalRecords s /\ MaxListLength s1 = MaxListLength s.
Proof.
  unfold new_node, alloc, AllocateFromOldHashTable, AllocateBytes.
  destruct (negb (OldHashTable s =? 0)).
  - destruct (sizeof_Hash_t <=? _); intros [= <- <-]; done.
  - destruct (HashAllocator s =? 0); [done|]. intros [= <- <-]. done.
Qed.

Lemma link_new_counters (s s1 : CHash) (k h prev n : Z) :
  link_new s k h prev = Ok (n, s1) ->
  HashTableSize s1 = HashTableSize s /\
  NumUsedSlots s1 = (if prev =? 0 then u32 (NumUsedSlots s + 1) else NumUsedSlots s) /\
  NumTotalRecords s1 = u32 (NumTotalRecords s + 1) /\
  MaxListLength s1 = MaxListLength s.
Proof.
  unfold link_new. intros ([n0 s0] & E & H)%bind_Ok.
  apply new_node_counters in E as (E1 & E2 & E3 & E4).
  destruct (prev =? 0); injection H as <- <-; proj; rewrite ?E1, ?E2, ?E3, ?E4; done.
Qed.

Lemma migrate_node_size (fuel : nat) (s s' : CHash) (p p' : Z) :
  migrate_node fuel s p = Ok (p', s') -> HashTableSize s' = HashTableSize s.
Proof.
  unfold migrate_node. intros (h & _ & H)%bind_Ok.
  apply bind_Ok in H as ([prev mx] & _ & H).
  destruct (prev =? 0); injection H as <- <-; done.
Qed.

Lemma migrate_chain_size (fuel n : nat) (s s' : CHash) (p : Z) :
  migrate_chain fuel n s p = Ok s' -> HashTableSize s' = HashTableSize s.
Proof.
  revert s p. induction n as [|n IH]; intros s p; cbn [migrate_chain].
  - destruct (p =? 0); [by intros [= <-]|done].
  - destruct (p =? 0); [by intros [= <-]|].
    intros ([p1 s1] & E & H)%bind_Ok.
    apply migrate_node_size in E. apply IH in H. congruence.
Qed.

Lemma migrate_buckets_size (fuel n : nat) (i : Z) (s s' : CHash) :
  migrate_buckets fuel n i s = Ok s' -> HashTableSize s' = HashTableSize s.
Proof.
  revert i s. induction n as [|n IH]; intros i s; cbn [migrate_buckets].
  - by intros [= <-].
  - intros (s1 & E & H)%bind_Ok.
    apply migrate_chain_size in E. apply IH in H. congruence.
Qed.

(** a resize doubles the [int] that holds the size *)
Lemma IncreaseHashTableSize_size (fuel : nat) (s s' : CHash) :
  IncreaseHashTableSize fuel s = Ok s' ->
  HashTableSize s' = s32 (HashTableSize s * 2).
Proof.
  unfold IncreaseHashTableSize. intros ([tbl s1] & E & H)%bind_Ok.
  apply migrate_buckets_size in H. rewrite H. done.
Qed.

Lemma relookup_state (fuel : nat) (s s' : CHash) (k slot : Z) :
  relookup fuel s k = Ok (slot, s') -> s' = s.
Proof.
  unfold relookup. intros (h & _ & H)%bind_Ok.
  apply bind_Ok in H as ([p|] & _ & H); [|done]. by injection H as _ <-.
Qed.

(** * Well-formed tables: construction, the caller's stores, the counters *)

Lemma load_empty (a : Z) : load ∅ a = 0.
Proof. unfold load. by rewrite lookup_empty. Qed.

(** a table constructed with at least three buckets is well formed *)
Lemma Inv_fresh_table (n b : Z) :
  3 <= n < 2 ^ 30 -> 0 < b ->
  Inv (fresh_table n b) (replicate (Z.to_nat n) []).
Proof.
  intros Hn Hb. change (2 ^ 30) with 1073741824 in Hn.
  unfold fresh_table, construct.
  destruct (Z.eqb_spec n 0); [lia|]. cbn [negb andb].
  change (1 =? 0) with false. cbn [negb andb].
  unfold AllocateBytes. proj.
  rewrite u64_small by (unfold sizeof_ptr; change (2 ^ 64) with 18446744073709551616; lia).
  destruct (align_up_8 b) as [Hal Hmod].
  constructor; proj.
  - done.
  - rewrite length_replicate. lia.
  - unfold table_bytes, sizeof_ptr. proj. split_and!; [lia|done|lia].
  - intros i l Hi. apply lookup_replicate in Hi as [-> _]. simpl. apply load_empty.
  - rewrite join_replicate_nil. constructor.
  - rewrite join_replicate_nil. intros a Ha. by apply elem_of_nil in Ha.
  - rewrite join_replicate_nil. intros a a' Ha. by apply elem_of_nil in Ha.
  - intros a _. apply load_empty.
  - intros i l a Hi Ha. apply lookup_replicate in Hi as [-> _].
    by apply elem_of_nil in Ha.
  - rewrite join_replicate_nil. constructor.
  - by rewrite filter_replicate_nil.
  - by rewrite join_replicate_nil.
  - done.
  - by left.
Qed.

(** the caller's store into the value member of a node changes no key and
    no link *)
Lemma Inv_populate (s : CHash) (B : list (list Z)) (a v : Z) :
  Inv s B -> a ∈ mjoin B ->
  Inv (populate s (a + off_value) v) B /\
  (forall b, b ∈ mjoin B ->
     node_key (mem (populate s (a + off_value) v)) b = node_key (mem s) b) /\
  (forall b, b ∈ mjoin B -> b <> a ->
     node_value (mem (populate s (a + off_value) v)) b = node_value (mem s) b).
Proof.
  intros HI Ha. unfold populate.
  destruct (load (mem s) (a + off_value) =? 0); [|done].
  destruct (inv_nodes _ _ HI a Ha) as (Hpos & Hend & Htbl).
  destruct (inv_size _ _ HI) as (Hsz & Hlen).
  assert (Hother : forall b d, b ∈ mjoin B -> d = off_key \/ d = off_Next \/ (d = off_value /\ b <> a) ->
            load (store (mem s) (a + off_value) v) (b + d) = load (mem s) (b + d)).
  { intros b d Hb Hd. apply load_store_ne.
    destruct (decide (b = a)) as [->|Hne]; [sz; lia|].
    pose proof (inv_sep _ _ HI b a Hb Ha Hne). sz. lia. }
  split_and!.
  - constructor; proj; try (by destruct HI).
    + apply table_rep_store; [by apply (inv_chains _ _ HI)| |].
      * intros i Hi. sz. lia.
      * intros b Hb E. destruct (decide (b = a)) as [->|Hne]; [sz; lia|].
        pose proof (inv_sep _ _ HI b a Hb Ha Hne). sz. lia.
    + intros x Hx. rewrite load_store_ne by (sz; lia). by apply (inv_fresh _ _ HI).
    + intros i l b Hi Hb. unfold node_key.
      rewrite Hother; [by eapply (inv_keys _ _ HI)| by eapply elem_of_bucket | by left].
    + assert (Hext : node_key (store (mem s) (a + off_value) v) <$> mjoin B
                     = node_key (mem s) <$> mjoin B).
      { apply list_fmap_ext. intros i b Hb. unfold node_key.
        apply Hother; [by eapply list_elem_of_lookup_2|by left]. }
      rewrite Hext. by apply (inv_keys_nodup _ _ HI).
  - intros b Hb. unfold node_key. proj. apply Hother; [done|by left].
  - intros b Hb Hne. unfold node_value. proj. apply Hother; [done|]. right. by right.
Qed.

(** a store into the value member of a node, whatever the member held *)
Lemma Inv_store_value (s : CHash) (B : list (list Z)) (a v : Z) :
  Inv s B -> a ∈ mjoin B ->
  Inv (set_mem s (store (mem s) (a + off_value) v)) B /\
  (forall b, b ∈ mjoin B ->
     node_key (store (mem s) (a + off_value) v) b = node_key (mem s) b) /\
  (forall b, b ∈ mjoin B -> b <> a ->
     node_value (store (mem s) (a + off_value) v) b = node_value (mem s) b).
Proof.
  intros HI Ha.
  destruct (inv_nodes _ _ HI a Ha) as (Hpos & Hend & Htbl).
  destruct (inv_size _ _ HI) as (Hsz & Hlen).
  assert (Hother : forall b d, b ∈ mjoin B -> d = off_key \/ d = off_Next \/ (d = off_value /\ b <> a) ->
            load (store (mem s) (a + off_value) v) (b + d) = load (mem s) (b + d)).
  { intros b d Hb Hd. apply load_store_ne.
    destruct (decide (b = a)) as [->|Hne]; [sz; lia|].
    pose proof (inv_sep _ _ HI b a Hb Ha Hne). sz. lia. }
  split_and!.
  - constructor; proj; try (by destruct HI).
    + apply table_rep_store; [by apply (inv_chains _ _ HI)| |].
      * intros i Hi. sz. lia.
      * intros b Hb E. destruct (decide (b = a)) as [->|Hne]; [sz; lia|].
        pose proof (inv_sep _ _ HI b a Hb Ha Hne). sz. lia.
    + intros x Hx. rewrite load_store_ne by (sz; lia). by apply (inv_fresh _ _ HI).
    + intros i l b Hi Hb. unfold node_key.
      rewrite Hother; [by eapply (inv_keys _ _ HI)| by eapply elem_of_bucket | by left].
    + assert (Hext : node_key (store (mem s) (a + off_value) v) <$> mjoin B
                     = node_key (mem s) <$> mjoin B).
      { apply list_fmap_ext. intros i b Hb. unfold node_key.
        apply Hother; [by eapply list_elem_of_lookup_2|by left]. }
      rewrite Hext. by apply (inv_keys_nodup _ _ HI).
  - intros b Hb. unfold node_key. apply Hother; [done|by left].
  - intros b Hb Hne. unfold node_value. apply Hother; [done|]. right. by right.
Qed.

(** records in the table mean used slots: no division by zero *)
Lemma used_pos (s : CHash) (B : list (list Z)) :
  Inv s B -> 0 < NumTotalRecords s -> 1 <= NumUsedSlots s.
Proof.
  intros HI Ht. rewrite (inv_total _ _ HI) in Ht. rewrite (inv_used _ _ HI).
  assert (Hex : exists l, l ∈ B /\ l <> []).
  { destruct (mjoin B) as [|a r] eqn:E; [simpl in Ht; lia|].
    assert (Ha : a ∈ mjoin B) by (rewrite E; by left).
    apply list_elem_of_join in Ha as (l & Hal & Hl).
    exists l. split; [done|]. intros ->. by apply elem_of_nil in Hal. }
  destruct Hex as (l & Hl & Hne).
  assert (l ∈ filter (fun l => l <> []) B) by (by apply list_elem_of_filter).
  destruct (filter (fun l => l <> []) B); [by apply elem_of_nil in H|].
  simpl. lia.
Qed.

(** * C5: allocation from the recycling cursor *)

(** C5 (as amended). With the cursor set, pointer-aligned, and at least one
    node's worth of bytes behind it, the new node is always the cursor
    position itself and the allocator is not called; the cursor then
    advances by one node (24 bytes) when at least another node fits behind
    the new position, and is cleared otherwise, after which [new_node]
    takes every node from the allocator. *)
Theorem recycling_allocation (s : CHash) :
  0 < OldHashTable s -> OldHashTable s mod 8 = 0 ->
  sizeof_Hash_t <= OldHashTableFreeRemaining s ->
  OldHashTable s + OldHashTableFreeRemaining s < 2 ^ 63 ->
  new_node s =
    Ok (OldHashTable s,
        if 2 * sizeof_Hash_t <=? OldHashTableFreeRemaining s
        then set_old s (OldHashTable s + sizeof_Hash_t)
               (OldHashTableFreeRemaining s - sizeof_Hash_t)
        else set_old s 0 0) /\
  new_node (set_old s 0 0) = alloc (set_old s 0 0) sizeof_Hash_t sizeof_ptr.
Proof.
  intros Hpos Hal Hrem Hb. split; [|reflexivity].
  unfold new_node. destruct (Z.eqb_spec (OldHashTable s) 0); [lia|].
  cbn [negb]. by rewrite AllocateFromOldHashTable_fits.
Qed.

Lemma recycling_allocation_witness :
  let s := mkCHash 1 16 65768 65536 64 7 0 7 ∅ 65896 in
  new_node s = Ok (65536, set_old s 65560 40) /\
  new_node (set_old s 0 0) = alloc (set_old s 0 0) sizeof_Hash_t sizeof_ptr.
Proof.
  apply (recycling_allocation (mkCHash 1 16 65768 65536 64 7 0 7 ∅ 65896));
    [reflexivity|reflexivity|vm_compute; discriminate|reflexivity].
Defined.

(** C5 as stated fails: when the bytes left behind the new position cannot
    hold a node (16 of 40 here), the cursor is cleared, but this allocation
    is still served from the cursor position 65560, not from the allocator,
    whose next block would be 65896. *)
Lemma recycling_allocation_counterexample :
  let s := mkCHash 1 16 65768 65560 40 8 0 8 ∅ 65896 in
  new_node s = Ok (65560, set_old s 0 0) /\
  alloc s sizeof_Hash_t sizeof_ptr = Ok (65896, set_brk s 65920).
Proof. split; reflexivity. Qed.

(** * Tables created with fewer than three buckets

    [AllocateFromOldHashTable] subtracts the 24 bytes of a node from
    [OldHashTableFreeRemaining] before it compares; a bucket array of one or
    two entries leaves 8 or 16 bytes, the unsigned subtraction wraps around,
    and the cursor hands out nodes that overlap what lies behind the old
    array.  The runs below start from a table of one or two buckets on an
    arena at address 65536; every lookup is followed by the caller's store
    into an empty slot, except where the run says that a slot is left null. *)

Ltac evaluate :=
  repeat (split; [vm_compute; reflexivity|]); vm_compute; reflexivity.

Lemma cursor_underflow :
  let s := mkCHash 1 2 65568 65536 8 1 0 1 ∅ 65584 in
  AllocateFromOldHashTable s = (65536, set_old s 65560 (2 ^ 64 - 16)).
Proof. reflexivity. Qed.

(** C1, at the failing input.  In a table created with one bucket the key
    4096 is inserted and its slot 65552 populated with 4097; inserting the
    key 4112 clears that slot, and the next lookup of 4096 returns another
    slot, 65576, which is empty: the earlier contents did not survive. *)
Theorem tiny_table_loses_value :
  exists s1 s2 s3,
    lookups 4 (fresh_table 1 65536) [(4096, 4097)] = Ok ([65552], s1) /\
    load (mem s1) 65552 = 4097 /\
    lookups 4 s1 [(4112, 4113)] = Ok ([65544], s2) /\
    load (mem s2) 65552 = 0 /\
    LookupPointer 4 s2 4096 = Ok (65576, s3) /\
    load (mem s3) 65576 = 0.
Proof.
  eexists _, _, _. evaluate.
Qed.

(** C2, at the failing input.  In a table created with one bucket, looking
    the key 4096 up, then 4112, then 4096 again returns two different slots
    for 4096 (65552 and 65576) and counts three records. *)
Theorem tiny_table_duplicates :
  exists s,
    lookups 4 (fresh_table 1 65536) [(4096, 4097); (4112, 4113); (4096, 4098)]
    = Ok ([65552; 65544; 65576], s) /\
    NumTotalRecords s = 3.
Proof.
  eexists. evaluate.
Qed.

(** C6, at the failing input.  After 4096 and 4112 have been inserted into a
    table created with one bucket, bucket 1 of the 4 buckets heads the node
    at 65544, whose key member holds 4113, and 4113 hashes to bucket 0. *)
Theorem tiny_table_wrong_bucket :
  exists slots s,
    lookups 4 (fresh_table 1 65536) [(4096, 4097); (4112, 4113)] = Ok (slots, s) /\
    HashTableSize s = 4 /\
    load (mem s) (bucket_addr (HashTable s) 1) = 65544 /\
    node_key (mem s) 65544 = 4113 /\
    HashPointer 4113 mod 4 = 0.
Proof.
  eexists _, _. evaluate.
Qed.

(** C8, at the failing input.  In a table created with two buckets, the
    sixth of these lookups inserts 4104, grows the table, does not find
    4104 in the grown table and reaches [assert(false)]. *)
Theorem tiny_table_assert :
  exists slots s,
    lookups 8 (fresh_table 2 65536)
      [(4096, 4097); (4112, 4113); (4128, 4129); (4096, 4097); (4112, 4113)]
    = Ok (slots, s) /\
    LookupPointer 8 s 4104 = AssertFailed.
Proof.
  eexists _, _. evaluate.
Qed.


(** * C4 and C7: the two scenarios, run *)

(** C4 as stated fails: seven keys in seven different buckets of a fresh
    table of 8 buckets leave a table of 16 buckets (one resize, at the
    seventh insertion) with 7 used slots and a longest-chain statistic
    of 0. *)
Lemma seven_keys_counterexample :
  let keys := [4096; 4104; 4112; 4120; 4128; 4144; 4184] in
  NoDup ((fun k => HashPointer k mod 8) <$> keys) /\
  exists slots s,
    lookups 2 (fresh_table 8 65536) ((fun k => (k, k + 1)) <$> keys)
    = Ok (slots, s) /\
    counters s = (16, 7, 0, 7).
Proof.
  cbv zeta. split.
  - apply (bool_decide_unpack _). vm_compute. reflexivity.
  - eexists _, _. evaluate.
Qed.

(** C7 as stated fails: twelve keys whose hashes agree in the low 10 bits
    (so that they share a bucket at every table length from 8 to 1024).
    The table first grows at the sixth insertion, when the longest-chain
    statistic is 5, and again at every later insertion: seven resizes. *)
Lemma twelve_keys_counterexample :
  let keys := [3000; 24392; 46440; 100800; 108608; 122456; 155600; 170288;
               195560; 319432; 397400; 432312] in
  Forall (fun k => HashPointer k mod 1024 = 510) keys /\
  exists slots5 s5 slots6 s6 slots12 s12,
    lookups 16 (fresh_table 8 65536) ((fun k => (k, k + 1)) <$> take 5 keys)
    = Ok (slots5, s5) /\ counters s5 = (8, 1, 4, 5) /\
    lookups 16 (fresh_table 8 65536) ((fun k => (k, k + 1)) <$> take 6 keys)
    = Ok (slots6, s6) /\ counters s6 = (16, 1, 5, 6) /\
    lookups 16 (fresh_table 8 65536) ((fun k => (k, k + 1)) <$> keys)
    = Ok (slots12, s12) /\ counters s12 = (1024, 1, 11, 12).
Proof.
  cbv zeta. split.
  - apply (bool_decide_unpack _). vm_compute. reflexivity.
  - eexists _, _, _, _, _, _. evaluate.
Qed.

(** * The two outcomes of an insertion *)

Section Insertion.

Context (s : CHash) (B : list (list Z)) (fuel : nat).
Hypothesis HI : Inv s B.
Hypothesis HF : fits s.
Hypothesis Hfuel : (length (mjoin B) < fuel)%nat.

(** the state [s1] in which the resize test is made, and what
    [LookupPointer] returns according to the test *)
Lemma LookupPointer_insert (k : Z) (l : list Z) :
  B !! Z.to_nat (HashPointer k mod HashTableSize s) = Some l ->
  k ∉ (node_key (mem s) <$> mjoin B) ->
  exists n s1 B1,
    B1 = alter (snoc n) (Z.to_nat (HashPointer k mod HashTableSize s)) B /\
    Inv s1 B1 /\ mjoin B1 ≡ₚ n :: mjoin B /\ (n ∉ mjoin B) /\
    node_key (mem s1) n = k /\ node_value (mem s1) n = 0 /\
    (forall b, b ∈ mjoin B ->
       node_key (mem s1) b = node_key (mem s) b /\
       node_value (mem s1) b = node_value (mem s) b) /\
    HashTableSize s1 = HashTableSize s /\
    NumUsedSlots s1 = NumUsedSlots s + (if decide (l = []) then 1 else 0) /\
    NumTotalRecords s1 = NumTotalRecords s + 1 /\
    MaxListLength s1 = Z.max (MaxListLength s) (Z.of_nat (length l)) /\
    brk s <= brk s1 <= brk s + 31 /\
    (needs_resize s1 = false -> LookupPointer fuel s k = Ok (n + off_value, s1)) /\
    (needs_resize s1 = true ->
     exists s2 B2,
       LookupPointer fuel s k = Ok (n + off_value, s2) /\
       Inv s2 B2 /\ mjoin B2 ≡ₚ mjoin B1 /\
       (forall b, b ∈ mjoin B1 ->
          node_key (mem s2) b = node_key (mem s1) b /\
          node_value (mem s2) b = node_value (mem s1) b) /\
       HashTableSize s2 = 2 * HashTableSize s /\
       brk s1 <= brk s2 <= brk s1 + 7 + 2 * table_bytes s).
Proof.
  intros Hl Hk. pose proof (fits_in_range _ HF) as HR.
  destruct (slot_of_ok s B HI HR k) as [Hs Hh].
  pose proof (probe_missing s B HI HR fuel k l ltac:(lia) Hl Hk) as Ep.
  set (mx := Z.max (MaxListLength s) (Z.of_nat (length l))) in *.
  set (sm := set_stats s (NumUsedSlots s) mx (NumTotalRecords s)).
  assert (HIm : Inv sm B).
  { apply Inv_set_max; [done|]. pose proof (inv_max _ _ HI). lia. }
  assert (HRm : in_range sm) by exact HR.
  destruct (link_new_inv sm B k l HIm HRm Hl Hk)
    as (n & s1 & E1 & HI1 & Hnin & Hkn & Hvn & Hold & Esz & Etb & Emx & Eu & Et & Eb).
  assert (Hperm1 := join_snoc B _ l n Hl).
  change (HashTableSize sm) with (HashTableSize s) in *.
  change (NumTotalRecords sm) with (NumTotalRecords s) in *.
  change (NumUsedSlots sm) with (NumUsedSlots s) in *.
  change (MaxListLength sm) with mx in *.
  change (brk sm) with (brk s) in *. change (mem sm) with (mem s) in *.
  set (B1 := alter (snoc n) (Z.to_nat (HashPointer k mod HashTableSize s)) B) in *.
  assert (EL : LookupPointer fuel s k =
               if needs_resize s1
               then s2 <- IncreaseHashTableSize fuel s1 ;; relookup fuel s2 k
               else Ok (n + off_value, s1)).
  { unfold LookupPointer. rewrite Hs. cbn [bind]. rewrite Ep. cbn [bind].
    fold sm. rewrite E1. cbn [bind]. done. }
  exists n, s1, B1. split_and!; try done; try lia.
  - intros En. by rewrite EL, En.
  - intros En.
    assert (HR1 : in_range s1).
    { destruct HF as (F1 & F2 & F3). unfold in_range.
      change (2 ^ 32) with 4294967296 in *.
      change (2 ^ 63) with 9223372036854775808 in *. lia. }
    assert (Hf1 : (length (mjoin B1) <= fuel)%nat).
    { rewrite Hperm1. simpl. lia. }
    destruct (IncreaseHashTableSize_spec s1 _ HI1 HR1 fuel Hf1)
      as (s2 & B2 & E2 & HI2 & Hperm2 & Hsame2 & Esz2 & Eb2).
    assert (Hn1 : n ∈ mjoin B1) by (rewrite Hperm1; by left).
    assert (Hn2 : n ∈ mjoin B2) by (by rewrite Hperm2).
    assert (HR2 : HashTableSize s2 < 2 ^ 32).
    { destruct HR1 as (R1 & _). change (2 ^ 30) with 1073741824 in R1.
      change (2 ^ 32) with 4294967296. lia. }
    assert (Ek2 : node_key (mem s2) n = k).
    { destruct (Hsame2 n Hn1) as [-> _]. done. }
    exists s2, B2. split_and!; try done.
    + rewrite EL, En, E2. cbn [bind].
      rewrite <- Ek2. apply (relookup_found fuel s2 B2); try done.
      by rewrite Hperm2.
    + lia.
    + lia.
    + unfold table_bytes in *. rewrite Esz in Eb2. lia.
Qed.

End Insertion.

(** * A concrete well-formed table *)

Lemma fresh_table_fits : fits (fresh_table 8 65536).
Proof. unfold fits. vm_compute. split_and!; reflexivity. Qed.

Lemma sample_table_Inv : Inv sample_table sample_chains.
Proof.
  pose proof (Inv_fresh_table 8 65536 ltac:(vm_compute; split; [discriminate|reflexivity])
                ltac:(reflexivity)) as HI.
  destruct (LookupPointer_insert (fresh_table 8 65536) _ 4 HI fresh_table_fits
              ltac:(vm_compute; lia) 4096 [] ltac:(vm_compute; reflexivity)
              ltac:(vm_compute; apply not_elem_of_nil))
    as (n & s1 & B1 & EB & HI1 & _ & _ & _ & _ & _ & Esz & _ & _ & _ & _ & Hno & Hyes).
  assert (EL : LookupPointer 4 (fresh_table 8 65536) 4096
               = Ok (65608, set_mem sample_table
                              (store (mem sample_table) 65608 0)))
    by (vm_compute; reflexivity).
  destruct (needs_resize s1) eqn:En.
  - destruct (Hyes eq_refl) as (s2 & B2 & E2 & _ & _ & _ & Esz2 & _).
    rewrite EL in E2. injection E2 as _ <-. vm_compute in Esz2. discriminate.
  - specialize (Hno eq_refl). rewrite EL in Hno. injection Hno as En' <-.
    assert (n = 65600) by (unfold off_value in En'; lia). subst n.
    assert (EB' : B1 = sample_chains) by (rewrite EB; vm_compute; reflexivity).
    rewrite EB' in HI1.
    assert (Hin : 65600 ∈ mjoin sample_chains) by (vm_compute; left).
    destruct (Inv_populate _ _ 65600 4097 HI1 Hin) as [HI2 _].
    assert (E : populate (set_mem sample_table (store (mem sample_table) 65608 0))
                  (65600 + off_value) 4097 = sample_table)
      by (vm_compute; reflexivity).
    by rewrite E in HI2.
Qed.

Lemma unpopulated_table_Inv : Inv unpopulated_table sample_chains.
Proof.
  pose proof (Inv_fresh_table 8 65536 ltac:(vm_compute; split; [discriminate|reflexivity])
                ltac:(reflexivity)) as HI.
  destruct (LookupPointer_insert (fresh_table 8 65536) _ 4 HI fresh_table_fits
              ltac:(vm_compute; lia) 4096 [] ltac:(vm_compute; reflexivity)
              ltac:(vm_compute; apply not_elem_of_nil))
    as (n & s1 & B1 & EB & HI1 & _ & _ & _ & _ & _ & Esz & _ & _ & _ & _ & Hno & Hyes).
  assert (EL : LookupPointer 4 (fresh_table 8 65536) 4096
               = Ok (65608, unpopulated_table))
    by (vm_compute; reflexivity).
  destruct (needs_resize s1) eqn:En.
  - destruct (Hyes eq_refl) as (s2 & B2 & E2 & _ & _ & _ & Esz2 & _).
    rewrite EL in E2.
    pose proof (f_equal (fun r => match r with Ok (_, s) => HashTableSize s | _ => 0 end) E2)
      as E3.
    cbv beta iota in E3. rewrite <- E3 in Esz2. vm_compute in Esz2. discriminate Esz2.
  - specialize (Hno eq_refl). rewrite EL in Hno.
    pose proof (f_equal (fun r => match r with Ok (_, s) => s | _ => s1 end) Hno) as E3.
    cbv beta iota in E3.
    pose proof (f_equal (fun r => match r with Ok (a, _) => a | _ => 0 end) Hno) as E4.
    cbv beta iota in E4. assert (n = 65600) by (unfold off_value in E4; lia). subst n.
    assert (EB' : B1 = sample_chains) by (rewrite EB; vm_compute; reflexivity).
    by rewrite E3, <- EB'.
Qed.

(** * Further properties of the operations *)

Lemma used_le_total (B : list (list Z)) :
  (length (filter (fun l => l <> []) B) <= length (mjoin B))%nat.
Proof.
  induction B as [|l B IH]; [done|].
  rewrite filter_cons. change (mjoin (l :: B)) with (l ++ mjoin B).
  rewrite length_app.
  destruct (decide (l <> [])) as [Hl|Hl]; [|lia].
  destruct l; [done|]. simpl. lia.
Qed.

Lemma f32_of_int_pos (u : Z) :
  0 < u -> exists m e, f32_of_int u = Fin m e /\ 0 < m.
Proof.
  intros Hu. unfold f32_of_int. rewrite f32_round_pos by done.
  eexists _, _. split; [reflexivity|].
  pose proof (f32_exp_spec u 1 Hu ltac:(lia)) as [S1 _]. simpl in S1.
  assert (0 < scale_den 1 (f32_exp u 1)).
  { unfold scale_den. rewrite Z.mul_1_l. apply Z.pow_pos_nonneg; lia. }
  assert (2 ^ 23 <= rne (scale_num u (f32_exp u 1)) (scale_den 1 (f32_exp u 1))).
  { apply rne_lower; [done|]. done. }
  change (2 ^ 23) with 8388608 in *. lia.
Qed.

Lemma f32_div_finite (t u : Z) :
  0 <= t -> 0 < u ->
  exists m e, f32_div (f32_of_int t) (f32_of_int u) = Fin m e.
Proof.
  intros Ht Hu. destruct (f32_of_int_pos u Hu) as (m2 & e2 & -> & Hm2).
  assert (exists m1 e1, f32_of_int t = Fin m1 e1) as (m1 & e1 & ->).
  { destruct (Z.eq_dec t 0) as [->|]; [by eexists _, _|].
    destruct (f32_of_int_pos t ltac:(lia)) as (m & e & -> & _). by eexists _, _. }
  unfold f32_div. destruct (Z.eqb_spec m2 0); [lia|].
  unfold f32_round. destruct (_ =? 0); by eexists _, _.
Qed.

Lemma new_node_table (s s1 : CHash) (n : Z) :
  new_node s = Ok (n, s1) ->
  HashTable s1 = HashTable s /\ HashAllocator s1 = HashAllocator s.
Proof.
  unfold new_node, alloc, AllocateFromOldHashTable, AllocateBytes.
  destruct (negb (OldHashTable s =? 0)).
  - destruct (sizeof_Hash_t <=? _); intros [= <- <-]; done.
  - destruct (HashAllocator s =? 0); [done|]. intros [= <- <-]. done.
Qed.

Lemma link_new_table (s s1 : CHash) (k h prev n : Z) :
  link_new s k h prev = Ok (n, s1) ->
  HashTable s1 = HashTable s /\ HashAllocator s1 = HashAllocator s.
Proof.
  unfold link_new. intros ([n0 s0] & E & H)%bind_Ok.
  apply new_node_table in E as (E1 & E2).
  destruct (prev =? 0); injection H as <- <-; proj; done.
Qed.

Lemma migrate_node_old (fuel : nat) (s s' : CHash) (p p' : Z) :
  migrate_node fuel s p = Ok (p', s') ->
  OldHashTable s' = OldHashTable s /\
  OldHashTableFreeRemaining s' = OldHashTableFreeRemaining s /\
  HashTable s' = HashTable s /\ brk s' = brk s.
Proof.
  unfold migrate_node. intros (h & _ & H)%bind_Ok.
  apply bind_Ok in H as ([prev mx] & _ & H).
  destruct (prev =? 0); injection H as <- <-; done.
Qed.

Lemma migrate_chain_old (fuel n : nat) (s s' : CHash) (p : Z) :
  migrate_chain fuel n s p = Ok s' ->
  OldHashTable s' = OldHashTable s /\
  OldHashTableFreeRemaining s' = OldHashTableFreeRemaining s /\
  HashTable s' = HashTable s /\ brk s' = brk s.
Proof.
  revert s p. induction n as [|n IH]; intros s p; cbn [migrate_chain].
  - destruct (p =? 0); [by intros [= <-]|done].
  - destruct (p =? 0); [by intros [= <-]|].
    intros ([p1 s1] & E & H)%bind_Ok.
    apply migrate_node_old in E as (? & ? & ? & ?).
    apply IH in H as (? & ? & ? & ?). split_and!; congruence.
Qed.

Lemma migrate_buckets_old (fuel n : nat) (i : Z) (s s' : CHash) :
  migrate_buckets fuel n i s = Ok s' ->
  OldHashTable s' = OldHashTable s /\
  OldHashTableFreeRemaining s' = OldHashTableFreeRemaining s /\
  HashTable s' = HashTable s /\ brk s' = brk s.
Proof.
  revert i s. induction n as [|n IH]; intros i s; cbn [migrate_buckets].
  - by intros [= <-].
  - intros (s1 & E & H)%bind_Ok.
    apply migrate_chain_old in E as (? & ? & ? & ?).
    apply IH in H as (? & ? & ? & ?). split_and!; congruence.
Qed.

(** a resize leaves the recycling cursor on the array it replaced *)
Lemma IncreaseHashTableSize_cursor (fuel : nat) (s s' : CHash) :
  IncreaseHashTableSize fuel s = Ok s' ->
  OldHashTable s' = HashTable s /\
  OldHashTableFreeRemaining s' = u64 (HashTableSize s * sizeof_ptr).
Proof.
  unfold IncreaseHashTableSize, alloc. proj.
  destruct (HashAllocator s =? 0); [done|]. cbn [bind]. unfold AllocateBytes.
  intros H. apply migrate_buckets_old in H as (H1 & H2 & _). proj_in_one H1.
  proj_in_one H2. done.
Qed.

Lemma room_fits (n : Z) (s : CHash) : 0 <= n -> 0 < HashTableSize s -> room n s -> fits s.
Proof.
  intros Hn Hs (R1 & R2 & R3). unfold fits.
  assert (1 <= 2 ^ n) by (change 1 with (2 ^ 0); apply Z.pow_le_mono_r; lia).
  change (2 ^ 35) with 34359738368 in *.
  split_and!; [nia|lia|nia].
Qed.

(** * The constructor *)

(** X1. A table constructed in zero-filled storage with at least three
    buckets (and fewer than 2^30) is well formed and empty: every bucket
    heads the empty chain, the three counters are zero, the recycling
    cursor is cleared and the arena has handed out exactly the bucket
    array. *)
Theorem constructed_table (n b : Z) :
  3 <= n < 2 ^ 30 -> 0 < b ->
  Inv (fresh_table n b) (replicate (Z.to_nat n) []) /\
  counters (fresh_table n b) = (n, 0, 0, 0) /\
  OldHashTable (fresh_table n b) = 0 /\
  HashTable (fresh_table n b) = align_up b 8 /\
  brk (fresh_table n b) = align_up b 8 + sizeof_ptr * n.
Proof.
  intros Hn Hb. split; [by apply Inv_fresh_table|].
  unfold fresh_table, construct.
  destruct (Z.eqb_spec n 0); [lia|]. change (1 =? 0) with false.
  cbn [negb andb]. unfold AllocateBytes, counters. proj.
  rewrite u64_small.
  - unfold sizeof_ptr. split_and!; try done. lia.
  - unfold sizeof_ptr. change (2 ^ 30) with 1073741824 in Hn.
    change (2 ^ 64) with 18446744073709551616. lia.
Qed.

Lemma constructed_table_witness :
  Inv (fresh_table 8 65536) (replicate 8 []) /\
  counters (fresh_table 8 65536) = (8, 0, 0, 0) /\
  OldHashTable (fresh_table 8 65536) = 0 /\
  HashTable (fresh_table 8 65536) = align_up 65536 8 /\
  brk (fresh_table 8 65536) = align_up 65536 8 + sizeof_ptr * 8.
Proof.
  apply (constructed_table 8 65536).
  - vm_compute. split; [discriminate|reflexivity].
  - reflexivity.
Defined.

(** X2. A table constructed with size 0 has no bucket array, and every
    lookup in it faults in [hash % HashTableSize], whatever the key. *)
Theorem zero_size_lookup_faults
    (a old rem : Z) (m : gmap Z Z) (b k : Z) (fuel : nat) :
  HashTable (construct a 0 old rem m b) = 0 /\
  LookupPointer fuel (construct a 0 old rem m b) k = Fault.
Proof.
  unfold construct. change (0 =? 0) with true.
  rewrite andb_false_r. split; reflexivity.
Qed.

(** X3. For a size that fits the unsigned type, the bucket index computed
    for a key is a 32-bit hash reduced below the size, so [HashTable[hash]]
    is an entry of the bucket array. *)
Theorem bucket_index_in_range (s : CHash) (k : Z) :
  0 < HashTableSize s < 2 ^ 32 ->
  0 <= HashPointer k < 2 ^ 32 /\
  slot_of s k = Ok (HashPointer k mod HashTableSize s) /\
  0 <= HashPointer k mod HashTableSize s < HashTableSize s /\
  HashTable s <= bucket_addr (HashTable s) (HashPointer k mod HashTableSize s)
    <= HashTable s + table_bytes s - sizeof_ptr.
Proof.
  intros Hs. destruct (slot_of_small s k Hs) as [E Hh].
  split_and!; try done; try lia.
  - unfold HashPointer, u32. apply Z.mod_pos_bound. done.
  - unfold HashPointer, u32. apply Z.mod_pos_bound. done.
  - sz. lia.
  - sz. lia.
Qed.

Lemma bucket_index_in_range_witness :
  0 <= HashPointer 4096 < 2 ^ 32 /\
  slot_of sample_table 4096 = Ok (HashPointer 4096 mod HashTableSize sample_table) /\
  0 <= HashPointer 4096 mod HashTableSize sample_table < HashTableSize sample_table /\
  HashTable sample_table
    <= bucket_addr (HashTable sample_table)
         (HashPointer 4096 mod HashTableSize sample_table)
    <= HashTable sample_table + table_bytes sample_table - sizeof_ptr.
Proof.
  apply (bucket_index_in_range sample_table 4096).
  vm_compute. split; reflexivity.
Defined.

(** * The recycling cursor *)

(** X4. When fewer than 24 bytes are left behind a pointer-aligned cursor,
    [AllocateFromOldHashTable] still hands out the cursor position (a node
    needs 24 bytes), and it does not clear the cursor: the unsigned
    subtraction wraps around, the new remaining count is
    [2^64 - 24 + rem], which passes the test, and the cursor advances past
    the end of the old bucket array. *)
Theorem cursor_wraps (s : CHash) :
  0 < OldHashTable s -> OldHashTable s mod 8 = 0 ->
  OldHashTable s + 31 < 2 ^ 64 ->
  0 <= OldHashTableFreeRemaining s < sizeof_Hash_t ->
  AllocateFromOldHashTable s =
    (OldHashTable s,
     set_old s (OldHashTable s + sizeof_Hash_t)
       (2 ^ 64 - sizeof_Hash_t + OldHashTableFreeRemaining s)).
Proof.
  intros Hpos Hal Hb Hrem.
  unfold AllocateFromOldHashTable. unfold sizeof_Hash_t, sizeof_ptr in *.
  change (2 ^ 64) with 18446744073709551616 in *.
  assert (E1 : u64 (OldHashTable s + 24 + 8 - 1) = OldHashTable s + 31).
  { unfold u64. rewrite Z.mod_small; [lia|].
    change (2 ^ 64) with 18446744073709551616. lia. }
  assert (E2 : (OldHashTable s + 31) / 8 * 8 = OldHashTable s + 24).
  { pose proof (Z.div_mod (OldHashTable s) 8 ltac:(lia)) as D.
    rewrite Hal, Z.add_0_r in D.
    replace (OldHashTable s + 31) with (7 + (OldHashTable s / 8 + 3) * 8) by lia.
    rewrite Z.div_add by lia. change (7 / 8) with 0. lia. }
  rewrite E1, E2.
  replace (OldHashTable s + 24 - OldHashTable s) with 24 by lia.
  change (u64 24) with 24.
  assert (E3 : u64 (OldHashTableFreeRemaining s - 24)
               = 18446744073709551616 - 24 + OldHashTableFreeRemaining s).
  { unfold u64. change (2 ^ 64) with 18446744073709551616.
    symmetry. apply (Z.mod_unique _ _ (-1)); lia. }
  rewrite E3.
  destruct (Z.leb_spec 24 (18446744073709551616 - 24 + OldHashTableFreeRemaining s));
    [done|lia].
Qed.

Lemma cursor_wraps_witness :
  let s := mkCHash 1 4 65584 65568 16 2 0 2 ∅ 65616 in
  AllocateFromOldHashTable s =
    (65568, set_old s (65568 + sizeof_Hash_t) (2 ^ 64 - sizeof_Hash_t + 16)).
Proof.
  apply (cursor_wraps (mkCHash 1 4 65584 65568 16 2 0 2 ∅ 65616));
    [reflexivity|reflexivity|reflexivity|vm_compute; split; [discriminate|reflexivity]].
Defined.

(** X5. In a well-formed table the storage [new_node] hands out is new: it
    lies below the arena's frontier and meets neither the bucket array nor
    any node of the table, the memory and the counters are untouched, and
    the cursor that remains is again valid for the table with the new
    node. *)
Theorem new_node_storage (s : CHash) (B : list (list Z)) :
  Inv s B -> in_range s ->
  exists n s', new_node s = Ok (n, s') /\ fresh_node s B n s'.
Proof. apply new_node_fresh. Qed.

Lemma new_node_storage_witness :
  exists n s', new_node sample_table = Ok (n, s') /\
               fresh_node sample_table sample_chains n s'.
Proof.
  apply (new_node_storage sample_table sample_chains sample_table_Inv).
  unfold in_range. vm_compute. split_and!; reflexivity.
Defined.

(** * The counters *)

(** X6. In a well-formed table the used-slot count is the number of
    non-empty buckets and the record count the number of nodes; the used
    slots are at most the buckets and at most the records, and when there is
    a record there is a used slot, so that the probe average
    [(float)NumTotalRecords / (float)NumUsedSlots] is a finite number. *)
Theorem counters_consistent (s : CHash) (B : list (list Z)) :
  Inv s B ->
  NumUsedSlots s = Z.of_nat (length (filter (fun l => l <> []) B)) /\
  NumTotalRecords s = Z.of_nat (length (mjoin B)) /\
  0 <= NumUsedSlots s <= HashTableSize s /\
  NumUsedSlots s <= NumTotalRecords s /\
  (0 < NumTotalRecords s ->
   1 <= NumUsedSlots s /\
   exists m e, f32_div (f32_of_int (NumTotalRecords s))
                 (f32_of_int (NumUsedSlots s)) = Fin m e).
Proof.
  intros HI. destruct (inv_size _ _ HI) as [_ Hlen].
  pose proof (inv_used _ _ HI) as Hu. pose proof (inv_total _ _ HI) as Ht.
  pose proof (used_le_total B).
  assert (length (filter (fun l => l <> []) B) <= length B)%nat by apply length_filter.
  split_and!; try done; try lia.
  intros Hpos. pose proof (used_pos s B HI Hpos). split; [done|].
  apply f32_div_finite; lia.
Qed.

Lemma counters_consistent_witness :
  NumUsedSlots sample_table
    = Z.of_nat (length (filter (fun l => l <> []) sample_chains)) /\
  NumTotalRecords sample_table = Z.of_nat (length (mjoin sample_chains)) /\
  0 <= NumUsedSlots sample_table <= HashTableSize sample_table /\
  NumUsedSlots sample_table <= NumTotalRecords sample_table /\
  (0 < NumTotalRecords sample_table ->
   1 <= NumUsedSlots sample_table /\
   exists m e, f32_div (f32_of_int (NumTotalRecords sample_table))
                 (f32_of_int (NumUsedSlots sample_table)) = Fin m e).
Proof. exact (counters_consistent sample_table sample_chains sample_table_Inv). Defined.

(** * Lookups in a well-formed table *)

(** what an insertion yields, whether or not the table grows *)
Lemma insert_outcome (s : CHash) (B : list (list Z)) (fuel : nat) (k : Z) :
  Inv s B -> fits s -> (length (mjoin B) < fuel)%nat ->
  k ∉ (node_key (mem s) <$> mjoin B) ->
  exists n s' B',
    LookupPointer fuel s k = Ok (n + off_value, s') /\ Inv s' B' /\
    mjoin B' ≡ₚ n :: mjoin B /\ (n ∉ mjoin B) /\
    node_key (mem s') n = k /\ node_value (mem s') n = 0 /\
    (forall b, b ∈ mjoin B ->
       node_key (mem s') b = node_key (mem s) b /\
       node_value (mem s') b = node_value (mem s) b) /\
    NumTotalRecords s' = NumTotalRecords s + 1 /\
    (HashTableSize s' = HashTableSize s \/ HashTableSize s' = 2 * HashTableSize s) /\
    brk s <= brk s' <= brk s + 38 + 2 * table_bytes s.
Proof.
  intros HI HF Hf Hk.
  destruct (bucket_of_key s B HI (fits_in_range _ HF) k) as [l Hl].
  destruct (LookupPointer_insert s B fuel HI HF Hf k l Hl Hk)
    as (n & s1 & B1 & EB & HI1 & Hperm1 & Hnin & Hkn & Hvn & Hold & Esz & Eu & Et
        & Emx & Eb & Hno & Hyes).
  destruct (inv_size _ _ HI) as [Hsz _].
  destruct (needs_resize s1) eqn:En.
  - destruct (Hyes eq_refl) as (s2 & B2 & E2 & HI2 & Hperm2 & Hsame & Esz2 & Eb2).
    assert (Hn1 : n ∈ mjoin B1) by (rewrite Hperm1; by left).
    exists n, s2, B2. split_and!; try done.
    + by rewrite Hperm2.
    + by destruct (Hsame n Hn1) as [-> _].
    + by destruct (Hsame n Hn1) as [_ ->].
    + intros b Hb. assert (Hb1 : b ∈ mjoin B1) by (rewrite Hperm1; by right).
      destruct (Hsame b Hb1) as [-> ->]. by apply Hold.
    + rewrite (inv_total _ _ HI2), Hperm2, <- (inv_total _ _ HI1). done.
    + by right.
    + lia.
    + unfold table_bytes in *. sz. lia.
  - exists n, s1, B1. split_and!; try done.
    + by apply Hno.
    + by left.
    + lia.
    + unfold table_bytes. sz. lia.
Qed.

(** X7. Looking up a key that a node of a well-formed table holds returns
    the address of that node's value member; nothing is allocated, the
    memory, the bucket array and the two record counters are as before
    (only the longest-chain statistic may have risen), and a repeated
    lookup returns the same address. *)
Theorem lookup_present (s : CHash) (B : list (list Z)) (fuel : nat) (a : Z) :
  Inv s B -> fits s -> (length (mjoin B) < fuel)%nat -> a ∈ mjoin B ->
  exists mx mx',
    MaxListLength s <= mx /\
    LookupPointer fuel s (node_key (mem s) a)
    = Ok (a + off_value, set_stats s (NumUsedSlots s) mx (NumTotalRecords s)) /\
    LookupPointer fuel (set_stats s (NumUsedSlots s) mx (NumTotalRecords s))
      (node_key (mem s) a)
    = Ok (a + off_value, set_stats s (NumUsedSlots s) mx' (NumTotalRecords s)).
Proof.
  intros HI HF Hf Ha.
  destruct (LookupPointer_hit s B fuel HI HF Hf a Ha) as (mx & Hmx & E).
  set (s1 := set_stats s (NumUsedSlots s) mx (NumTotalRecords s)).
  assert (HI1 : Inv s1 B).
  { apply Inv_set_max; [done|]. pose proof (inv_max _ _ HI). lia. }
  destruct (LookupPointer_hit s1 B fuel HI1 HF Hf a Ha) as (mx' & _ & E').
  exists mx, mx'. split_and!; done.
Qed.

Lemma lookup_present_witness :
  exists mx mx',
    MaxListLength sample_table <= mx /\
    LookupPointer 4 sample_table (node_key (mem sample_table) 65600)
    = Ok (65600 + off_value,
          set_stats sample_table (NumUsedSlots sample_table) mx
            (NumTotalRecords sample_table)) /\
    LookupPointer 4
      (set_stats sample_table (NumUsedSlots sample_table) mx
         (NumTotalRecords sample_table))
      (node_key (mem sample_table) 65600)
    = Ok (65600 + off_value,
          set_stats sample_table (NumUsedSlots sample_table) mx'
            (NumTotalRecords sample_table)).
Proof.
  apply (lookup_present sample_table sample_chains 4 65600 sample_table_Inv).
  - unfold fits. vm_compute. split_and!; reflexivity.
  - vm_compute. lia.
  - vm_compute. left.
Defined.

(** X8. Looking up a key that no node of a well-formed table holds returns
    normally (the assertion after a resize is not reached): exactly one node
    is added, with the key and an empty value member whose address is
    returned; the nodes that were there keep their addresses, keys and
    values; the record counter rises by one; the bucket array keeps its
    length or doubles; and the table is well formed again. *)
Theorem lookup_absent (s : CHash) (B : list (list Z)) (fuel : nat) (k : Z) :
  Inv s B -> fits s -> (length (mjoin B) < fuel)%nat ->
  k ∉ (node_key (mem s) <$> mjoin B) ->
  exists n s' B',
    LookupPointer fuel s k = Ok (n + off_value, s') /\ Inv s' B' /\
    mjoin B' ≡ₚ n :: mjoin B /\ (n ∉ mjoin B) /\
    node_key (mem s') n = k /\ node_value (mem s') n = 0 /\
    (forall b, b ∈ mjoin B ->
       node_key (mem s') b = node_key (mem s) b /\
       node_value (mem s') b = node_value (mem s) b) /\
    NumTotalRecords s' = NumTotalRecords s + 1 /\
    (HashTableSize s' = HashTableSize s \/ HashTableSize s' = 2 * HashTableSize s).
Proof.
  intros HI HF Hf Hk.
  destruct (insert_outcome s B fuel k HI HF Hf Hk)
    as (n & s' & B' & H1 & H2 & H3 & H4 & H5 & H6 & H7 & H8 & H9 & _).
  exists n, s', B'. split_and!; done.
Qed.

Lemma lookup_absent_witness :
  exists n s' B',
    LookupPointer 4 sample_table 4104 = Ok (n + off_value, s') /\ Inv s' B' /\
    mjoin B' ≡ₚ n :: mjoin sample_chains /\ (n ∉ mjoin sample_chains) /\
    node_key (mem s') n = 4104 /\ node_value (mem s') n = 0 /\
    (forall b, b ∈ mjoin sample_chains ->
       node_key (mem s') b = node_key (mem sample_table) b /\
       node_value (mem s') b = node_value (mem sample_table) b) /\
    NumTotalRecords s' = NumTotalRecords sample_table + 1 /\
    (HashTableSize s' = HashTableSize sample_table \/
     HashTableSize s' = 2 * HashTableSize sample_table).
Proof.
  apply (lookup_absent sample_table sample_chains 4 4104 sample_table_Inv).
  - unfold fits. vm_compute. split_and!; reflexivity.
  - vm_compute. lia.
  - vm_compute. intros H. apply elem_of_cons in H as [H|H]; [discriminate|].
    by apply elem_of_nil in H.
Defined.

Lemma migrate_node_alloc (fuel : nat) (s s' : CHash) (p p' : Z) :
  migrate_node fuel s p = Ok (p', s') -> HashAllocator s' = HashAllocator s.
Proof.
  unfold migrate_node. intros (h & _ & H)%bind_Ok.
  apply bind_Ok in H as ([prev mx] & _ & H).
  destruct (prev =? 0); injection H as <- <-; done.
Qed.

Lemma migrate_chain_alloc (fuel n : nat) (s s' : CHash) (p : Z) :
  migrate_chain fuel n s p = Ok s' -> HashAllocator s' = HashAllocator s.
Proof.
  revert s p. induction n as [|n IH]; intros s p; cbn [migrate_chain].
  - destruct (p =? 0); [by intros [= <-]|done].
  - destruct (p =? 0); [by intros [= <-]|].
    intros ([p1 s1] & E & H)%bind_Ok.
    apply migrate_node_alloc in E. apply IH in H. congruence.
Qed.

Lemma migrate_buckets_alloc (fuel n : nat) (i : Z) (s s' : CHash) :
  migrate_buckets fuel n i s = Ok s' -> HashAllocator s' = HashAllocator s.
Proof.
  revert i s. induction n as [|n IH]; intros i s; cbn [migrate_buckets].
  - by intros [= <-].
  - intros (s1 & E & H)%bind_Ok.
    apply migrate_chain_alloc in E. apply IH in H. congruence.
Qed.

Lemma IncreaseHashTableSize_alloc (fuel : nat) (s s' : CHash) :
  IncreaseHashTableSize fuel s = Ok s' -> HashAllocator s' = HashAllocator s.
Proof.
  unfold IncreaseHashTableSize. intros ([tbl s1] & E & H)%bind_Ok.
  apply migrate_buckets_alloc in H. rewrite H. clear H. revert E.
  unfold alloc. proj. destruct (HashAllocator s =? 0); [done|].
  unfold AllocateBytes. by intros [= _ <-].
Qed.

(** an insertion into a table with room for [n + 1] leaves room for [n] *)
Lemma insert_step (s : CHash) (B : list (list Z)) (fuel : nat) (k n : Z) :
  Inv s B -> 0 <= n -> room (n + 1) s -> (length (mjoin B) < fuel)%nat ->
  k ∉ (node_key (mem s) <$> mjoin B) ->
  exists a s' B',
    LookupPointer fuel s k = Ok (a + off_value, s') /\ Inv s' B' /\ room n s' /\
    mjoin B' ≡ₚ a :: mjoin B /\ (a ∉ mjoin B) /\
    node_key (mem s') a = k /\ node_value (mem s') a = 0 /\
    (forall b, b ∈ mjoin B ->
       node_key (mem s') b = node_key (mem s) b /\
       node_value (mem s') b = node_value (mem s) b).
Proof.
  intros HI Hn HR Hf Hk.
  destruct (inv_size _ _ HI) as [Hsz _].
  assert (HF : fits s) by (apply (room_fits (n + 1)); [lia|lia|done]).
  destruct (insert_outcome s B fuel k HI HF Hf Hk)
    as (a & s' & B' & H1 & H2 & H3 & H4 & H5 & H6 & H7 & H8 & H9 & H10).
  exists a, s', B'. split_and!; try done.
  destruct HR as (R1 & R2 & R3). unfold room.
  rewrite Z.pow_add_r in * by lia. change (2 ^ 1) with 2 in *.
  assert (1 <= 2 ^ n) by (change 1 with (2 ^ 0); apply Z.pow_le_mono_r; lia).
  unfold table_bytes in H10. sz.
  change (2 ^ 35) with 34359738368 in *. change (2 ^ 30) with 1073741824 in *.
  split_and!; [destruct H9; nia|lia|nia].
Qed.

(** X9. Round trip of the caller's protocol on a well-formed table: the
    lookup of a new key returns the address of an empty value member; once
    the caller has stored a value there, the next lookup of the key returns
    the same address, where that value is read, without allocating or
    counting another record. *)
Theorem insert_populate_lookup (s : CHash) (B : list (list Z)) (fuel : nat) (k v : Z) :
  Inv s B -> room 1 s -> (length (mjoin B) + 1 < fuel)%nat ->
  k ∉ (node_key (mem s) <$> mjoin B) ->
  exists slot s1 s2,
    LookupPointer fuel s k = Ok (slot, s1) /\ load (mem s1) slot = 0 /\
    LookupPointer fuel (populate s1 slot v) k = Ok (slot, s2) /\
    load (mem s2) slot = v /\
    brk s2 = brk s1 /\ NumTotalRecords s2 = NumTotalRecords s1 /\
    HashTableSize s2 = HashTableSize s1.
Proof.
  intros HI HR Hf Hk.
  destruct (insert_step s B fuel k 0 HI ltac:(lia) HR ltac:(lia) Hk)
    as (a & s1 & B1 & E1 & HI1 & HR1 & Hperm & Hnin & Hka & Hva & Hold).
  assert (Ha : a ∈ mjoin B1) by (rewrite Hperm; by left).
  destruct (Inv_populate s1 B1 a v HI1 Ha) as (HIp & Hkeys & _).
  set (sp := populate s1 (a + off_value) v) in *.
  assert (Hsp : mem sp = store (mem s1) (a + off_value) v /\ brk sp = brk s1 /\
                NumTotalRecords sp = NumTotalRecords s1 /\
                HashTableSize sp = HashTableSize s1 /\
                NumUsedSlots sp = NumUsedSlots s1).
  { unfold sp, populate. unfold node_value in Hva. rewrite Hva. done. }
  destruct Hsp as (Em & Eb & Et & Es & Eu).
  assert (HFp : fits sp).
  { destruct (inv_size _ _ HI1) as [Hsz _].
    pose proof (room_fits 0 s1 ltac:(lia) ltac:(lia) HR1) as (F1 & F2 & F3).
    unfold fits. rewrite Es, Et, Eb. done. }
  assert (Hfp : (length (mjoin B1) < fuel)%nat).
  { rewrite Hperm. cbn [length]. lia. }
  destruct (LookupPointer_hit sp B1 fuel HIp HFp Hfp a Ha) as (mx & _ & E2).
  rewrite (Hkeys a Ha), Hka in E2.
  eexists _, _, _. split_and!; [exact E1|exact Hva|exact E2|..]; proj; try done.
  rewrite Em. apply load_store_eq.
Qed.

Lemma insert_populate_lookup_witness :
  exists slot s1 s2,
    LookupPointer 4 sample_table 4104 = Ok (slot, s1) /\ load (mem s1) slot = 0 /\
    LookupPointer 4 (populate s1 slot 77) 4104 = Ok (slot, s2) /\
    load (mem s2) slot = 77 /\
    brk s2 = brk s1 /\ NumTotalRecords s2 = NumTotalRecords s1 /\
    HashTableSize s2 = HashTableSize s1.
Proof.
  apply (insert_populate_lookup sample_table sample_chains 4 4104 77 sample_table_Inv).
  - unfold room. vm_compute. split_and!; reflexivity.
  - vm_compute. lia.
  - vm_compute. intros H. apply elem_of_cons in H as [H|H]; [discriminate|].
    by apply elem_of_nil in H.
Defined.

(** * Growing a well-formed table *)

(** X10. [IncreaseHashTableSize] on a well-formed table returns a
    well-formed table of twice the length whose nodes are the same
    addresses with the same keys and values; the record counter is the same
    number, the new bucket array lies in storage the allocator had not
    handed out, and the recycling cursor is on the replaced array with its
    full byte length. *)
Theorem grow_preserves (s : CHash) (B : list (list Z)) (fuel : nat) :
  Inv s B -> in_range s -> (length (mjoin B) <= fuel)%nat ->
  exists s' B',
    IncreaseHashTableSize fuel s = Ok s' /\ Inv s' B' /\
    mjoin B' ≡ₚ mjoin B /\
    (forall a, a ∈ mjoin B ->
       node_key (mem s') a = node_key (mem s) a /\
       node_value (mem s') a = node_value (mem s) a) /\
    HashTableSize s' = 2 * HashTableSize s /\
    NumTotalRecords s' = NumTotalRecords s /\
    brk s <= HashTable s' /\
    OldHashTable s' = HashTable s /\
    OldHashTableFreeRemaining s' = table_bytes s.
Proof.
  intros HI HR Hf.
  destruct (IncreaseHashTableSize_spec s B HI HR fuel Hf)
    as (s' & B' & E & HI' & Hperm & Hsame & Hsz & Hb).
  destruct (IncreaseHashTableSize_cursor fuel s s' E) as (Ho & Hr).
  exists s', B'. split_and!; try done.
  - by rewrite (inv_total _ _ HI'), Hperm, <- (inv_total _ _ HI).
  - revert E. unfold IncreaseHashTableSize, alloc. proj.
    destruct (HashAllocator s =? 0); [done|]. cbn [bind]. unfold AllocateBytes.
    intros E. apply migrate_buckets_old in E as (_ & _ & E & _). proj_in_one E.
    rewrite E. change sizeof_ptr with 8. destruct (align_up_8 (brk s)). lia.
  - rewrite Hr. unfold table_bytes. destruct HR as (R1 & _).
    destruct (inv_size _ _ HI) as [Hs _]. rewrite Z.mul_comm.
    apply u64_small. sz. change (2 ^ 30) with 1073741824 in R1.
    change (2 ^ 64) with 18446744073709551616. lia.
Qed.

Lemma grow_preserves_witness :
  exists s' B',
    IncreaseHashTableSize 1 sample_table = Ok s' /\ Inv s' B' /\
    mjoin B' ≡ₚ mjoin sample_chains /\
    (forall a, a ∈ mjoin sample_chains ->
       node_key (mem s') a = node_key (mem sample_table) a /\
       node_value (mem s') a = node_value (mem sample_table) a) /\
    HashTableSize s' = 2 * HashTableSize sample_table /\
    NumTotalRecords s' = NumTotalRecords sample_table /\
    brk sample_table <= HashTable s' /\
    OldHashTable s' = HashTable sample_table /\
    OldHashTableFreeRemaining s' = table_bytes sample_table.
Proof.
  apply (grow_preserves sample_table sample_chains 1 sample_table_Inv).
  - unfold in_range. vm_compute. split_and!; reflexivity.
  - vm_compute. lia.
Defined.

(** X11. After [IncreaseHashTableSize] on a well-formed table, the lookup
    of any key the table held returns the address it returned before the
    resize (the value member of the same node), with the same value there,
    and adds nothing. *)
Theorem lookup_after_grow (s : CHash) (B : list (list Z)) (fuel : nat) (a : Z) :
  Inv s B -> room 1 s -> (length (mjoin B) < fuel)%nat -> a ∈ mjoin B ->
  exists s' s1 s2,
    LookupPointer fuel s (node_key (mem s) a) = Ok (a + off_value, s1) /\
    IncreaseHashTableSize fuel s = Ok s' /\
    LookupPointer fuel s' (node_key (mem s) a) = Ok (a + off_value, s2) /\
    load (mem s2) (a + off_value) = load (mem s) (a + off_value) /\
    NumTotalRecords s2 = NumTotalRecords s /\ brk s2 = brk s'.
Proof.
  intros HI HR Hf Ha.
  destruct (inv_size _ _ HI) as [Hsz _].
  assert (HF : fits s) by (apply (room_fits 1); [lia|lia|done]).
  destruct (LookupPointer_hit s B fuel HI HF Hf a Ha) as (mx & _ & E1).
  destruct (IncreaseHashTableSize_spec s B HI (fits_in_range _ HF) fuel ltac:(lia))
    as (s' & B' & E & HI' & Hperm & Hsame & Hs' & Hb).
  assert (Ha' : a ∈ mjoin B') by (by rewrite Hperm).
  assert (HF' : fits s').
  { destruct HR as (R1 & R2 & R3). unfold fits.
    rewrite (inv_total _ _ HI'), Hperm, <- (inv_total _ _ HI), Hs'.
    unfold table_bytes in Hb. sz.
    change (2 ^ 35) with 34359738368 in *. change (2 ^ 30) with 1073741824 in *.
    change (2 ^ 1) with 2 in *. split_and!; lia. }
  assert (Hf' : (length (mjoin B') < fuel)%nat) by (by rewrite Hperm).
  destruct (LookupPointer_hit s' B' fuel HI' HF' Hf' a Ha') as (mx' & _ & E2).
  destruct (Hsame a Ha) as [Hk Hv]. rewrite Hk in E2.
  eexists _, _, _. split_and!; [exact E1|exact E|exact E2|..]; proj.
  - exact Hv.
  - by rewrite (inv_total _ _ HI'), Hperm, <- (inv_total _ _ HI).
  - done.
Qed.

Lemma lookup_after_grow_witness :
  exists s' s1 s2,
    LookupPointer 4 sample_table (node_key (mem sample_table) 65600)
    = Ok (65600 + off_value, s1) /\
    IncreaseHashTableSize 4 sample_table = Ok s' /\
    LookupPointer 4 s' (node_key (mem sample_table) 65600)
    = Ok (65600 + off_value, s2) /\
    load (mem s2) (65600 + off_value) = load (mem sample_table) (65600 + off_value) /\
    NumTotalRecords s2 = NumTotalRecords sample_table /\ brk s2 = brk s'.
Proof.
  apply (lookup_after_grow sample_table sample_chains 4 65600 sample_table_Inv).
  - unfold room. vm_compute. split_and!; reflexivity.
  - vm_compute. lia.
  - vm_compute. left.
Defined.

(** X12. Whatever the state, a [LookupPointer] that returns keeps the
    allocator and either keeps the bucket array and its length, or has
    replaced the array by one whose length is the old one doubled in the
    32-bit [int] that holds it, with the recycling cursor set to the old
    array: the table is never made smaller and no bucket array is released
    to the allocator. *)
Theorem table_never_shrinks (fuel : nat) (s s' : CHash) (k slot : Z) :
  LookupPointer fuel s k = Ok (slot, s') ->
  HashAllocator s' = HashAllocator s /\
  (HashTableSize s' = HashTableSize s /\ HashTable s' = HashTable s \/
   HashTableSize s' = s32 (HashTableSize s * 2) /\ OldHashTable s' = HashTable s).
Proof.
  unfold LookupPointer. intros (h & Eh & H)%bind_Ok.
  apply bind_Ok in H as ([p mx|prev mx] & Ew & H).
  - injection H as _ <-. split; [done|]. by left.
  - apply bind_Ok in H as ([n s1] & E1 & H).
    pose proof (link_new_counters _ _ _ _ _ _ E1) as (C1 & _).
    pose proof (link_new_table _ _ _ _ _ _ E1) as (T1 & T2).
    proj_in_one C1. proj_in_one T1. proj_in_one T2.
    destruct (needs_resize s1).
    + apply bind_Ok in H as (s2 & E2 & H). apply relookup_state in H. subst s'.
      pose proof (IncreaseHashTableSize_size _ _ _ E2) as Hs.
      pose proof (IncreaseHashTableSize_cursor _ _ _ E2) as (Ho & _).
      pose proof (IncreaseHashTableSize_alloc _ _ _ E2) as Ha.
      split; [congruence|right; split; congruence].
    + injection H as _ <-. split; [done|]. by left.
Qed.

Lemma table_never_shrinks_witness :
  match LookupPointer 4 sample_table 4104 with
  | Ok (slot, s') =>
      HashAllocator s' = HashAllocator sample_table /\
      (HashTableSize s' = HashTableSize sample_table /\
       HashTable s' = HashTable sample_table \/
       HashTableSize s' = s32 (HashTableSize sample_table * 2) /\
       OldHashTable s' = HashTable sample_table)
  | _ => False
  end.
Proof.
  destruct (LookupPointer 4 sample_table 4104) as [[slot s']| | |] eqn:E;
    [|vm_compute in E; discriminate ..].
  exact (table_never_shrinks 4 sample_table s' 4104 slot E).
Defined.

(** * The caller's store *)

(** X13. The layout keeps the caller's store apart from the index: a
    store of any record pointer through the address that [LookupPointer]
    returns for a node (the node's value member) leaves the table well
    formed with the same chains and changes no key and no other node's
    value; the next lookup of the node's key returns the same address,
    where the stored pointer is read. *)
Theorem caller_store_keeps_table (s : CHash) (B : list (list Z)) (fuel : nat)
    (a v : Z) :
  Inv s B -> fits s -> (length (mjoin B) < fuel)%nat -> a ∈ mjoin B ->
  let s' := set_mem s (store (mem s) (a + off_value) v) in
  Inv s' B /\
  (forall b, b ∈ mjoin B -> node_key (mem s') b = node_key (mem s) b) /\
  (forall b, b ∈ mjoin B -> b <> a ->
     node_value (mem s') b = node_value (mem s) b) /\
  exists s'',
    LookupPointer fuel s' (node_key (mem s) a) = Ok (a + off_value, s'') /\
    load (mem s'') (a + off_value) = v.
Proof.
  intros HI HF Hf Ha s'.
  destruct (Inv_store_value s B a v HI Ha) as (HI' & Hkeys & Hvals).
  fold s' in HI'. split_and!; try done.
  destruct (LookupPointer_hit s' B fuel HI' HF Hf a Ha) as (mx & _ & E).
  unfold s' in E at 2. cbn [mem set_mem] in E. rewrite (Hkeys a Ha) in E.
  eexists. split; [exact E|]. cbn [mem set_stats set_mem s']. apply load_store_eq.
Qed.

Lemma caller_store_keeps_table_witness :
  let s' := set_mem unpopulated_table
              (store (mem unpopulated_table) (65600 + off_value) 5) in
  Inv s' sample_chains /\
  (forall b, b ∈ mjoin sample_chains ->
     node_key (mem s') b = node_key (mem unpopulated_table) b) /\
  (forall b, b ∈ mjoin sample_chains -> b <> 65600 ->
     node_value (mem s') b = node_value (mem unpopulated_table) b) /\
  exists s'',
    LookupPointer 4 s' (node_key (mem unpopulated_table) 65600)
    = Ok (65600 + off_value, s'') /\
    load (mem s'') (65600 + off_value) = 5.
Proof.
  apply (caller_store_keeps_table unpopulated_table sample_chains 4 65600 5
           unpopulated_table_Inv).
  - unfold fits. vm_compute. split_and!; reflexivity.
  - vm_compute. lia.
  - vm_compute. left.
Defined.

(** * Draining the recycling cursor *)

Lemma new_nodes_drain (n : nat) : forall (s : CHash),
  0 < OldHashTable s -> OldHashTable s mod 8 = 0 ->
  sizeof_Hash_t * Z.of_nat (S n) <= OldHashTableFreeRemaining s
    < sizeof_Hash_t * Z.of_nat (S (S n)) ->
  OldHashTable s + OldHashTableFreeRemaining s < 2 ^ 63 ->
  new_nodes (S n) s
  = Ok ((fun i => OldHashTable s + sizeof_Hash_t * i) <$> seqZ 0 (Z.of_nat (S n)),
        set_old s 0 0).
Proof.
  induction n as [|n IH]; intros s Hpos Hal Hrem Hb.
  - cbn [new_nodes]. unfold new_node.
    destruct (Z.eqb_spec (OldHashTable s) 0); [lia|]. cbn [negb bind].
    rewrite AllocateFromOldHashTable_fits by (unfold sizeof_Hash_t in *; lia || done).
    destruct (Z.leb_spec (2 * sizeof_Hash_t) (OldHashTableFreeRemaining s));
      [unfold sizeof_Hash_t in *; lia|].
    cbn [bind]. change (seqZ 0 (Z.of_nat 1)) with [0]. cbn [fmap list_fmap].
    by rewrite Z.mul_0_r, Z.add_0_r.
  - remember (S n) as k. cbn [new_nodes]. unfold new_node.
    destruct (Z.eqb_spec (OldHashTable s) 0); [lia|]. cbn [negb bind].
    rewrite AllocateFromOldHashTable_fits by (unfold sizeof_Hash_t in *; lia || done).
    destruct (Z.leb_spec (2 * sizeof_Hash_t) (OldHashTableFreeRemaining s));
      [|unfold sizeof_Hash_t in *; lia].
    set (s1 := set_old s (OldHashTable s + sizeof_Hash_t)
                 (OldHashTableFreeRemaining s - sizeof_Hash_t)).
    subst k. rewrite (IH s1); unfold s1; proj.
    + cbn [bind]. f_equal. f_equal.
      rewrite (seqZ_cons 0 (Z.of_nat (S (S n)))) by lia.
      cbn [fmap list_fmap]. rewrite Z.mul_0_r, Z.add_0_r. f_equal.
      replace (Z.pred (Z.of_nat (S (S n)))) with (Z.of_nat (S n)) by lia.
      change (Z.succ 0) with (1 + 0).
      rewrite <- (fmap_add_seqZ 1 0), <- list_fmap_compose.
      apply list_fmap_ext. intros _ i _. cbn. lia.
    + unfold sizeof_Hash_t. lia.
    + unfold sizeof_Hash_t. rewrite <- Z.add_mod_idemp_l, Hal by lia. done.
    + unfold sizeof_Hash_t in *. lia.
    + lia.
Qed.

(** X14. A pointer-aligned cursor with [rem >= 24] bytes behind it serves
    exactly [rem / 24] node allocations, at the consecutive 24-byte steps
    from the cursor position, all inside the old bucket array and without
    touching the allocator; the last of them clears the cursor, and the
    allocation after that comes from the allocator. *)
Theorem cursor_serves (s : CHash) :
  0 < OldHashTable s -> OldHashTable s mod 8 = 0 ->
  sizeof_Hash_t <= OldHashTableFreeRemaining s ->
  OldHashTable s + OldHashTableFreeRemaining s < 2 ^ 63 ->
  HashAllocator s <> 0 ->
  let n := OldHashTableFreeRemaining s / sizeof_Hash_t in
  new_nodes (Z.to_nat n) s
  = Ok ((fun i => OldHashTable s + sizeof_Hash_t * i) <$> seqZ 0 n, set_old s 0 0) /\
  (forall a, a ∈ ((fun i => OldHashTable s + sizeof_Hash_t * i) <$> seqZ 0 n) ->
     OldHashTable s <= a /\
     a + sizeof_Hash_t <= OldHashTable s + OldHashTableFreeRemaining s) /\
  new_node (set_old s 0 0)
  = Ok (align_up (brk s) sizeof_ptr,
        set_brk (set_old s 0 0) (align_up (brk s) sizeof_ptr + sizeof_Hash_t)).
Proof.
  intros Hpos Hal Hrem Hb Ha n.
  assert (Hn : 1 <= n).
  { unfold n, sizeof_Hash_t in *. apply Z.div_le_lower_bound; lia. }
  pose proof (Z.div_mod (OldHashTableFreeRemaining s) sizeof_Hash_t
                ltac:(unfold sizeof_Hash_t; lia)) as D.
  pose proof (Z.mod_pos_bound (OldHashTableFreeRemaining s) sizeof_Hash_t
                ltac:(unfold sizeof_Hash_t; lia)) as M.
  fold n in D. split_and!.
  - destruct (Z.to_nat n) as [|k] eqn:Ek; [lia|].
    rewrite new_nodes_drain; try done.
    + replace (Z.of_nat (S k)) with n by lia. done.
    + unfold sizeof_Hash_t in *. lia.
  - intros a (i & -> & Hi)%list_elem_of_fmap. apply elem_of_seqZ in Hi.
    unfold sizeof_Hash_t in *. lia.
  - unfold new_node, alloc, AllocateBytes. proj.
    destruct (Z.eqb_spec (HashAllocator s) 0); [done|]. done.
Qed.

Lemma cursor_serves_witness :
  let s := mkCHash 1 16 65664 65536 64 1 0 1 ∅ 65792 in
  let n := OldHashTableFreeRemaining s / sizeof_Hash_t in
  new_nodes (Z.to_nat n) s
  = Ok ((fun i => OldHashTable s + sizeof_Hash_t * i) <$> seqZ 0 n, set_old s 0 0) /\
  (forall a, a ∈ ((fun i => OldHashTable s + sizeof_Hash_t * i) <$> seqZ 0 n) ->
     OldHashTable s <= a /\
     a + sizeof_Hash_t <= OldHashTable s + OldHashTableFreeRemaining s) /\
  new_node (set_old s 0 0)
  = Ok (align_up (brk s) sizeof_ptr,
        set_brk (set_old s 0 0) (align_up (brk s) sizeof_ptr + sizeof_Hash_t)).
Proof.
  apply (cursor_serves (mkCHash 1 16 65664 65536 64 1 0 1 ∅ 65792));
    vm_compute; (reflexivity || discriminate).
Defined.

Lemma AllocateFromOldHashTable_cursor (s : CHash) :
  exists q r, AllocateFromOldHashTable s = (OldHashTable s, set_old s q r).
Proof.
  unfold AllocateFromOldHashTable. destruct (sizeof_Hash_t <=? _); by eexists _, _.
Qed.

(** * The members the constructor leaves alone *)

(** X15. The constructor does not set the recycling cursor.  When the
    storage of the object holds a nonzero [OldHashTable], the first
    insertion into the constructed table does not ask the allocator for its
    node: whatever [OldHashTableFreeRemaining] holds, the node is placed at
    the address found in [OldHashTable] and the address of its value member
    is returned. *)
Theorem first_node_from_stale_cursor (n old rem b k : Z) (fuel : nat) :
  2 <= n <= 5242880 -> old <> 0 ->
  exists s',
    LookupPointer fuel (construct 1 n old rem ∅ b) k = Ok (old + off_value, s') /\
    brk s' = brk (construct 1 n old rem ∅ b) /\
    HashTable s' = HashTable (construct 1 n old rem ∅ b) /\
    NumTotalRecords s' = 1.
Proof.
  intros Hn Hold.
  set (s := construct 1 n old rem ∅ b).
  assert (Es : HashTableSize s = n /\ NumUsedSlots s = 0 /\ MaxListLength s = 0 /\
               NumTotalRecords s = 0 /\ OldHashTable s = old /\ mem s = ∅).
  { unfold s, construct. destruct (Z.eqb_spec n 0); [lia|].
    change (1 =? 0) with false. cbn [negb andb]. unfold AllocateBytes. done. }
  destruct Es as (E1 & E2 & E3 & E4 & E5 & E6).
  assert (Hslot : slot_of s k = Ok (HashPointer k mod n)).
  { unfold slot_of. rewrite E1, u32_small by (change (2 ^ 32) with 4294967296; lia).
    destruct (Z.eqb_spec n 0); [lia|done]. }
  assert (Hprobe : probe fuel s k = Ok (Missing 0 0)).
  { unfold probe. rewrite Hslot. cbn [bind]. rewrite E6, load_empty, E3.
    by destruct fuel. }
  set (s0 := set_stats s (NumUsedSlots s) 0 (NumTotalRecords s)).
  destruct (AllocateFromOldHashTable_cursor s0) as (q & r & Ea).
  assert (Hnew : new_node s0 = Ok (old, set_old s0 q r)).
  { unfold new_node. replace (OldHashTable s0) with old by (symmetry; exact E5).
    destruct (Z.eqb_spec old 0); [done|]. cbn [negb].
    rewrite Ea. f_equal. f_equal. exact E5. }
  set (s1 := set_stats
               (set_mem (set_old s0 q r)
                  (store (store (store (store (mem s0) (old + off_key) k)
                                   (old + off_value) 0) (old + off_Next) 0)
                     (bucket_addr (HashTable s0) (HashPointer k mod n)) old))
               (u32 (NumUsedSlots s0 + 1)) (MaxListLength s0)
               (u32 (NumTotalRecords s0 + 1))).
  assert (Hlink : link_new s0 k (HashPointer k mod n) 0 = Ok (old, s1)).
  { unfold link_new. rewrite Hnew. cbn [bind]. done. }
  assert (Hno : needs_resize s1 = false).
  { unfold needs_resize, s1, s0. proj. rewrite E1, E2, E4.
    change (u32 (0 + 1)) with 1.
    destruct (resize_test n 1 1 0) eqn:E; [|done].
    apply resize_test_exact in E; [|lia|done|done].
    unfold resize_wanted in E. lia. }
  exists s1. split.
  - unfold LookupPointer. rewrite Hslot, Hprobe. cbn [bind]. fold s0.
    rewrite Hlink. cbn [bind]. by rewrite Hno.
  - unfold s1, s0. proj. rewrite E4. done.
Qed.

Lemma first_node_from_stale_cursor_witness :
  exists s',
    LookupPointer 1 (construct 1 8 4096 0 ∅ 65536) 4104 = Ok (4096 + off_value, s') /\
    brk s' = brk (construct 1 8 4096 0 ∅ 65536) /\
    HashTable s' = HashTable (construct 1 8 4096 0 ∅ 65536) /\
    NumTotalRecords s' = 1.
Proof.
  apply (first_node_from_stale_cursor 8 4096 0 65536 4104 1); [lia|discriminate].
Defined.

(** * The traversals *)

Lemma visit_app {W : Type} (body : Z -> W -> result W) (l1 l2 : list Z) (w : W) :
  visit body (l1 ++ l2) w = (w' <- visit body l1 w ;; visit body l2 w').
Proof.
  revert w. induction l1 as [|v l1 IH]; intros w; [done|].
  cbn [app visit]. destruct (body v w); cbn [bind]; auto.
Qed.

(** the first null value pointer stops a traversal *)
Lemma visit_null {A : Type} (f : Z -> gmap Z Z * A -> gmap Z Z * A)
    (vs : list Z) (w : gmap Z Z * A) :
  0 ∈ vs -> visit (on_value f) vs w = Fault.
Proof.
  revert w. induction vs as [|v vs IH]; intros w H.
  - by apply elem_of_nil in H.
  - cbn [visit]. unfold on_value at 1. destruct (Z.eqb_spec v 0) as [->|Hv]; [done|].
    cbn [bind]. apply IH. apply elem_of_cons in H as [H|H]; [congruence|done].
Qed.

Section Traverse.

Context {A : Type} (m : gmap Z Z) (bound : Z).
Context (body : Z -> gmap Z Z * A -> result (gmap Z Z * A)).

(** [J j w]: what holds of the loop state [w] when [j] nodes are still to
    be visited *)
Context (J : nat -> gmap Z Z * A -> Prop).
Hypothesis J_agree : forall j w x, J j w -> x < bound -> load (fst w) x = load m x.
Hypothesis J_step : forall j v w w', J (S j) w -> body v w = Ok w' -> J j w'.

Lemma visit_J (vs : list Z) (k : nat) (w w' : gmap Z Z * A) :
  J (length vs + k) w -> visit body vs w = Ok w' -> J k w'.
Proof.
  revert w. induction vs as [|v vs IH]; intros w HJ; cbn [visit].
  - by intros [= <-].
  - intros (w1 & E1 & E2)%bind_Ok. apply (IH w1); [|done].
    exact (J_step _ v w w1 HJ E1).
Qed.

Lemma each_node_visit (l : list Z) : forall (n k : nat) (p : Z) (w : gmap Z Z * A),
  chain m p l -> (forall a, a ∈ l -> a + sizeof_Hash_t <= bound) ->
  J (length l + k) w -> (length l <= n)%nat ->
  each_node n body p w = visit body (node_value m <$> l) w.
Proof.
  induction l as [|a l IH]; intros n k p w Hc Hb HJ Hn.
  - cbn in Hc. subst p. by destruct n.
  - destruct Hc as (-> & Ha & Hc). cbn [length] in Hn.
    destruct n as [|n]; [lia|]. cbn [each_node fmap list_fmap visit].
    destruct (Z.eqb_spec a 0); [done|].
    assert (Hab : a + sizeof_Hash_t <= bound) by (apply Hb; left).
    rewrite (J_agree _ _ _ HJ) by (sz; lia). fold (node_value m a).
    destruct (body (node_value m a) w) as [w1| | |] eqn:E; cbn [bind]; try done.
    assert (HJ1 : J (length l + k) w1) by exact (J_step _ _ w w1 HJ E).
    rewrite (J_agree _ _ _ HJ1) by (sz; lia).
    apply (IH n k); [done| |done|lia].
    intros b Hb'. apply Hb. by right.
Qed.

Lemma each_bucket_visit (fuel : nat) (tbl : Z) (B : list (list Z)) :
  forall (i : Z) (k : nat) (w : gmap Z Z * A),
  (forall (j : nat) l, B !! j = Some l ->
     chain m (load m (bucket_addr tbl (i + Z.of_nat j))) l) ->
  bucket_addr tbl (i + Z.of_nat (length B)) <= bound ->
  (forall a, a ∈ mjoin B -> a + sizeof_Hash_t <= bound) ->
  J (length (mjoin B) + k) w -> (length (mjoin B) <= fuel)%nat ->
  each_bucket fuel (length B) body tbl i w = visit body (node_value m <$> mjoin B) w.
Proof.
  induction B as [|l B IH]; intros i k w Hrep Htb Hb HJ Hf; [done|].
  change (mjoin (l :: B)) with (l ++ mjoin B) in *.
  rewrite length_app in HJ, Hf. cbn [length] in Htb.
  cbn [length each_bucket]. rewrite fmap_app, visit_app.
  rewrite (J_agree _ _ _ HJ) by (sz; lia).
  pose proof (Hrep 0%nat l eq_refl) as Hc. rewrite Z.add_0_r in Hc.
  rewrite (each_node_visit l fuel (length (mjoin B) + k) _ w Hc);
    [|intros a Ha; apply Hb, elem_of_app; by left
     |by rewrite Nat.add_assoc|lia].
  destruct (visit body (node_value m <$> l) w) as [w1| | |] eqn:E; cbn [bind]; try done.
  apply (IH (i + 1) k).
  - intros j l' Hj. replace (i + 1 + Z.of_nat j) with (i + Z.of_nat (S j)) by lia.
    by apply Hrep.
  - replace (i + 1 + Z.of_nat (length B)) with (i + Z.of_nat (S (length B))) by lia.
    done.
  - intros a Ha. apply Hb, elem_of_app. by right.
  - apply (visit_J (node_value m <$> l) _ w); [|done].
    by rewrite length_fmap, Nat.add_assoc.
  - lia.
Qed.

End Traverse.

(** the two loops over a well-formed table visit the value pointers of its
    nodes, bucket by bucket and along each chain *)
Lemma traverse_spec {A : Type} (s : CHash) (B : list (list Z)) (fuel : nat)
    (body : Z -> gmap Z Z * A -> result (gmap Z Z * A))
    (J : nat -> gmap Z Z * A -> Prop) (w : gmap Z Z * A) :
  Inv s B -> (length (mjoin B) <= fuel)%nat ->
  (forall j w x, J j w -> x < brk s -> load (fst w) x = load (mem s) x) ->
  (forall j v w w', J (S j) w -> body v w = Ok w' -> J j w') ->
  J (length (mjoin B)) w ->
  each_bucket fuel (Z.to_nat (HashTableSize s)) body (HashTable s) 0 w
  = visit body (values_of s B) w /\
  forall w', visit body (values_of s B) w = Ok w' -> J 0%nat w'.
Proof.
  intros HI Hf HJa HJs HJ.
  destruct (inv_size _ _ HI) as (Hsz & Hlen).
  destruct (inv_table _ _ HI) as (Htpos & Htal & Htb).
  split.
  - replace (Z.to_nat (HashTableSize s)) with (length B) by lia.
    unfold values_of.
    apply (each_bucket_visit (mem s) (brk s) body J HJa HJs fuel (HashTable s) B 0 0%nat).
    + intros j l Hj. rewrite Z.add_0_l. by apply (inv_chains _ _ HI).
    + sz. lia.
    + intros a Ha. by destruct (inv_nodes _ _ HI a Ha) as (_ & H & _).
    + by rewrite Nat.add_0_r.
    + done.
  - intros w' E. apply (visit_J body J HJs (values_of s B) 0 w w'); [|done].
    unfold values_of. by rewrite length_fmap, Nat.add_0_r.
Qed.

(** a body that leaves the memory alone *)
Lemma traverse_pure {A : Type} (s : CHash) (B : list (list Z)) (fuel : nat)
    (f : Z -> A -> A) (a : A) :
  Inv s B -> (length (mjoin B) <= fuel)%nat ->
  each_bucket fuel (Z.to_nat (HashTableSize s))
    (on_value (fun value w => (fst w, f value (snd w)))) (HashTable s) 0 (mem s, a)
  = visit (on_value (fun value w => (fst w, f value (snd w)))) (values_of s B)
      (mem s, a).
Proof.
  intros HI Hf.
  apply (traverse_spec s B fuel _ (fun _ w => fst w = mem s) (mem s, a) HI Hf).
  - intros _ w x -> _. done.
  - intros _ v w w' Hw. unfold on_value. destruct (v =? 0); [done|].
    intros [= <-]. done.
  - done.
Qed.

Lemma visit_pure {A : Type} (f : Z -> A -> A) (vs : list Z) (m : gmap Z Z) (a : A) :
  (forall v, v ∈ vs -> v <> 0) ->
  visit (on_value (fun value w => (fst w, f value (snd w)))) vs (m, a)
  = Ok (m, foldl (fun a v => f v a) a vs).
Proof.
  revert a. induction vs as [|v vs IH]; intros a Hv; [done|].
  cbn [visit foldl]. unfold on_value at 1.
  destruct (Z.eqb_spec v 0) as [E|_]; [by destruct (Hv v ltac:(left))|].
  cbn [bind fst snd]. apply IH. intros u Hu. apply Hv. by right.
Qed.

Lemma values_of_empty (s : CHash) (B : list (list Z)) :
  Inv s B -> NumTotalRecords s = 0 -> values_of s B = [].
Proof.
  intros HI E. rewrite (inv_total _ _ HI) in E. unfold values_of.
  destruct (mjoin B); [done|]. cbn [length] in E. lia.
Qed.

Lemma table_not_null (s : CHash) (B : list (list Z)) :
  Inv s B -> (HashTable s =? 0) = false.
Proof.
  intros HI. destruct (inv_table _ _ HI) as (H & _). apply Z.eqb_neq. lia.
Qed.

Lemma records_not_zero (s : CHash) (B : list (list Z)) (v : Z) :
  Inv s B -> v ∈ values_of s B -> (NumTotalRecords s =? 0) = false.
Proof.
  intros HI Hv. apply Z.eqb_neq. intros E.
  rewrite (values_of_empty s B HI E) in Hv. by apply elem_of_nil in Hv.
Qed.

Lemma indent_length (n : nat) : forall (buffer : list Z),
  (length buffer + 2 * n < 64)%nat ->
  indent n buffer = Ok (buffer ++ replicate (2 * n) 32).
Proof.
  induction n as [|n IH]; intros buffer H.
  - cbn. by rewrite app_nil_r.
  - cbn [indent]. unfold strcat_s. cbn [length].
    destruct (Z.leb_spec (Z.of_nat (length buffer + 2) + 1) 64); [|lia].
    cbn [bind]. rewrite IH by (rewrite length_app; cbn [length]; lia).
    rewrite <- app_assoc. f_equal.
    replace (2 * S n)%nat with (S (S (2 * n))) by lia. done.
Qed.

Lemma indent_overflow (n : nat) : forall (buffer : list Z),
  (length buffer < 64)%nat -> (64 <= length buffer + 2 * n)%nat ->
  indent n buffer = Fault.
Proof.
  induction n as [|n IH]; intros buffer H1 H2; [lia|].
  cbn [indent]. unfold strcat_s. cbn [length].
  destruct (Z.leb_spec (Z.of_nat (length buffer + 2) + 1) 64); [|done].
  cbn [bind]. apply IH; rewrite length_app; cbn [length]; lia.
Qed.

(** * ResetCounters *)

(** X16. [ResetCounters] on a well-formed table whose nodes all hold a
    value calls the values' [ResetCounters] with the given time once for
    every node, bucket by bucket and along each chain, and does nothing
    else; on a table without records no value is touched. *)
Theorem ResetCounters_each_value {V : Type} `{!ValueType V}
    (s : CHash) (B : list (list Z)) (fuel : nat) (TimeNow : Z) (st : V) :
  Inv s B -> (length (mjoin B) <= fuel)%nat ->
  (forall v, v ∈ values_of s B -> v <> 0) ->
  ResetCounters fuel s TimeNow st
  = Ok (foldl (fun st v => T_ResetCounters v TimeNow st) st (values_of s B)).
Proof.
  intros HI Hf Hv. unfold ResetCounters.
  rewrite (table_not_null s B HI). cbn [negb andb].
  destruct (Z.eqb_spec (NumTotalRecords s) 0) as [E|_]; cbn [negb].
  - by rewrite (values_of_empty s B HI E).
  - rewrite (traverse_pure s B fuel (fun v a => T_ResetCounters v TimeNow a)) by done.
    rewrite (visit_pure (fun v a => T_ResetCounters v TimeNow a)) by done. done.
Qed.

Lemma ResetCounters_each_value_witness :
  ResetCounters 1 sample_table 9 []
  = Ok (foldl (fun st v => T_ResetCounters v 9 st) []
          (values_of sample_table sample_chains)).
Proof.
  apply (ResetCounters_each_value sample_table sample_chains 1 9 [] sample_table_Inv).
  - vm_compute. lia.
  - vm_compute. intros v H. apply elem_of_cons in H as [->|H]; [discriminate|].
    by apply elem_of_nil in H.
Defined.

(** * PrintStats *)

(** X17. [PrintStats] with a nesting level of 32 or more never reaches the
    report: the 32nd [strcat_s] would need 65 bytes (64 blanks and the NUL)
    in the 64-byte buffer, whatever the table holds. *)
Theorem PrintStats_deep_nesting {V : Type} `{!ValueType V}
    (s : CHash) (fuel : nat) (Header : list Z) (NestLevel : Z) (st : V) :
  32 <= NestLevel -> PrintStats fuel s Header NestLevel st = Fault.
Proof.
  intros H. unfold PrintStats. rewrite Z.min_r by done.
  rewrite indent_overflow; [done|cbn; lia|cbn; lia].
Qed.

Lemma PrintStats_deep_nesting_witness :
  PrintStats 1 sample_table [72] 32 ([] : list (Z * Z)) = Fault.
Proof. apply (PrintStats_deep_nesting sample_table 1 [72] 32 []). lia. Defined.

(** X18. [PrintStats] below nesting level 32 on a well-formed table whose
    nodes all hold a value reports two blanks per level, the four counters,
    and a finite probe average (zero without records: the division by the
    used-slot count is never a division by zero), and then calls the values'
    [PrintStats] one level deeper, once for every node in bucket and chain
    order. *)
Theorem PrintStats_report {V : Type} `{!ValueType V}
    (s : CHash) (B : list (list Z)) (fuel : nat) (Header : list Z)
    (NestLevel : Z) (st : V) :
  Inv s B -> (length (mjoin B) <= fuel)%nat ->
  (forall v, v ∈ values_of s B -> v <> 0) ->
  - 2 ^ 31 <= NestLevel < 32 ->
  exists line,
    PrintStats fuel s Header NestLevel st
    = Ok (line, foldl (fun st v => T_PrintStats v (NestLevel + 1) st) st
                  (values_of s B)) /\
    line_indent line = replicate (2 * Z.to_nat NestLevel) 32 /\
    line_header line = Header /\
    (line_size line, line_used line, line_max line, line_total line)
    = counters s /\
    (exists m e, line_probe_average line = Fin m e) /\
    (NumTotalRecords s = 0 -> line_probe_average line = Fin 0 0).
Proof.
  intros HI Hf Hv Hn. unfold PrintStats.
  rewrite indent_length by (cbn [length]; lia). cbn [bind app].
  rewrite s32_small by (change (2 ^ 31) with 2147483648 in *; lia).
  rewrite (traverse_pure s B fuel (fun v a => T_PrintStats v (NestLevel + 1) a)) by done.
  rewrite (visit_pure (fun v a => T_PrintStats v (NestLevel + 1) a)) by done.
  cbn [bind snd].
  eexists. split; [reflexivity|]. cbn [line_indent line_header line_used line_size
    line_max line_total line_probe_average].
  split_and!.
  - f_equal. lia.
  - done.
  - done.
  - destruct (Z.ltb_spec 0 (NumTotalRecords s)) as [Hpos|_]; [|by eexists _, _].
    apply f32_div_finite; [lia|]. pose proof (used_pos s B HI Hpos). lia.
  - intros ->. done.
Qed.

Lemma PrintStats_report_witness :
  exists line,
    PrintStats 1 sample_table [72] 3 []
    = Ok (line, foldl (fun st v => T_PrintStats v (3 + 1) st) []
                  (values_of sample_table sample_chains)) /\
    line_indent line = replicate (2 * Z.to_nat 3) 32 /\
    line_header line = [72] /\
    (line_size line, line_used line, line_max line, line_total line)
    = counters sample_table /\
    (exists m e, line_probe_average line = Fin m e) /\
    (NumTotalRecords sample_table = 0 -> line_probe_average line = Fin 0 0).
Proof.
  apply (PrintStats_report sample_table sample_chains 1 [72] 3 [] sample_table_Inv).
  - vm_compute. lia.
  - vm_compute. intros v H. apply elem_of_cons in H as [->|H]; [discriminate|].
    by apply elem_of_nil in H.
  - lia.
Defined.

(** * CopyHashToArray *)

Lemma sum_u32_from (cs : list Z) (n : Z) :
  0 <= n < 2 ^ 32 -> 0 <= foldl (fun n c => u32 (n + c)) n cs < 2 ^ 32.
Proof.
  revert n. induction cs as [|c cs IH]; intros n Hn; [done|].
  cbn [foldl]. apply IH. unfold u32. apply Z.mod_pos_bound. done.
Qed.

Lemma sum_u32_range (cs : list Z) : 0 <= sum_u32 cs < 2 ^ 32.
Proof. apply sum_u32_from. done. Qed.

Section Copy.

Context {V : Type} `{!ValueType V}.

Lemma visit_count (vs : list Z) : forall (m : gmap Z Z) (n : Z) (st : V),
  (forall v, v ∈ vs -> v <> 0) ->
  visit (on_value count_records) vs (m, (n, st))
  = Ok (m, (foldl (fun n c => u32 (n + c)) n (fst (counted vs st)),
            snd (counted vs st))).
Proof.
  induction vs as [|v vs IH]; intros m n st Hv; [done|].
  cbn [visit counted]. unfold on_value at 1.
  destruct (Z.eqb_spec v 0) as [E|_]; [by destruct (Hv v ltac:(left))|].
  cbn [bind].
  change (count_records v (m, (n, st)))
    with (let '(c, st') := T_GetNumRecordsToCopy v st in (m, (u32 (n + c), st'))).
  destruct (T_GetNumRecordsToCopy v st) as [c st1].
  rewrite IH by (intros u Hu; apply Hv; by right).
  destruct (counted vs st1) as [cs st2]. done.
Qed.

Lemma collected_length (ica : Z) (deep : bool) (vs : list Z) : forall (a : V * Z),
  (length (fst (collected ica deep vs a)) <= length vs)%nat.
Proof.
  induction vs as [|v vs IH]; intros a; [done|].
  cbn [collected]. destruct (T_GetNumRecordsToCopy v (fst a)) as [c st1].
  destruct (c =? 0).
  - specialize (IH (st1, snd a)). cbn [length]. lia.
  - destruct (if deep then _ else _) as [ptr a1].
    specialize (IH a1). destruct (collected ica deep vs a1) as [ptrs a2].
    cbn [fst length] in *. lia.
Qed.

Lemma visit_copy (ica : Z) (deep : bool) (p : Z) (vs : list Z) :
  forall (m : gmap Z Z) (i : Z) (a : V * Z),
  (forall v, v ∈ vs -> v <> 0) ->
  0 <= i -> i + Z.of_nat (length vs) < 2 ^ 31 ->
  visit (on_value (copy_record ica deep p)) vs (m, (i, a))
  = Ok (store_array m p i (fst (collected ica deep vs a)),
        (i + Z.of_nat (length (fst (collected ica deep vs a))),
         snd (collected ica deep vs a))).
Proof.
  induction vs as [|v vs IH]; intros m i a Hv Hi Hl.
  - cbn. by rewrite Z.add_0_r.
  - cbn [visit collected]. unfold on_value at 1.
    destruct (Z.eqb_spec v 0) as [E|_]; [by destruct (Hv v ltac:(left))|].
    cbn [bind].
    change (copy_record ica deep p v (m, (i, a)))
      with (let '(c, st) := T_GetNumRecordsToCopy v (fst a) in
            if c =? 0 then (m, (i, (st, snd a)))
            else
              let '(ptr, a') :=
                if deep then T_GetArrayCopy v ica deep (st, snd a)
                else (v, (st, snd a)) in
              (store m (p + sizeof_ptr * i) ptr, (s32 (i + 1), a'))).
    cbn [length] in Hl.
    destruct (T_GetNumRecordsToCopy v (fst a)) as [c st1].
    destruct (c =? 0).
    + rewrite IH; [done|intros u Hu; apply Hv; by right|lia|lia].
    + destruct (if deep then _ else _) as [ptr a1].
      rewrite s32_small by (change (2 ^ 31) with 2147483648 in *; lia).
      rewrite IH; [|intros u Hu; apply Hv; by right|lia|lia].
      destruct (collected ica deep vs a1) as [ptrs a2]. cbn [fst snd length store_array].
      do 3 f_equal. lia.
Qed.

Lemma traverse_count (s : CHash) (B : list (list Z)) (fuel : nat) (st : V) :
  Inv s B -> (length (mjoin B) <= fuel)%nat ->
  each_bucket fuel (Z.to_nat (HashTableSize s)) (on_value count_records)
    (HashTable s) 0 (mem s, (0, st))
  = visit (on_value count_records) (values_of s B) (mem s, (0, st)).
Proof.
  intros HI Hf.
  apply (traverse_spec s B fuel _ (fun _ w => fst w = mem s) _ HI Hf).
  - intros _ w x -> _. done.
  - intros _ v w w' Hw. unfold on_value. destruct (v =? 0); [done|].
    intros [= <-]. unfold count_records.
    destruct (T_GetNumRecordsToCopy v (snd (snd w))). done.
  - done.
Qed.

Lemma traverse_copy (s : CHash) (B : list (list Z)) (fuel : nat)
    (ica : Z) (deep : bool) (p : Z) (a : V * Z) :
  Inv s B -> (length (mjoin B) <= fuel)%nat ->
  brk s <= p -> Z.of_nat (length (mjoin B)) < 2 ^ 31 ->
  each_bucket fuel (Z.to_nat (HashTableSize s)) (on_value (copy_record ica deep p))
    (HashTable s) 0 (mem s, (0, a))
  = visit (on_value (copy_record ica deep p)) (values_of s B) (mem s, (0, a)).
Proof.
  intros HI Hf Hp Hl.
  apply (traverse_spec s B fuel _
           (fun j w => (forall x, x < brk s -> load (fst w) x = load (mem s) x) /\
                       0 <= fst (snd w) /\
                       fst (snd w) + Z.of_nat j <= Z.of_nat (length (mjoin B)))
           _ HI Hf).
  - intros j w x (H & _) Hx. by apply H.
  - intros j v w w' (H1 & H2 & H3). unfold on_value. destruct (v =? 0); [done|].
    intros [= <-]. unfold copy_record.
    destruct (T_GetNumRecordsToCopy v (fst (snd (snd w)))) as [c st1].
    destruct (c =? 0); cbn [fst snd].
    + split_and!; [done|done|lia].
    + destruct (if deep then _ else _) as [ptr a1]. cbn [fst snd].
      rewrite s32_small by (change (2 ^ 31) with 2147483648 in *; lia).
      split_and!; [|lia|lia].
      intros x Hx. rewrite load_store_ne by (unfold sizeof_ptr; lia). by apply H1.
  - cbn [fst snd]. split_and!; [done|done|lia].
Qed.

(** [CopyHashToArray] on a well-formed table, told over the list of its
    value pointers *)
Lemma CopyHashToArray_spec (s : CHash) (B : list (list Z)) (fuel : nat)
    (ica cb : Z) (deep : bool) (st : V) :
  Inv s B -> (length (mjoin B) <= fuel)%nat ->
  (forall v, v ∈ values_of s B -> v <> 0) ->
  ica <> 0 -> brk s <= cb -> Z.of_nat (length (mjoin B)) < 2 ^ 31 ->
  let cs := counted (values_of s B) st in
  let n := sum_u32 (fst cs) in
  let p := align_up cb sizeof_ptr in
  let r := collected ica deep (values_of s B) (snd cs, p + sizeof_ptr * n) in
  CopyHashToArray fuel s ica cb deep st
  = Ok (if n =? 0 then mkCopied 0 0 (mem s) (snd cs) cb
        else mkCopied p n (store_array (mem s) p 0 (fst r)) (fst (snd r))
               (snd (snd r))).
Proof.
  intros HI Hf Hv Hica Hcb Hl cs n p r. unfold CopyHashToArray.
  destruct (Z.eqb_spec ica 0) as [|_]; [done|].
  rewrite (table_not_null s B HI). cbn [negb andb].
  destruct (Z.eqb_spec (NumTotalRecords s) 0) as [E|_]; cbn [negb].
  - unfold n, cs. rewrite (values_of_empty s B HI E). done.
  - rewrite (traverse_count s B) by done. rewrite visit_count by done.
    cbn [bind fst snd]. fold cs. fold (sum_u32 (fst cs)). fold n.
    destruct (Z.eqb_spec n 0) as [E|Hn]; cbn [negb].
    + by rewrite E.
    + pose proof (sum_u32_range (fst cs)) as Hr. fold n in Hr.
      destruct (align_up_8 cb) as [Hal _]. change (align_up cb 8) with p in Hal.
      rewrite u64_small
        by (unfold sizeof_ptr; change (2 ^ 32) with 4294967296 in Hr;
            change (2 ^ 64) with 18446744073709551616; lia).
      rewrite (Z.mul_comm n sizeof_ptr). fold p.
      rewrite (traverse_copy s B) by (done || lia).
      rewrite visit_copy; [|done|done|unfold values_of; rewrite length_fmap; lia].
      cbn [bind fst snd]. done.
Qed.

End Copy.

Lemma load_store_array_other (ptrs : list Z) : forall (m : gmap Z Z) (p i x : Z),
  (forall j, 0 <= j < Z.of_nat (length ptrs) -> x <> p + sizeof_ptr * (i + j)) ->
  load (store_array m p i ptrs) x = load m x.
Proof.
  induction ptrs as [|v ptrs IH]; intros m p i x Hx; [done|].
  cbn [store_array]. cbn [length] in Hx. rewrite IH.
  - apply load_store_ne. specialize (Hx 0 ltac:(lia)).
    rewrite Z.add_0_r in Hx. congruence.
  - intros j Hj. specialize (Hx (1 + j) ltac:(lia)).
    by replace (i + 1 + j) with (i + (1 + j)) by lia.
Qed.

Lemma load_store_array_at (ptrs : list Z) :
  forall (m : gmap Z Z) (p i : Z) (j : nat) (v : Z),
  ptrs !! j = Some v ->
  load (store_array m p i ptrs) (p + sizeof_ptr * (i + Z.of_nat j)) = v.
Proof.
  induction ptrs as [|u ptrs IH]; intros m p i j v Hj; [done|].
  cbn [store_array]. destruct j as [|j].
  - injection Hj as ->. rewrite Z.add_0_r. rewrite load_store_array_other.
    + apply load_store_eq.
    + intros j Hj. unfold sizeof_ptr. lia.
  - replace (i + Z.of_nat (S j)) with (i + 1 + Z.of_nat j) by lia.
    by apply IH.
Qed.

Lemma indent_cases (n : nat) : forall (buffer : list Z),
  indent n buffer = Fault \/ exists b, indent n buffer = Ok b.
Proof.
  induction n as [|n IH]; intros buffer; cbn [indent]; [by right; eexists|].
  unfold strcat_s. destruct (_ <=? _); cbn [bind]; [apply IH|by left].
Qed.

Section Stable.

Context {V : Type} `{!ValueType V} (c : Z -> Z).
Hypothesis Hc : forall v (st : V), T_GetNumRecordsToCopy v st = (c v, st).

Lemma counted_stable (vs : list Z) (st : V) : counted vs st = (c <$> vs, st).
Proof.
  induction vs as [|v vs IH]; [done|]. cbn [counted]. by rewrite Hc, IH.
Qed.

Lemma collected_stable (ica : Z) (vs : list Z) (a : V * Z) :
  collected ica false vs a = (filter (fun v => c v <> 0) vs, a).
Proof.
  revert a. induction vs as [|v vs IH]; intros a; [done|].
  cbn [collected]. rewrite Hc, filter_cons.
  destruct (Z.eqb_spec (c v) 0) as [E|E].
  - rewrite IH. destruct (decide (c v <> 0)); [done|]. by destruct a.
  - rewrite IH. destruct (decide (c v <> 0)); [|done]. by destruct a.
Qed.

Lemma sum_u32_exact (vs : list Z) : forall (n : Z),
  (forall v, v ∈ vs -> 0 <= c v) -> 0 <= n ->
  n + foldr (fun v k => c v + k) 0 vs < 2 ^ 32 ->
  foldl (fun n c => u32 (n + c)) n (c <$> vs) = n + foldr (fun v k => c v + k) 0 vs.
Proof.
  induction vs as [|v vs IH]; intros n Hpos Hn Hs; cbn [fmap list_fmap foldl foldr] in *.
  - lia.
  - assert (0 <= c v) by (apply Hpos; left).
    assert (0 <= foldr (fun v k => c v + k) 0 vs).
    { clear -Hpos. induction vs as [|u vs IH]; cbn [foldr]; [lia|].
      assert (0 <= c u) by (apply Hpos; right; left).
      assert (0 <= foldr (fun v k => c v + k) 0 vs); [|lia].
      apply IH. intros w Hw. apply Hpos. apply elem_of_cons in Hw as [->|Hw];
        [left|right; by right]. }
    rewrite u32_small by lia.
    rewrite IH; [lia|intros u Hu; apply Hpos; by right|lia|lia].
Qed.

Lemma filter_count_le (vs : list Z) :
  (forall v, v ∈ vs -> 0 <= c v) ->
  Z.of_nat (length (filter (fun v => c v <> 0) vs))
  <= foldr (fun v k => c v + k) 0 vs.
Proof.
  induction vs as [|v vs IH]; intros Hpos; [done|].
  rewrite filter_cons. cbn [foldr].
  assert (0 <= c v) by (apply Hpos; left).
  specialize (IH ltac:(intros u Hu; apply Hpos; by right)).
  destruct (decide (c v <> 0)); cbn [length]; lia.
Qed.

End Stable.

(** X19. [CopyHashToArray] on a well-formed table whose nodes all hold a
    value, in either mode: the first pass asks every value for its record
    count, in bucket and chain order, and [OutArraySize] is the sum of the
    counts in [unsigned int] arithmetic; when the sum is zero the result is
    null and nothing is stored; otherwise the array is allocated pointer
    aligned at the break of the copy arena with one entry per counted
    record, and the second pass stores, from index 0 on, one pointer for each
    value whose count is then nonzero (the value pointer, or its copy in the
    deep mode). *)
Theorem CopyHashToArray_export {V : Type} `{!ValueType V}
    (s : CHash) (B : list (list Z)) (fuel : nat)
    (InCopyAllocator cb : Z) (bCopyMemberHashTables : bool) (st : V) :
  Inv s B -> (length (mjoin B) <= fuel)%nat ->
  (forall v, v ∈ values_of s B -> v <> 0) ->
  InCopyAllocator <> 0 -> brk s <= cb -> Z.of_nat (length (mjoin B)) < 2 ^ 31 ->
  let cs := counted (values_of s B) st in
  let n := sum_u32 (fst cs) in
  let p := align_up cb sizeof_ptr in
  let r := collected InCopyAllocator bCopyMemberHashTables (values_of s B)
             (snd cs, p + sizeof_ptr * n) in
  CopyHashToArray fuel s InCopyAllocator cb bCopyMemberHashTables st
  = Ok (if n =? 0 then mkCopied 0 0 (mem s) (snd cs) cb
        else mkCopied p n (store_array (mem s) p 0 (fst r)) (fst (snd r))
               (snd (snd r))).
Proof. intros. by apply CopyHashToArray_spec. Qed.

Lemma sample_values_set : forall v, v ∈ values_of sample_table sample_chains -> v <> 0.
Proof.
  vm_compute. intros v H. apply elem_of_cons in H as [->|H]; [discriminate|].
  by apply elem_of_nil in H.
Qed.

Lemma CopyHashToArray_export_witness :
  let cs := counted (values_of sample_table sample_chains) ([] : list (Z * Z)) in
  let n := sum_u32 (fst cs) in
  let p := align_up (brk sample_table) sizeof_ptr in
  let r := collected 1 true (values_of sample_table sample_chains)
             (snd cs, p + sizeof_ptr * n) in
  CopyHashToArray 1 sample_table 1 (brk sample_table) true []
  = Ok (if n =? 0 then mkCopied 0 0 (mem sample_table) (snd cs) (brk sample_table)
        else mkCopied p n (store_array (mem sample_table) p 0 (fst r)) (fst (snd r))
               (snd (snd r))).
Proof.
  apply (CopyHashToArray_export sample_table sample_chains 1 1 (brk sample_table)
           true [] sample_table_Inv).
  - vm_compute. lia.
  - exact sample_values_set.
  - discriminate.
  - lia.
  - vm_compute. reflexivity.
Defined.

(** X20. The shallow export when the values' record counts do not change
    and add up to less than 2^32: [OutArraySize] is the sum of the counts,
    but the entries stored are the value pointers of the values with a
    nonzero count, one each, in bucket and chain order from index 0; the
    entries from their number up to [OutArraySize] are never written, so the
    array is only full when no value reports more than one record.  The
    values are not changed and the memory below the break of the table's
    arena (buckets and nodes) is as before. *)
Theorem CopyHashToArray_shallow {V : Type} `{!ValueType V}
    (s : CHash) (B : list (list Z)) (fuel : nat)
    (InCopyAllocator cb : Z) (st : V) (c : Z -> Z) :
  Inv s B -> (length (mjoin B) <= fuel)%nat ->
  (forall v, v ∈ values_of s B -> v <> 0) ->
  InCopyAllocator <> 0 -> brk s <= cb -> Z.of_nat (length (mjoin B)) < 2 ^ 31 ->
  (forall v (st : V), T_GetNumRecordsToCopy v st = (c v, st)) ->
  (forall v, v ∈ values_of s B -> 0 <= c v) ->
  foldr (fun v k => c v + k) 0 (values_of s B) < 2 ^ 32 ->
  let ptrs := filter (fun v => c v <> 0) (values_of s B) in
  exists r,
    CopyHashToArray fuel s InCopyAllocator cb false st = Ok r /\
    OutArraySize r = foldr (fun v k => c v + k) 0 (values_of s B) /\
    copied_values r = st /\
    (pArrayOfPointers r = 0 <-> OutArraySize r = 0) /\
    (OutArraySize r <> 0 -> pArrayOfPointers r = align_up cb sizeof_ptr) /\
    Z.of_nat (length ptrs) <= OutArraySize r /\
    (forall (j : nat) v, ptrs !! j = Some v ->
       load (copied_mem r) (pArrayOfPointers r + sizeof_ptr * Z.of_nat j) = v) /\
    (forall j, Z.of_nat (length ptrs) <= j ->
       load (copied_mem r) (pArrayOfPointers r + sizeof_ptr * j)
       = load (mem s) (pArrayOfPointers r + sizeof_ptr * j)) /\
    (forall x, x < brk s -> load (copied_mem r) x = load (mem s) x).
Proof.
  intros HI Hf Hv Hica Hcb Hl Hc Hpos Hsum ptrs.
  pose proof (CopyHashToArray_spec s B fuel InCopyAllocator cb false st
                HI Hf Hv Hica Hcb Hl) as E.
  cbv zeta in E. rewrite (counted_stable c Hc) in E. cbn [fst snd] in E.
  rewrite (collected_stable c Hc) in E. cbn [fst snd] in E. fold ptrs in E.
  unfold sum_u32 in E.
  rewrite (sum_u32_exact c (values_of s B) 0 Hpos ltac:(lia) ltac:(lia)) in E.
  rewrite Z.add_0_l in E.
  set (n := foldr (fun v k => c v + k) 0 (values_of s B)) in *.
  pose proof (filter_count_le c (values_of s B) Hpos) as Hle. fold ptrs n in Hle.
  destruct (inv_table _ _ HI) as (Htpos & _ & Htb).
  destruct (inv_size _ _ HI) as (Hsz & _).
  destruct (align_up_8 cb) as [Hal _]. change 8 with sizeof_ptr in Hal at 1.
  assert (Hbrk : 0 < brk s) by (unfold table_bytes, sizeof_ptr in Htb; lia).
  eexists. split; [exact E|].
  destruct (Z.eqb_spec n 0) as [E0|E0];
    cbn [OutArraySize copied_values pArrayOfPointers copied_mem].
  - assert (ptrs = []) as -> by (destruct ptrs; [done|cbn [length] in Hle; lia]).
    split_and!; done.
  - split_and!; try done.
    + lia.
    + intros j v Hj. rewrite <- (Z.add_0_l (Z.of_nat j)).
      by apply load_store_array_at.
    + intros j Hj. apply load_store_array_other.
      intros i Hi. unfold sizeof_ptr. lia.
    + intros x Hx. apply load_store_array_other.
      intros i Hi. unfold sizeof_ptr in *. lia.
Qed.

Lemma CopyHashToArray_shallow_witness :
  let ptrs := filter (fun v => (fun _ : Z => 2) v <> 0)
                (values_of sample_table sample_chains) in
  exists r,
    CopyHashToArray 1 sample_table 1 (brk sample_table) false tt = Ok r /\
    OutArraySize r
    = foldr (fun v k => (fun _ : Z => 2) v + k) 0 (values_of sample_table sample_chains) /\
    copied_values r = tt /\
    (pArrayOfPointers r = 0 <-> OutArraySize r = 0) /\
    (OutArraySize r <> 0 ->
     pArrayOfPointers r = align_up (brk sample_table) sizeof_ptr) /\
    Z.of_nat (length ptrs) <= OutArraySize r /\
    (forall (j : nat) v, ptrs !! j = Some v ->
       load (copied_mem r) (pArrayOfPointers r + sizeof_ptr * Z.of_nat j) = v) /\
    (forall j, Z.of_nat (length ptrs) <= j ->
       load (copied_mem r) (pArrayOfPointers r + sizeof_ptr * j)
       = load (mem sample_table) (pArrayOfPointers r + sizeof_ptr * j)) /\
    (forall x, x < brk sample_table ->
       load (copied_mem r) x = load (mem sample_table) x).
Proof.
  apply (CopyHashToArray_shallow sample_table sample_chains 1 1 (brk sample_table)
           tt (fun _ => 2) sample_table_Inv).
  - vm_compute. lia.
  - exact sample_values_set.
  - discriminate.
  - lia.
  - vm_compute. reflexivity.
  - reflexivity.
  - intros. lia.
  - vm_compute. reflexivity.
Defined.

(** X21. Without a copy allocator, without a bucket array or without
    records, [CopyHashToArray] returns null with [OutArraySize] 0, in any
    state of the table: no value is asked for anything and nothing is
    allocated or stored. *)
Theorem CopyHashToArray_nothing {V : Type} `{!ValueType V}
    (s : CHash) (fuel : nat) (InCopyAllocator cb : Z)
    (bCopyMemberHashTables : bool) (st : V) :
  InCopyAllocator = 0 \/ HashTable s = 0 \/ NumTotalRecords s = 0 ->
  CopyHashToArray fuel s InCopyAllocator cb bCopyMemberHashTables st
  = Ok (mkCopied 0 0 (mem s) st cb).
Proof.
  intros H. unfold CopyHashToArray.
  destruct (Z.eqb_spec InCopyAllocator 0); [done|].
  destruct (Z.eqb_spec (HashTable s) 0); [done|].
  destruct (Z.eqb_spec (NumTotalRecords s) 0); [done|].
  by destruct H as [H|[H|H]].
Qed.

Lemma CopyHashToArray_nothing_witness :
  CopyHashToArray 1 unpopulated_table 0 (brk unpopulated_table) true
    ([] : list (Z * Z))
  = Ok (mkCopied 0 0 (mem unpopulated_table) [] (brk unpopulated_table)).
Proof.
  apply (CopyHashToArray_nothing unpopulated_table 1 0 (brk unpopulated_table) true []).
  left. reflexivity.
Defined.

(** X22. A node whose value member is still null (as [LookupPointer]
    leaves it until the caller stores a record) makes every traversal of a
    well-formed table fault: [ResetCounters], [PrintStats] and, given a copy
    allocator, [CopyHashToArray] call a method through the null pointer. *)
Theorem traversal_unpopulated_faults {V : Type} `{!ValueType V}
    (s : CHash) (B : list (list Z)) (fuel : nat)
    (TimeNow NestLevel InCopyAllocator cb : Z) (Header : list Z)
    (bCopyMemberHashTables : bool) (st : V) :
  Inv s B -> (length (mjoin B) <= fuel)%nat -> 0 ∈ values_of s B ->
  ResetCounters fuel s TimeNow st = Fault /\
  PrintStats fuel s Header NestLevel st = Fault /\
  (InCopyAllocator <> 0 ->
   CopyHashToArray fuel s InCopyAllocator cb bCopyMemberHashTables st = Fault).
Proof.
  intros HI Hf H0. split_and!.
  - unfold ResetCounters.
    rewrite (table_not_null s B HI), (records_not_zero s B 0 HI H0). cbn [negb andb].
    rewrite (traverse_pure s B fuel (fun v a => T_ResetCounters v TimeNow a)) by done.
    by rewrite visit_null.
  - unfold PrintStats.
    destruct (indent_cases (Z.to_nat (Z.min NestLevel 32)) []) as [->|[b ->]]; [done|].
    cbn [bind].
    rewrite (traverse_pure s B fuel
               (fun v a => T_PrintStats v (s32 (NestLevel + 1)) a)) by done.
    by rewrite visit_null.
  - intros Hica. unfold CopyHashToArray.
    destruct (Z.eqb_spec InCopyAllocator 0); [done|].
    rewrite (table_not_null s B HI), (records_not_zero s B 0 HI H0). cbn [negb andb].
    rewrite (traverse_count s B) by done. by rewrite visit_null.
Qed.

Lemma traversal_unpopulated_faults_witness :
  ResetCounters 1 unpopulated_table 9 ([] : list (Z * Z)) = Fault /\
  PrintStats 1 unpopulated_table [72] 0 ([] : list (Z * Z)) = Fault /\
  (1 <> 0 ->
   CopyHashToArray 1 unpopulated_table 1 (brk unpopulated_table) false
     ([] : list (Z * Z)) = Fault).
Proof.
  apply (traversal_unpopulated_faults unpopulated_table sample_chains 1 9 0 1
           (brk unpopulated_table) [72] false [] unpopulated_table_Inv).
  - vm_compute. lia.
  - vm_compute. left.
Defined.

(** * Sequences of insertions *)

Lemma populate_fields (s : CHash) (slot v : Z) :
  HashTableSize (populate s slot v) = HashTableSize s /\
  NumTotalRecords (populate s slot v) = NumTotalRecords s /\
  brk (populate s slot v) = brk s.
Proof. unfold populate. by destruct (_ =? 0). Qed.

Lemma lookups_spec (kvs : list (Z * Z)) :
  forall (s : CHash) (B : list (list Z)) (fuel : nat),
  Inv s B -> fits_along fuel s kvs ->
  (length (mjoin B) + length kvs < fuel)%nat ->
  NoDup (kvs.*1) ->
  (forall k, k ∈ kvs.*1 -> k ∉ (node_key (mem s) <$> mjoin B)) ->
  exists nodes s' B',
    lookups fuel s kvs = Ok ((fun a => a + off_value) <$> nodes, s') /\
    Inv s' B' /\ fits s' /\
    mjoin B' ≡ₚ nodes ++ mjoin B /\
    Forall2 (fun a kv => node_key (mem s') a = kv.1 /\ node_value (mem s') a = kv.2)
      nodes kvs /\
    (forall b, b ∈ mjoin B ->
       node_key (mem s') b = node_key (mem s) b /\
       node_value (mem s') b = node_value (mem s) b).
Proof.
  induction kvs as [|[k v] kvs IH]; intros s B fuel HI HR Hf Hnd Hnew.
  - exists [], s, B. cbn [lookups fmap list_fmap app]. split_and!; try done.
  - cbn [length] in Hf. cbn [fmap list_fmap fst] in Hnd, Hnew.
    apply NoDup_cons in Hnd as [Hk Hnd].
    cbn [fits_along] in HR. destruct HR as [HF HR].
    destruct (insert_outcome s B fuel k HI HF ltac:(lia) (Hnew k ltac:(left)))
      as (a & s1 & B1 & E1 & HI1 & Hperm & Hnin & Hka & Hva & Hold & _).
    rewrite E1 in HR.
    assert (Ha : a ∈ mjoin B1) by (rewrite Hperm; by left).
    destruct (Inv_populate s1 B1 a v HI1 Ha) as (HIp & Hkeys & Hvals).
    set (sp := populate s1 (a + off_value) v) in *.
    assert (Hvp : node_value (mem sp) a = v).
    { unfold sp, populate, node_value in *. rewrite Hva. cbn. apply load_store_eq. }
    destruct (IH sp B1 fuel HIp HR) as (nodes & s' & B' & E2 & HI' & HR' & Hperm'
                                        & Hall & Hold').
    { rewrite Hperm. cbn [length]. lia. }
    { done. }
    { intros k' Hk' (b & Eb & Hb)%list_elem_of_fmap.
      rewrite (Hkeys b Hb) in Eb. rewrite Hperm in Hb.
      apply elem_of_cons in Hb as [->|Hb].
      - rewrite Hka in Eb. by subst k'.
      - destruct (Hold b Hb) as [Eb' _]. rewrite Eb' in Eb.
        apply (Hnew k' ltac:(by right)). apply list_elem_of_fmap. eauto. }
    exists (a :: nodes), s', B'. split_and!.
    + cbn [lookups]. rewrite E1. cbn [bind]. fold sp. rewrite E2. done.
    + done.
    + done.
    + rewrite Hperm', Hperm. cbn [app]. symmetry. apply Permutation_middle.
    + constructor; [|done]. cbn [fst snd].
      destruct (Hold' a Ha) as [-> ->]. rewrite (Hkeys a Ha). done.
    + intros b Hb. assert (Hb1 : b ∈ mjoin B1) by (rewrite Hperm; by right).
      destruct (Hold' b Hb1) as [-> ->]. rewrite (Hkeys b Hb1).
      rewrite (Hvals b Hb1) by (intros ->; done). by apply Hold.
Qed.

(** X23. The table as a map: on a well-formed table, a sequence of
    insertions of distinct new keys, each followed by the caller's store of
    a value, during which the table stays within the machine ranges,
    returns normally with one slot address per key; afterwards the table is
    well formed, the nodes that were there keep their keys and values, and
    a lookup of any of the inserted keys returns the slot that its
    insertion returned, where its value is read, however many keys were
    inserted and however many resizes happened in between. *)
Theorem lookups_then_find (s : CHash) (B : list (list Z)) (fuel : nat)
    (kvs : list (Z * Z)) :
  Inv s B -> fits_along fuel s kvs ->
  (length (mjoin B) + length kvs < fuel)%nat ->
  NoDup (kvs.*1) ->
  (forall k, k ∈ kvs.*1 -> k ∉ (node_key (mem s) <$> mjoin B)) ->
  exists slots s' B',
    lookups fuel s kvs = Ok (slots, s') /\ Inv s' B' /\
    length slots = length kvs /\
    NumTotalRecords s' = NumTotalRecords s + Z.of_nat (length kvs) /\
    (forall b, b ∈ mjoin B ->
       b ∈ mjoin B' /\ node_key (mem s') b = node_key (mem s) b /\
       node_value (mem s') b = node_value (mem s) b) /\
    (forall (i : nat) k v slot, kvs !! i = Some (k, v) -> slots !! i = Some slot ->
       load (mem s') slot = v /\
       exists s'', LookupPointer fuel s' k = Ok (slot, s'') /\ mem s'' = mem s').
Proof.
  intros HI HR Hf Hnd Hnew.
  destruct (lookups_spec kvs s B fuel HI HR Hf Hnd Hnew)
    as (nodes & s' & B' & E & HI' & HF & Hperm & Hall & Hold).
  pose proof (Forall2_length _ _ _ Hall) as Hlen.
  exists ((fun a => a + off_value) <$> nodes), s', B'. split_and!; try done.
  - by rewrite length_fmap.
  - rewrite (inv_total _ _ HI'), (inv_total _ _ HI), Hperm, length_app. lia.
  - intros b Hb. split; [|by apply Hold]. rewrite Hperm. apply elem_of_app. by right.
  - intros i k v slot Hi Hs.
    rewrite list_lookup_fmap in Hs.
    destruct (nodes !! i) as [a|] eqn:Ea; [|done]. injection Hs as <-.
    destruct (Forall2_lookup_lr _ _ _ _ _ _ Hall Ea Hi) as [Hk Hv].
    cbn [fst snd] in Hk, Hv. split; [exact Hv|].
    assert (Ha : a ∈ mjoin B').
    { rewrite Hperm. apply elem_of_app. left. by eapply list_elem_of_lookup_2. }
    assert (Hf' : (length (mjoin B') < fuel)%nat).
    { rewrite Hperm, length_app. lia. }
    destruct (LookupPointer_hit s' B' fuel HI' HF Hf' a Ha) as (mx & _ & E').
    rewrite Hk in E'. eexists. split; [exact E'|done].
Qed.

(** the instance: 100 keys into a fresh table of 8 buckets, which grows four
    times, to 128 buckets *)
Lemma lookups_then_find_witness :
  exists slots s' B',
    (lookups 128 (fresh_table 8 65536) hundred_keys = Ok (slots, s') /\ Inv s' B' /\
     length slots = length hundred_keys /\
     NumTotalRecords s'
     = NumTotalRecords (fresh_table 8 65536) + Z.of_nat (length hundred_keys) /\
     (forall b, b ∈ mjoin (replicate (Z.to_nat 8) (@nil Z)) ->
        b ∈ mjoin B' /\
        node_key (mem s') b = node_key (mem (fresh_table 8 65536)) b /\
        node_value (mem s') b = node_value (mem (fresh_table 8 65536)) b) /\
     (forall (i : nat) k v slot, hundred_keys !! i = Some (k, v) ->
        slots !! i = Some slot ->
        load (mem s') slot = v /\
        exists s'', LookupPointer 128 s' k = Ok (slot, s'') /\ mem s'' = mem s')) /\
    HashTableSize s' = 128.
Proof.
  assert (Hsz : match lookups 128 (fresh_table 8 65536) hundred_keys with
                | Ok (_, s') => HashTableSize s' = 128
                | _ => False
                end) by (vm_compute; reflexivity).
  destruct (lookups_then_find (fresh_table 8 65536) (replicate (Z.to_nat 8) []) 128
              hundred_keys) as (slots & s' & B' & H).
  - apply Inv_fresh_table; [vm_compute; split; [discriminate|reflexivity]|reflexivity].
  - vm_compute. repeat split.
  - vm_compute. lia.
  - apply (bool_decide_unpack _). vm_compute. reflexivity.
  - intros k _ Hin. vm_compute in Hin. by apply elem_of_nil in Hin.
  - exists slots, s', B'. split; [exact H|].
    destruct H as [E _]. rewrite E in Hsz. exact Hsz.
Defined.

(** X24. An insertion that does not resize a well-formed table appends the
    new node at the tail of the chain of the key's bucket and leaves the
    other chains as they were; the used-slot counter rises exactly when that
    bucket was empty; and the longest-chain statistic becomes the maximum of
    its old value and the number of nodes walked, which is one less than
    the length the chain now has. *)
Theorem insertion_without_resize (s : CHash) (B : list (list Z)) (fuel : nat)
    (k slot : Z) (s' : CHash) (l : list Z) :
  Inv s B -> fits s -> (length (mjoin B) < fuel)%nat ->
  k ∉ (node_key (mem s) <$> mjoin B) ->
  B !! Z.to_nat (HashPointer k mod HashTableSize s) = Some l ->
  LookupPointer fuel s k = Ok (slot, s') ->
  HashTableSize s' = HashTableSize s ->
  Inv s' (alter (snoc (slot - off_value))
            (Z.to_nat (HashPointer k mod HashTableSize s)) B) /\
  NumUsedSlots s' = NumUsedSlots s + (if decide (l = []) then 1 else 0) /\
  NumTotalRecords s' = NumTotalRecords s + 1 /\
  MaxListLength s' = Z.max (MaxListLength s) (Z.of_nat (length l)).
Proof.
  intros HI HF Hf Hk Hl E Hsz.
  destruct (LookupPointer_insert s B fuel HI HF Hf k l Hl Hk)
    as (n & s1 & B1 & EB & HI1 & _ & _ & _ & _ & _ & Esz & Eu & Et & Emx & _ & Hno & Hyes).
  destruct (inv_size _ _ HI) as [H3 _].
  destruct (needs_resize s1).
  - destruct (Hyes eq_refl) as (s2 & B2 & E2 & _ & _ & _ & Esz2 & _).
    rewrite E in E2. injection E2 as _ ->. lia.
  - specialize (Hno eq_refl). rewrite E in Hno. injection Hno as -> ->.
    replace (n + off_value - off_value) with n by lia.
    rewrite <- EB. done.
Qed.

Lemma insertion_without_resize_witness :
  match LookupPointer 4 sample_table 4104 with
  | Ok (slot, s') =>
      Inv s' (alter (snoc (slot - off_value))
                (Z.to_nat (HashPointer 4104 mod HashTableSize sample_table))
                sample_chains) /\
      NumUsedSlots s'
      = NumUsedSlots sample_table + (if decide (@nil Z = []) then 1 else 0) /\
      NumTotalRecords s' = NumTotalRecords sample_table + 1 /\
      MaxListLength s'
      = Z.max (MaxListLength sample_table) (Z.of_nat (length (@nil Z)))
  | _ => False
  end.
Proof.
  assert (HF : fits sample_table) by (unfold fits; vm_compute; split_and!; reflexivity).
  assert (Hf : (length (mjoin sample_chains) < 4)%nat) by (vm_compute; lia).
  assert (Hk : 4104 ∉ (node_key (mem sample_table) <$> mjoin sample_chains)).
  { vm_compute. intros H. apply elem_of_cons in H as [H|H]; [discriminate|].
    by apply elem_of_nil in H. }
  assert (Hl : sample_chains !! Z.to_nat (HashPointer 4104 mod HashTableSize sample_table)
               = Some []) by (vm_compute; reflexivity).
  destruct (LookupPointer 4 sample_table 4104) as [[slot s']| | |] eqn:E;
    [|vm_compute in E; discriminate ..].
  assert (Hsz : HashTableSize s' = HashTableSize sample_table).
  { vm_compute in E. injection E as _ <-. reflexivity. }
  exact (insertion_without_resize sample_table sample_chains 4 4104 slot s' []
           sample_table_Inv HF Hf Hk Hl E Hsz).
Defined.

(** * C3: when an insertion makes the table grow *)

Lemma read_chain_spec (l : list Z) : forall (fuel : nat) (m : gmap Z Z) (p : Z),
  chain m p l -> (length l <= fuel)%nat -> read_chain fuel m p = l.
Proof.
  induction l as [|a l IH]; intros fuel m p Hc Hf.
  - cbn in Hc. subst p. by destruct fuel.
  - destruct Hc as (-> & Ha & Hc). cbn [length] in Hf.
    destruct fuel as [|fuel]; [lia|]. cbn [read_chain].
    destruct (Z.eqb_spec a 0); [done|]. f_equal. apply IH; [done|lia].
Qed.

(** the chains of a well-formed table are those read back from its memory *)
Lemma chains_of_Inv (s : CHash) (B : list (list Z)) (fuel : nat) :
  Inv s B -> (length (mjoin B) <= fuel)%nat -> chains_of fuel s = B.
Proof.
  intros HI Hf. destruct (inv_size _ _ HI) as (Hsz & Hlen).
  unfold chains_of. apply list_eq. intros i.
  rewrite list_lookup_fmap.
  destruct (B !! i) as [l|] eqn:Hi.
  - assert (Hlt : (i < length B)%nat) by (by eapply lookup_lt_Some).
    rewrite lookup_seqZ_lt by lia. cbn [fmap option_fmap option_map]. f_equal.
    rewrite Z.add_0_l. apply read_chain_spec.
    + by apply (inv_chains _ _ HI).
    + pose proof (chain_length_le B i l Hi). lia.
  - apply lookup_ge_None in Hi. rewrite lookup_seqZ_ge by lia. done.
Qed.

Lemma six_keys_Inv : Inv six_keys_table (chains_of 8 six_keys_table).
Proof.
  pose proof (Inv_fresh_table 8 65536 ltac:(vm_compute; split; [discriminate|reflexivity])
                ltac:(reflexivity)) as HI.
  destruct (lookups_spec six_keys (fresh_table 8 65536) _ 8 HI)
    as (nodes & s' & B' & E & HI' & _ & Hperm & Hall & _).
  - vm_compute. repeat split.
  - vm_compute. lia.
  - apply (bool_decide_unpack _). vm_compute. reflexivity.
  - intros k _ Hin. vm_compute in Hin. by apply elem_of_nil in Hin.
  - assert (Es : six_keys_table = s') by (unfold six_keys_table; by rewrite E).
    rewrite Es. rewrite (chains_of_Inv s' B' 8 HI'); [done|].
    rewrite Hperm, length_app, (Forall2_length _ _ _ Hall). vm_compute. lia.
Qed.

(** C3.  The insertion of a new key into a well-formed table returns, and
    it doubles the bucket array exactly when the test of the code holds of
    the three numbers after the insertion (used slots, total records,
    longest-chain statistic); a lookup that finds its key never resizes.
    For tables of at most 5242880 buckets with fewer than 2^24 records the
    test of the code is the documented one: more than 80% of the slots
    used, or more than 5 records per used slot, or a statistic above 10.
    It is not for larger tables, where the single-precision product rounds:
    with 5242881 buckets the insertion that brings the used-slot count to
    4194305, which is more than 80% of the length (4194304.8), does not
    resize, because [(unsigned int)((float)5242881 * 0.8f)] is 4194305. *)
Theorem resize_trigger (s : CHash) (B : list (list Z)) (fuel : nat) (k : Z)
    (l : list Z) :
  Inv s B -> fits s -> (length (mjoin B) < fuel)%nat ->
  k ∉ (node_key (mem s) <$> mjoin B) ->
  B !! Z.to_nat (HashPointer k mod HashTableSize s) = Some l ->
  let size := HashTableSize s in
  let used := NumUsedSlots s + (if decide (l = []) then 1 else 0) in
  let total := NumTotalRecords s + 1 in
  let mx := Z.max (MaxListLength s) (Z.of_nat (length l)) in
  (exists slot s',
     LookupPointer fuel s k = Ok (slot, s') /\
     (HashTableSize s' = 2 * size <-> resize_test size used total mx = true) /\
     (HashTableSize s' = size <-> resize_test size used total mx = false)) /\
  (size <= 5242880 -> total < 2 ^ 24 ->
   (resize_test size used total mx = true <-> resize_wanted size used total mx)) /\
  (size = 5242881 -> used = 4194305 -> total < 2 ^ 24 -> total <= 5 * used ->
   mx <= 10 ->
   resize_test size used total mx = false /\ resize_wanted size used total mx) /\
  (forall a, a ∈ mjoin B ->
     exists slot s',
       LookupPointer fuel s (node_key (mem s) a) = Ok (slot, s') /\
       HashTableSize s' = size /\ HashTable s' = HashTable s).
Proof.
  intros HI HF Hf Hk Hl size used total mx.
  destruct (LookupPointer_insert s B fuel HI HF Hf k l Hl Hk)
    as (n & s1 & B1 & EB & HI1 & Hperm & _ & _ & _ & _ & Esz & Eu & Et & Emx & _
        & Hno & Hyes).
  destruct (inv_size _ _ HI) as [H3 _].
  assert (En : needs_resize s1 = resize_test size used total mx).
  { unfold needs_resize. by rewrite Esz, Eu, Et, Emx. }
  assert (Hu : 1 <= used <= total).
  { fold used in Eu. fold total in Et. rewrite <- Eu, <- Et. split.
    - apply (used_pos s1 B1 HI1). rewrite Et. unfold total.
      pose proof (inv_total _ _ HI). lia.
    - rewrite (inv_used _ _ HI1), (inv_total _ _ HI1).
      pose proof (used_le_total B1). lia. }
  split_and!.
  - destruct (resize_test size used total mx) eqn:Et'.
    + destruct (Hyes En) as (s2 & B2 & E2 & _ & _ & _ & Esz2 & _).
      exists (n + off_value), s2. fold size in Esz2. split_and!; [done| |].
      * split; done.
      * split; [lia|done].
    + exists (n + off_value), s1. fold size in Esz. split_and!; [by apply Hno| |].
      * split; [lia|done].
      * split; done.
  - intros Hs Ht. apply resize_test_exact; unfold size; lia.
  - intros Hs Hu' Ht Ht' Hmx. split.
    + unfold resize_test. rewrite probe_threshold by lia. rewrite Hs, Hu'.
      assert (E : f32_to_uint (f32_mul (f32_of_int 5242881) f32_0_8) = 4194305)
        by (vm_compute; reflexivity).
      rewrite E.
      destruct (Z.ltb_spec 4194305 4194305); [lia|].
      destruct (Z.ltb_spec (5 * 4194305) total); [lia|].
      destruct (Z.ltb_spec 10 mx); [lia|]. done.
    + left. lia.
  - intros a Ha.
    destruct (LookupPointer_hit s B fuel HI HF Hf a Ha) as (mx' & _ & E).
    eexists _, _. split; [exact E|]. done.
Qed.

(** the instance: the seventh key into a table of 8 buckets, six of them
    used; 7 exceeds 80% of 8 and the table grows to 16 buckets *)
Lemma resize_trigger_witness :
  let s := six_keys_table in
  let l := @nil Z in
  let size := HashTableSize s in
  let used := NumUsedSlots s + (if decide (l = []) then 1 else 0) in
  let total := NumTotalRecords s + 1 in
  let mx := Z.max (MaxListLength s) (Z.of_nat (length l)) in
  ((exists slot s',
      LookupPointer 8 s 4184 = Ok (slot, s') /\
      (HashTableSize s' = 2 * size <-> resize_test size used total mx = true) /\
      (HashTableSize s' = size <-> resize_test size used total mx = false)) /\
   (size <= 5242880 -> total < 2 ^ 24 ->
    (resize_test size used total mx = true <-> resize_wanted size used total mx)) /\
   (size = 5242881 -> used = 4194305 -> total < 2 ^ 24 -> total <= 5 * used ->
    mx <= 10 ->
    resize_test size used total mx = false /\ resize_wanted size used total mx) /\
   (forall a, a ∈ mjoin (chains_of 8 s) ->
      exists slot s',
        LookupPointer 8 s (node_key (mem s) a) = Ok (slot, s') /\
        HashTableSize s' = size /\ HashTable s' = HashTable s)) /\
  (size, used, total, mx) = (8, 7, 7, 0) /\
  resize_test size used total mx = true.
Proof.
  cbv zeta. split; [|split; vm_compute; reflexivity].
  apply (resize_trigger six_keys_table (chains_of 8 six_keys_table) 8 4184 []
           six_keys_Inv).
  - unfold fits. vm_compute. split_and!; reflexivity.
  - vm_compute. lia.
  - vm_compute. intros H. repeat (apply elem_of_cons in H as [H|H]; [discriminate|]).
    by apply elem_of_nil in H.
  - vm_compute. reflexivity.
Defined.

(** * C9: the result of the export *)

Lemma sum_u32_counts (cs : list Z) :
  (forall c, c ∈ cs -> 0 <= c) -> foldr Z.add 0 cs < 2 ^ 32 ->
  sum_u32 cs = foldr Z.add 0 cs.
Proof.
  intros Hpos Hs. unfold sum_u32.
  pose proof (sum_u32_exact (fun c => c) cs 0) as E.
  rewrite list_fmap_id in E. rewrite E; [done|done|done|].
  rewrite Z.add_0_l. done.
Qed.

(** C9.  [CopyHashToArray] returns null with [OutArraySize] 0 whenever the
    copy allocator is absent or the table counts no records, in either mode
    and in any state.  Otherwise, on a well-formed table whose nodes all
    hold a value, it returns with [OutArraySize] the sum of the record
    counts that the values report (counts that are not negative and add up
    to less than 2^32, the range of the [unsigned int] that holds the sum),
    and the array pointer is null exactly when that sum is zero. *)
Theorem export_result {V : Type} `{!ValueType V}
    (s : CHash) (fuel : nat) (InCopyAllocator cb : Z)
    (bCopyMemberHashTables : bool) (st : V) :
  (InCopyAllocator = 0 \/ NumTotalRecords s = 0 ->
   CopyHashToArray fuel s InCopyAllocator cb bCopyMemberHashTables st
   = Ok (mkCopied 0 0 (mem s) st cb)) /\
  (forall B : list (list Z),
     Inv s B -> (length (mjoin B) <= fuel)%nat ->
     (forall v, v ∈ values_of s B -> v <> 0) ->
     InCopyAllocator <> 0 -> brk s <= cb -> Z.of_nat (length (mjoin B)) < 2 ^ 31 ->
     let counts := fst (counted (values_of s B) st) in
     (forall c, c ∈ counts -> 0 <= c) -> foldr Z.add 0 counts < 2 ^ 32 ->
     exists r,
       CopyHashToArray fuel s InCopyAllocator cb bCopyMemberHashTables st = Ok r /\
       OutArraySize r = foldr Z.add 0 counts /\
       (pArrayOfPointers r = 0 <-> OutArraySize r = 0) /\
       (OutArraySize r <> 0 -> pArrayOfPointers r = align_up cb sizeof_ptr)).
Proof.
  split.
  - intros H. unfold CopyHashToArray.
    destruct (Z.eqb_spec InCopyAllocator 0); [done|].
    destruct (Z.eqb_spec (NumTotalRecords s) 0);
      [by rewrite andb_false_r|by destruct H].
  - intros B HI Hf Hv Hica Hcb Hl counts Hpos Hsum.
    pose proof (CopyHashToArray_spec s B fuel InCopyAllocator cb
                  bCopyMemberHashTables st HI Hf Hv Hica Hcb Hl) as E.
    cbv zeta in E. fold counts in E.
    rewrite (sum_u32_counts counts Hpos Hsum) in E.
    destruct (inv_table _ _ HI) as (Htpos & _ & Htb).
    destruct (inv_size _ _ HI) as (Hsz & _).
    destruct (align_up_8 cb) as [Hal _]. change 8 with sizeof_ptr in Hal at 1.
    assert (Hbrk : 0 < brk s) by (unfold table_bytes, sizeof_ptr in Htb; lia).
    eexists. split; [exact E|].
    destruct (Z.eqb_spec (foldr Z.add 0 counts) 0) as [E0|E0];
      cbn [OutArraySize pArrayOfPointers]; split_and!; try done; lia.
Qed.

(** the instance: one value with one record, deep mode *)
Lemma export_result_witness :
  let counts := fst (counted (values_of sample_table sample_chains)
                       ([] : list (Z * Z))) in
  exists r,
    CopyHashToArray 1 sample_table 1 (brk sample_table) true [] = Ok r /\
    OutArraySize r = foldr Z.add 0 counts /\
    (pArrayOfPointers r = 0 <-> OutArraySize r = 0) /\
    (OutArraySize r <> 0 ->
     pArrayOfPointers r = align_up (brk sample_table) sizeof_ptr).
Proof.
  apply (proj2 (export_result sample_table 1 1 (brk sample_table) true [])
           sample_chains sample_table_Inv).
  - vm_compute. lia.
  - exact sample_values_set.
  - discriminate.
  - lia.
  - vm_compute. reflexivity.
  - vm_compute. intros c H. apply elem_of_cons in H as [->|H]; [discriminate|].
    by apply elem_of_nil in H.
  - vm_compute. reflexivity.
Defined.

(** * C4 and C7: runs of insertions into a fresh table *)

(** an insertion followed by the caller's store, by the outcome of the
    resize test *)
Lemma insert_store (s : CHash) (B : list (list Z)) (fuel : nat) (k v : Z)
    (l : list Z) :
  Inv s B -> fits s -> (length (mjoin B) < fuel)%nat ->
  k ∉ (node_key (mem s) <$> mjoin B) ->
  B !! Z.to_nat (HashPointer k mod HashTableSize s) = Some l ->
  let used := NumUsedSlots s + (if decide (l = []) then 1 else 0) in
  let total := NumTotalRecords s + 1 in
  let mx := Z.max (MaxListLength s) (Z.of_nat (length l)) in
  exists a s1 B1,
    LookupPointer fuel s k = Ok (a + off_value, s1) /\
    Inv (populate s1 (a + off_value) v) B1 /\
    mjoin B1 ≡ₚ a :: mjoin B /\ (a ∉ mjoin B) /\
    node_key (mem (populate s1 (a + off_value) v)) a = k /\
    (forall b, b ∈ mjoin B ->
       node_key (mem (populate s1 (a + off_value) v)) b = node_key (mem s) b) /\
    NumTotalRecords (populate s1 (a + off_value) v) = total /\
    brk s <= brk (populate s1 (a + off_value) v) <= brk s + 38 + 2 * table_bytes s /\
    (resize_test (HashTableSize s) used total mx = false ->
     HashTableSize (populate s1 (a + off_value) v) = HashTableSize s /\
     NumUsedSlots (populate s1 (a + off_value) v) = used /\
     MaxListLength (populate s1 (a + off_value) v) = mx /\
     brk (populate s1 (a + off_value) v) <= brk s + 31) /\
    (resize_test (HashTableSize s) used total mx = true ->
     HashTableSize (populate s1 (a + off_value) v) = 2 * HashTableSize s).
Proof.
  intros HI HF Hf Hk Hl used total mx.
  destruct (LookupPointer_insert s B fuel HI HF Hf k l Hl Hk)
    as (n & s1 & B1 & EB & HI1 & Hperm & Hnin & Hkn & Hvn & Hold & Esz & Eu & Et
        & Emx & Eb & Hno & Hyes).
  destruct (inv_size _ _ HI) as [H3 _].
  assert (En : needs_resize s1 = resize_test (HashTableSize s) used total mx).
  { unfold needs_resize. by rewrite Esz, Eu, Et, Emx. }
  assert (Hn1 : n ∈ mjoin B1) by (rewrite Hperm; by left).
  destruct (resize_test (HashTableSize s) used total mx) eqn:Et'.
  - destruct (Hyes En) as (s2 & B2 & E2 & HI2 & Hperm2 & Hsame & Esz2 & Eb2).
    assert (Hn2 : n ∈ mjoin B2) by (by rewrite Hperm2).
    destruct (Inv_populate s2 B2 n v HI2 Hn2) as (HIp & Hkeys & _).
    destruct (populate_fields s2 (n + off_value) v) as (F1 & F2 & F3).
    exists n, s2, B2. split_and!; try done.
    + by rewrite Hperm2.
    + rewrite (Hkeys n Hn2). by destruct (Hsame n Hn1) as [-> _].
    + intros b Hb. assert (Hb1 : b ∈ mjoin B1) by (rewrite Hperm; by right).
      assert (Hb2 : b ∈ mjoin B2) by (by rewrite Hperm2).
      rewrite (Hkeys b Hb2). destruct (Hsame b Hb1) as [-> _]. by apply Hold.
    + rewrite F2, (inv_total _ _ HI2), Hperm2, <- (inv_total _ _ HI1). done.
    + rewrite F3. lia.
    + rewrite F3. lia.
    + intros _. by rewrite F1.
  - specialize (Hno En).
    destruct (Inv_populate s1 B1 n v HI1 Hn1) as (HIp & Hkeys & _).
    destruct (populate_fields s1 (n + off_value) v) as (F1 & F2 & F3).
    assert (F4 : NumUsedSlots (populate s1 (n + off_value) v) = NumUsedSlots s1 /\
                 MaxListLength (populate s1 (n + off_value) v) = MaxListLength s1).
    { unfold populate. by destruct (_ =? 0). }
    destruct F4 as [F4 F5].
    exists n, s1, B1. split_and!; try done.
    + by rewrite (Hkeys n Hn1).
    + intros b Hb. assert (Hb1 : b ∈ mjoin B1) by (rewrite Hperm; by right).
      rewrite (Hkeys b Hb1). by apply Hold.
    + by rewrite F2.
    + rewrite F3. lia.
    + rewrite F3. unfold table_bytes. sz. lia.
    + intros _. rewrite F1, F4, F5, F3. split_and!; try done. lia.
Qed.

Lemma mod_mod_mul (a n q : Z) : 0 < n -> 0 < q -> (a mod (q * n)) mod n = a mod n.
Proof.
  intros Hn Hq. rewrite (Z.mod_eq a (q * n)) by lia.
  replace (a - q * n * (a / (q * n))) with (a + (- (q * (a / (q * n)))) * n) by lia.
  by rewrite Z.mod_add by lia.
Qed.

(** chains of at most one node: as many used slots as records *)
Lemma used_eq_total (s : CHash) (B : list (list Z)) (n : Z) :
  Inv s B -> 0 < n -> (n | HashTableSize s) ->
  NoDup (key_bucket n s <$> mjoin B) ->
  NumUsedSlots s = NumTotalRecords s.
Proof.
  intros HI Hn Hdiv Hnd.
  rewrite (inv_used _ _ HI), (inv_total _ _ HI). f_equal.
  assert (Hone : forall (i : nat) l, B !! i = Some l -> (length l <= 1)%nat).
  { intros i l Hi. destruct l as [|a [|b l]]; cbn [length]; [lia|lia|exfalso].
    assert (Ha : a ∈ a :: b :: l) by left.
    assert (Hb : b ∈ a :: b :: l) by (right; left).
    pose proof (inv_keys _ _ HI i _ a Hi Ha) as Ka.
    pose proof (inv_keys _ _ HI i _ b Hi Hb) as Kb.
    assert (Hab : a <> b).
    { pose proof (bucket_NoDup B i _ (inv_nodup _ _ HI) Hi) as Hn'.
      apply NoDup_cons in Hn' as [Hn' _]. intros ->. apply Hn'. left. }
    assert (E : HashPointer (node_key (mem s) a) mod n
                = HashPointer (node_key (mem s) b) mod n).
    { destruct Hdiv as [q Hq]. destruct (inv_size _ _ HI) as [H3 _].
      assert (0 < q) by nia.
      rewrite <- (mod_mod_mul (HashPointer (node_key (mem s) a)) n q) by done.
      rewrite <- (mod_mod_mul (HashPointer (node_key (mem s) b)) n q) by done.
      by rewrite <- Hq, Ka, Kb. }
    pose proof (elem_of_bucket B i _ a Hi Ha) as Ja.
    pose proof (elem_of_bucket B i _ b Hi Hb) as Jb.
    apply list_elem_of_lookup in Ja as [ia Ia].
    apply list_elem_of_lookup in Jb as [ib Ib].
    assert (ia = ib).
    { eapply NoDup_lookup; [exact Hnd| |]; rewrite list_lookup_fmap;
        [by rewrite Ia|rewrite Ib; unfold key_bucket; cbn; by rewrite E]. }
    subst ib. rewrite Ia in Ib. by injection Ib. }
  clear -Hone. induction B as [|l B IH]; [done|].
  rewrite filter_cons. change (mjoin (l :: B)) with (l ++ mjoin B).
  rewrite length_app.
  assert (IH' : length (filter (fun l => l <> []) B) = length (mjoin B)).
  { apply IH. intros i l' Hi. apply (Hone (S i) l' Hi). }
  pose proof (Hone 0%nat l eq_refl) as H0.
  destruct l as [|a [|b l]]; cbn [length] in *; [|  |lia].
  - destruct (decide (@nil Z <> [])) as [H|H]; [by destruct H|]. cbn [length]. lia.
  - destruct (decide ([a] <> [])) as [H|H]; [|by destruct H]. cbn [length]. lia.
Qed.

Lemma lookups_app (fuel : nat) (l1 l2 : list (Z * Z)) :
  forall (s s1 s2 : CHash) (sl1 sl2 : list Z),
  lookups fuel s l1 = Ok (sl1, s1) -> lookups fuel s1 l2 = Ok (sl2, s2) ->
  lookups fuel s (l1 ++ l2) = Ok (sl1 ++ sl2, s2).
Proof.
  induction l1 as [|[k v] l1 IH]; intros s s1 s2 sl1 sl2 E1 E2.
  - cbn in E1. injection E1 as <- <-. done.
  - cbn [lookups app] in *.
    apply bind_Ok in E1 as ([slot s0] & E & E1). rewrite E. cbn [bind].
    apply bind_Ok in E1 as ([sl s3] & E3 & E1). injection E1 as <- <-.
    rewrite (IH _ _ _ _ _ E3 E2). done.
Qed.

Lemma fresh_table_fields (n b : Z) :
  n <> 0 ->
  HashTableSize (fresh_table n b) = n /\ NumUsedSlots (fresh_table n b) = 0 /\
  NumTotalRecords (fresh_table n b) = 0 /\ MaxListLength (fresh_table n b) = 0 /\
  brk (fresh_table n b) = align_up b sizeof_ptr + u64 (n * sizeof_ptr).
Proof.
  intros Hn. unfold fresh_table, construct.
  destruct (Z.eqb_spec n 0); [done|]. change (1 =? 0) with false. cbn [negb andb].
  unfold AllocateBytes. done.
Qed.

Lemma key_bucket_insert (n : Z) (s sp : CHash) (B B1 : list (list Z)) (a k : Z) :
  mjoin B1 ≡ₚ a :: mjoin B -> node_key (mem sp) a = k ->
  (forall b, b ∈ mjoin B -> node_key (mem sp) b = node_key (mem s) b) ->
  key_bucket n sp <$> mjoin B1
  ≡ₚ HashPointer k mod n :: (key_bucket n s <$> mjoin B).
Proof.
  intros Hperm Hka Hkeys. rewrite Hperm. cbn [fmap list_fmap].
  unfold key_bucket at 1. rewrite Hka. apply Permutation_cons; [done|].
  assert (E : key_bucket n sp <$> mjoin B = key_bucket n s <$> mjoin B);
    [|by rewrite E].
  apply list_fmap_ext. intros i b Hb. unfold key_bucket.
  rewrite Hkeys; [done|]. by eapply list_elem_of_lookup_2.
Qed.

(** keys that fall into different buckets, none of them occupied, fill a
    table without a resize as long as no more than 80% of the buckets are
    used afterwards *)
Lemma fill_distinct (n : Z) (fuel : nat) (kvs : list (Z * Z)) :
  forall (s : CHash) (B : list (list Z)),
  Inv s B -> HashTableSize s = n -> n <= 5242880 ->
  NumUsedSlots s = NumTotalRecords s -> MaxListLength s = 0 ->
  brk s + 31 * Z.of_nat (length kvs) < 2 ^ 63 - 32 ->
  (length (mjoin B) + length kvs <= fuel)%nat ->
  5 * (NumTotalRecords s + Z.of_nat (length kvs)) <= 4 * n ->
  NoDup (((fun kv => HashPointer kv.1 mod n) <$> kvs) ++ (key_bucket n s <$> mjoin B)) ->
  exists slots s' B',
    lookups fuel s kvs = Ok (slots, s') /\ Inv s' B' /\
    HashTableSize s' = n /\ NumUsedSlots s' = NumTotalRecords s' /\
    NumTotalRecords s' = NumTotalRecords s + Z.of_nat (length kvs) /\
    MaxListLength s' = 0 /\ brk s' <= brk s + 31 * Z.of_nat (length kvs) /\
    key_bucket n s' <$> mjoin B'
    ≡ₚ ((fun kv => HashPointer kv.1 mod n) <$> kvs) ++ (key_bucket n s <$> mjoin B).
Proof.
  induction kvs as [|[k v] kvs IH]; intros s B HI Hsz Hn Hut Hmx Hb Hf H80 Hnd.
  - exists [], s, B. cbn [lookups length fmap list_fmap app]. split_and!; try done; lia.
  - cbn [length] in Hb, Hf, H80. cbn [fmap list_fmap app fst] in Hnd.
    apply NoDup_cons in Hnd as [Hh Hnd].
    pose proof (inv_total _ _ HI) as Htot.
    assert (HF : fits s).
    { unfold fits. rewrite Hsz. change (2 ^ 30) with 1073741824.
      change (2 ^ 32) with 4294967296. split_and!; lia. }
    destruct (slot_of_ok s B HI (fits_in_range _ HF) k) as [_ Hrange].
    destruct (bucket_of_key s B HI (fits_in_range _ HF) k) as [l Hl].
    rewrite Hsz in Hl, Hrange.
    assert (Hin : forall a, a ∈ mjoin B -> key_bucket n s a <> HashPointer k mod n).
    { intros a Ha E. apply Hh, elem_of_app. right.
      apply list_elem_of_fmap. exists a. split; [symmetry; exact E|exact Ha]. }
    assert (l = []) as ->.
    { destruct l as [|a l]; [done|exfalso].
      assert (Ha : a ∈ a :: l) by left.
      apply (Hin a (elem_of_bucket B _ _ a Hl Ha)).
      unfold key_bucket. rewrite <- Hsz at 1.
      rewrite (inv_keys _ _ HI _ _ a Hl Ha). lia. }
    assert (Hk : k ∉ (node_key (mem s) <$> mjoin B)).
    { intros (a & Ek & Ha)%list_elem_of_fmap. apply (Hin a Ha).
      unfold key_bucket. by rewrite <- Ek. }
    pose proof (insert_store s B fuel k v [] HI HF ltac:(lia) Hk) as H.
    rewrite Hsz in H. specialize (H Hl). cbv zeta in H.
    destruct H as (a & s1 & B1 & E1 & HIp & Hperm & Hnin & Hka & Hkeys & Etot & _
                   & Hno & _).
    set (sp := populate s1 (a + off_value) v) in *.
    destruct (decide (@nil Z = [])) as [_|Hne]; [|done].
    cbn [length] in Hno. change (Z.of_nat 0) with 0 in Hno.
    rewrite Hmx, Z.max_id, Hut in Hno.
    destruct Hno as (Esz & Eu & Em & Eb).
    { destruct (resize_test n (NumTotalRecords s + 1) (NumTotalRecords s + 1) 0) eqn:Et;
        [|done].
      apply resize_test_exact in Et; [|lia|change (2 ^ 24) with 16777216; lia ..].
      unfold resize_wanted in Et. lia. }
    destruct (IH sp B1) as (slots & s' & B' & E2 & HI' & Esz' & Eut' & Etot' & Em'
                            & Eb' & Hperm'); try done.
    all: try lia.
    + rewrite Hperm. cbn [length]. lia.
    + rewrite (key_bucket_insert n s sp B B1 a k Hperm Hka Hkeys).
      apply (NoDup_Permutation_proper _ _ (Permutation_middle _ _ _)).
      by apply NoDup_cons.
    + exists (a + off_value :: slots), s', B'. cbn [length].
      split_and!; try done; try lia.
      * cbn [lookups]. rewrite E1. cbn [bind]. fold sp. by rewrite E2.
      * rewrite Hperm', (key_bucket_insert n s sp B B1 a k Hperm Hka Hkeys).
        cbn [fmap list_fmap app fst]. symmetry. apply Permutation_middle.
Qed.

(** C4 (as amended).  Keys that fall into different buckets of a freshly
    constructed table of [n] buckets cause no resize as long as the used
    slots do not exceed 80% of [n], and every key counts as a used slot; the
    first key that brings the used-slot count above 80% of [n] causes
    exactly one resize, to [2 * n] buckets, after which each key still has
    a used slot of its own.  For 8 buckets: six such keys leave a table of 8
    buckets with 6 used slots, and the seventh grows it to 16 buckets with 7
    used slots. *)
Theorem no_collisions_fill (n b : Z) (fuel : nat) (kvs : list (Z * Z)) (k v : Z) :
  3 <= n <= 5242880 -> 0 < b < 2 ^ 62 -> (length kvs < fuel)%nat ->
  NoDup ((fun kv => HashPointer kv.1 mod n) <$> (kvs ++ [(k, v)])) ->
  5 * Z.of_nat (length kvs) <= 4 * n < 5 * (Z.of_nat (length kvs) + 1) ->
  (exists slots s,
     lookups fuel (fresh_table n b) kvs = Ok (slots, s) /\
     HashTableSize s = n /\
     NumUsedSlots s = Z.of_nat (length kvs) /\
     NumTotalRecords s = Z.of_nat (length kvs)) /\
  (exists slots s,
     lookups fuel (fresh_table n b) (kvs ++ [(k, v)]) = Ok (slots, s) /\
     HashTableSize s = 2 * n /\
     NumUsedSlots s = Z.of_nat (length kvs) + 1 /\
     NumTotalRecords s = Z.of_nat (length kvs) + 1).
Proof.
  intros Hn Hb Hf Hnd H80.
  change (2 ^ 62) with 4611686018427387904 in Hb.
  rewrite fmap_app in Hnd. cbn [fmap list_fmap fst] in Hnd.
  apply NoDup_app in Hnd as (Hnd & Hh & _).
  pose proof (Inv_fresh_table n b ltac:(change (2 ^ 30) with 1073741824; lia)
                ltac:(lia)) as HI0.
  destruct (fresh_table_fields n b ltac:(lia)) as (F1 & F2 & F3 & F4 & F5).
  destruct (align_up_8 b) as [Hal _]. change 8 with sizeof_ptr in Hal at 1.
  rewrite u64_small in F5
    by (unfold sizeof_ptr; change (2 ^ 64) with 18446744073709551616; lia).
  unfold sizeof_ptr in F5, Hal.
  destruct (fill_distinct n fuel kvs (fresh_table n b) _ HI0 F1 ltac:(lia)
              ltac:(congruence) F4)
    as (slots & s6 & B6 & E6 & HI6 & Esz & Eut & Etot & Emx & Ebrk & Hperm).
  { rewrite F5. change (2 ^ 63) with 9223372036854775808. lia. }
  { rewrite join_replicate_nil. cbn [length]. lia. }
  { rewrite F3. lia. }
  { rewrite join_replicate_nil. cbn [fmap list_fmap]. by rewrite app_nil_r. }
  rewrite join_replicate_nil in Hperm. cbn [fmap list_fmap] in Hperm.
  rewrite app_nil_r in Hperm. rewrite F3, Z.add_0_l in Etot.
  split.
  - exists slots, s6. split_and!; try done. congruence.
  - assert (HF : fits s6).
    { unfold fits. rewrite Esz, Etot. change (2 ^ 30) with 1073741824.
      change (2 ^ 32) with 4294967296. change (2 ^ 63) with 9223372036854775808.
      split_and!; lia. }
    destruct (slot_of_ok s6 B6 HI6 (fits_in_range _ HF) k) as [_ Hrange].
    destruct (bucket_of_key s6 B6 HI6 (fits_in_range _ HF) k) as [l Hl].
    rewrite Esz in Hl, Hrange.
    assert (Hin : forall a, a ∈ mjoin B6 -> key_bucket n s6 a <> HashPointer k mod n).
    { intros a Ha E. apply (Hh (HashPointer k mod n)); [|left].
      rewrite <- Hperm. apply list_elem_of_fmap. exists a.
      split; [symmetry; exact E|exact Ha]. }
    assert (l = []) as ->.
    { destruct l as [|a l]; [done|exfalso].
      assert (Ha : a ∈ a :: l) by left.
      apply (Hin a (elem_of_bucket B6 _ _ a Hl Ha)).
      unfold key_bucket. rewrite <- Esz at 1.
      rewrite (inv_keys _ _ HI6 _ _ a Hl Ha). lia. }
    assert (Hk : k ∉ (node_key (mem s6) <$> mjoin B6)).
    { intros (a & Ek & Ha)%list_elem_of_fmap. apply (Hin a Ha).
      unfold key_bucket. by rewrite <- Ek. }
    pose proof (inv_total _ _ HI6) as Htot6.
    pose proof (insert_store s6 B6 fuel k v [] HI6 HF ltac:(lia) Hk) as H.
    rewrite Esz in H. specialize (H Hl). cbv zeta in H.
    destruct H as (a & s1 & B1 & E1 & HIp & Hperm1 & Hnin & Hka & Hkeys & Etot1 & _
                   & _ & Hyes).
    set (sp := populate s1 (a + off_value) v) in *.
    destruct (decide (@nil Z = [])) as [_|Hne]; [|done].
    cbn [length] in Hyes. change (Z.of_nat 0) with 0 in Hyes.
    rewrite Emx, Z.max_id, Eut, Etot in Hyes.
    assert (Esz1 : HashTableSize sp = 2 * n).
    { apply Hyes. apply resize_test_exact;
        [lia|change (2 ^ 24) with 16777216; lia ..|]. left. lia. }
    exists (slots ++ [a + off_value]), sp. split_and!.
    + apply (lookups_app _ _ _ _ s6 _ _ _ E6). cbn [lookups]. rewrite E1.
      cbn [bind]. done.
    + done.
    + rewrite (used_eq_total sp B1 n HIp ltac:(lia)); [lia| |].
      * rewrite Esz1. by exists 2.
      * rewrite (key_bucket_insert n s6 sp B6 B1 a k Hperm1 Hka Hkeys), Hperm.
        apply NoDup_cons. split; [|done]. intros Hx. by apply (Hh _ Hx); left.
    + lia.
Qed.

(** the instance: six keys in six buckets of a table of 8, and 4184 in a
    seventh *)
Lemma no_collisions_fill_witness :
  (exists slots s,
     lookups 8 (fresh_table 8 65536) six_keys = Ok (slots, s) /\
     HashTableSize s = 8 /\
     NumUsedSlots s = Z.of_nat (length six_keys) /\
     NumTotalRecords s = Z.of_nat (length six_keys)) /\
  (exists slots s,
     lookups 8 (fresh_table 8 65536) (six_keys ++ [(4184, 4185)]) = Ok (slots, s) /\
     HashTableSize s = 2 * 8 /\
     NumUsedSlots s = Z.of_nat (length six_keys) + 1 /\
     NumTotalRecords s = Z.of_nat (length six_keys) + 1).
Proof.
  apply (no_collisions_fill 8 65536 8 six_keys 4184 4185).
  - lia.
  - vm_compute. split; reflexivity.
  - vm_compute. lia.
  - apply (bool_decide_unpack _). vm_compute. reflexivity.
  - vm_compute. split; [discriminate|reflexivity].
Defined.

Lemma node_key_insert (s sp : CHash) (B B1 : list (list Z)) (a k : Z) :
  mjoin B1 ≡ₚ a :: mjoin B -> node_key (mem sp) a = k ->
  (forall b, b ∈ mjoin B -> node_key (mem sp) b = node_key (mem s) b) ->
  node_key (mem sp) <$> mjoin B1 ≡ₚ k :: (node_key (mem s) <$> mjoin B).
Proof.
  intros Hperm Hka Hkeys. rewrite Hperm. cbn [fmap list_fmap].
  rewrite Hka. apply Permutation_cons; [done|].
  assert (E : node_key (mem sp) <$> mjoin B = node_key (mem s) <$> mjoin B);
    [|by rewrite E].
  apply list_fmap_ext. intros i b Hb. apply Hkeys. by eapply list_elem_of_lookup_2.
Qed.

Lemma key_bucket_eq (n : Z) (s : CHash) (a : Z) :
  key_bucket n s a = HashPointer (node_key (mem s) a) mod n.
Proof. reflexivity. Qed.

(** when every key of the table falls into bucket [h], the chain of [h]
    holds all the nodes *)
Lemma same_bucket_chain (s : CHash) (B : list (list Z)) (h : Z) (l : list Z) :
  Inv s B -> in_range s ->
  (forall a, a ∈ mjoin B -> key_bucket (HashTableSize s) s a = h) ->
  B !! Z.to_nat h = Some l -> length l = length (mjoin B).
Proof.
  intros HI HR Hall Hl. apply Permutation_length, NoDup_Permutation.
  - by apply (bucket_NoDup B _ l (inv_nodup _ _ HI) Hl).
  - by apply (inv_nodup _ _ HI).
  - intros a. split.
    + intros Ha. by eapply elem_of_bucket.
    + intros Ha. destruct (node_bucket s B HI a Ha) as (l' & Hl' & Ha').
      specialize (Hall a Ha). rewrite key_bucket_eq in Hall. rewrite Hall in Hl'.
      rewrite Hl in Hl'. by injection Hl' as ->.
Qed.

(** up to five keys that fall into one bucket of a table that holds nothing
    else cause no resize *)
Lemma fill_same (n h : Z) (fuel : nat) (kvs : list (Z * Z)) :
  forall (s : CHash) (B : list (list Z)),
  Inv s B -> HashTableSize s = n -> 3 <= n <= 5242880 ->
  NumUsedSlots s <= 1 ->
  MaxListLength s = Z.max 0 (NumTotalRecords s - 1) ->
  (forall a, a ∈ mjoin B -> key_bucket n s a = h) ->
  (forall k, k ∈ kvs.*1 -> HashPointer k mod n = h) ->
  NoDup (kvs.*1 ++ (node_key (mem s) <$> mjoin B)) ->
  NumTotalRecords s + Z.of_nat (length kvs) <= 5 ->
  brk s + 31 * Z.of_nat (length kvs) < 2 ^ 63 - 32 ->
  (length (mjoin B) + length kvs <= fuel)%nat ->
  exists slots s' B',
    lookups fuel s kvs = Ok (slots, s') /\ Inv s' B' /\
    HashTableSize s' = n /\ NumUsedSlots s' <= 1 /\
    MaxListLength s' = Z.max 0 (NumTotalRecords s' - 1) /\
    NumTotalRecords s' = NumTotalRecords s + Z.of_nat (length kvs) /\
    (forall a, a ∈ mjoin B' -> key_bucket n s' a = h) /\
    node_key (mem s') <$> mjoin B' ≡ₚ kvs.*1 ++ (node_key (mem s) <$> mjoin B) /\
    brk s' <= brk s + 31 * Z.of_nat (length kvs).
Proof.
  induction kvs as [|[k v] kvs IH];
    intros s B HI Hsz Hn Hu Hmx Hall Hkh Hnd H5 Hb Hf.
  - exists [], s, B. cbn [lookups length fmap list_fmap app]. split_and!; try done; lia.
  - cbn [length] in H5, Hb, Hf. cbn [fmap list_fmap app fst] in Hnd, Hkh.
    apply NoDup_cons in Hnd as [Hk Hnd].
    pose proof (inv_total _ _ HI) as Htot.
    assert (HF : fits s).
    { unfold fits. rewrite Hsz. change (2 ^ 30) with 1073741824.
      change (2 ^ 32) with 4294967296. split_and!; lia. }
    destruct (bucket_of_key s B HI (fits_in_range _ HF) k) as [l Hl].
    rewrite Hsz in Hl. rewrite (Hkh k ltac:(left)) in Hl.
    assert (Hlen : length l = length (mjoin B)).
    { apply (same_bucket_chain s B h l HI (fits_in_range _ HF)); [|done].
      rewrite Hsz. exact Hall. }
    assert (Hk' : k ∉ (node_key (mem s) <$> mjoin B)).
    { intros Hx. apply Hk, elem_of_app. by right. }
    pose proof (insert_store s B fuel k v l HI HF ltac:(lia) Hk') as H.
    rewrite Hsz, (Hkh k ltac:(left)) in H. specialize (H Hl). cbv zeta in H.
    destruct H as (a & s1 & B1 & E1 & HIp & Hperm & Hnin & Hka & Hkeys & Etot & _
                   & Hno & _).
    set (sp := populate s1 (a + off_value) v) in *.
    assert (Hused : NumUsedSlots s + (if decide (l = []) then 1 else 0) = 1).
    { pose proof (used_le_total B) as Hle.
      pose proof (inv_used _ _ HI) as Iu.
      destruct (decide (l = [])) as [->|Hne].
      - cbn [length] in Hlen. lia.
      - assert (0 < NumTotalRecords s) by (destruct l; [done|cbn [length] in Hlen; lia]).
        pose proof (used_pos s B HI ltac:(done)). lia. }
    rewrite Hused, Hlen, <- Htot in Hno.
    destruct Hno as (Esz & Eu & Em & Eb).
    { destruct (resize_test n 1 (NumTotalRecords s + 1)
                  (Z.max (MaxListLength s) (NumTotalRecords s))) eqn:Et; [|done].
      apply resize_test_exact in Et; [|lia|change (2 ^ 24) with 16777216; lia ..].
      unfold resize_wanted in Et. lia. }
    destruct (IH sp B1) as (slots & s' & B' & E2 & HI' & Esz' & Eu' & Em' & Etot'
                            & Hall' & Hperm' & Eb'); try done.
    all: try lia.
    + intros b Hb'. rewrite Hperm in Hb'. apply elem_of_cons in Hb' as [->|Hb'].
      * rewrite key_bucket_eq, Hka. apply Hkh. left.
      * rewrite key_bucket_eq, (Hkeys b Hb'), <- key_bucket_eq. by apply Hall.
    + intros k' Hk''. apply Hkh. by right.
    + rewrite (node_key_insert s sp B B1 a k Hperm Hka Hkeys).
      apply (NoDup_Permutation_proper _ _ (Permutation_middle _ _ _)).
      by apply NoDup_cons.
    + rewrite Hperm. cbn [length]. lia.
    + exists (a + off_value :: slots), s', B'. cbn [length].
      split_and!; try done; try lia.
      * cbn [lookups]. rewrite E1. cbn [bind]. fold sp. by rewrite E2.
      * rewrite Hperm', (node_key_insert s sp B B1 a k Hperm Hka Hkeys).
        cbn [fmap list_fmap app fst]. symmetry. apply Permutation_middle.
Qed.

(** room for as many insertions as the sequence is long keeps the table
    within the machine ranges all along *)
Lemma fits_along_room (kvs : list (Z * Z)) :
  forall (s : CHash) (B : list (list Z)) (fuel : nat),
  Inv s B -> room (Z.of_nat (length kvs)) s ->
  (length (mjoin B) + length kvs < fuel)%nat ->
  NoDup (kvs.*1) ->
  (forall k, k ∈ kvs.*1 -> k ∉ (node_key (mem s) <$> mjoin B)) ->
  fits_along fuel s kvs.
Proof.
  induction kvs as [|[k v] kvs IH]; intros s B fuel HI HR Hf Hnd Hnew.
  - cbn. destruct (inv_size _ _ HI) as [Hsz _]. apply (room_fits 0); [lia|lia|done].
  - cbn [length] in HR, Hf. cbn [fmap list_fmap fst] in Hnd, Hnew.
    apply NoDup_cons in Hnd as [Hk Hnd].
    destruct (inv_size _ _ HI) as [Hsz _].
    cbn [fits_along].
    split; [apply (room_fits (Z.of_nat (S (length kvs))) s); [lia|lia|exact HR]|].
    replace (Z.of_nat (S (length kvs))) with (Z.of_nat (length kvs) + 1) in HR by lia.
    destruct (insert_step s B fuel k (Z.of_nat (length kvs)) HI ltac:(lia) HR
                ltac:(lia) (Hnew k ltac:(left)))
      as (a & s1 & B1 & E1 & HI1 & HR1 & Hperm & Hnin & Hka & Hva & Hold).
    rewrite E1.
    assert (Ha : a ∈ mjoin B1) by (rewrite Hperm; by left).
    destruct (Inv_populate s1 B1 a v HI1 Ha) as (HIp & Hkeys & Hvals).
    destruct (populate_fields s1 (a + off_value) v) as (F1 & F2 & F3).
    apply (IH _ B1); try done.
    + destruct HR1 as (R1 & R2 & R3). unfold room. by rewrite F1, F2, F3.
    + rewrite Hperm. cbn [length]. lia.
    + intros k' Hk' (b & Eb & Hb)%list_elem_of_fmap.
      rewrite (Hkeys b Hb) in Eb. rewrite Hperm in Hb.
      apply elem_of_cons in Hb as [->|Hb].
      * rewrite Hka in Eb. by subst k'.
      * destruct (Hold b Hb) as [Eb' _]. rewrite Eb' in Eb.
        apply (Hnew k' ltac:(by right)). apply list_elem_of_fmap.
        exists b. split; [exact Eb|exact Hb].
Qed.

(** C7 (as amended).  Twelve distinct keys that all fall into the same
    bucket of a freshly constructed table of [n] buckets: the first five
    insertions cause no resize and leave one used slot, five records and a
    longest-chain statistic of 4; the sixth insertion causes the first
    resize, to [2 * n] buckets, because six records in one used slot are
    more than 5 per slot; and after all twelve insertions, each followed by
    the caller's store, every key is found again at the slot its insertion
    returned, with its value, whatever resizes the later insertions
    caused. *)
Theorem colliding_keys (n b h : Z) (fuel : nat) (kvs : list (Z * Z)) :
  3 <= n <= 2 ^ 17 -> 0 < b < 2 ^ 62 -> length kvs = 12%nat ->
  NoDup (kvs.*1) ->
  (forall k, k ∈ kvs.*1 -> HashPointer k mod n = h) ->
  (12 < fuel)%nat ->
  (exists slots s,
     lookups fuel (fresh_table n b) (take 5 kvs) = Ok (slots, s) /\
     HashTableSize s = n /\ NumTotalRecords s = 5 /\ MaxListLength s = 4) /\
  (exists slots s,
     lookups fuel (fresh_table n b) (take 6 kvs) = Ok (slots, s) /\
     HashTableSize s = 2 * n) /\
  (exists slots s,
     lookups fuel (fresh_table n b) kvs = Ok (slots, s) /\
     NumTotalRecords s = 12 /\
     forall (i : nat) k v slot, kvs !! i = Some (k, v) -> slots !! i = Some slot ->
       load (mem s) slot = v /\
       exists s'', LookupPointer fuel s k = Ok (slot, s'') /\ mem s'' = mem s).
Proof.
  intros Hn Hb Hlen Hnd Hkh Hf.
  change (2 ^ 62) with 4611686018427387904 in Hb.
  change (2 ^ 17) with 131072 in Hn.
  pose proof (Inv_fresh_table n b ltac:(change (2 ^ 30) with 1073741824; lia)
                ltac:(lia)) as HI0.
  destruct (fresh_table_fields n b ltac:(lia)) as (F1 & F2 & F3 & F4 & F5).
  destruct (align_up_8 b) as [Hal _]. change 8 with sizeof_ptr in Hal at 1.
  rewrite u64_small in F5
    by (unfold sizeof_ptr; change (2 ^ 64) with 18446744073709551616; lia).
  unfold sizeof_ptr in F5, Hal.
  set (s0 := fresh_table n b) in *.
  set (B0 := replicate (Z.to_nat n) (@nil Z)) in *.
  assert (J0 : mjoin B0 = []) by apply join_replicate_nil.
  assert (Hsplit : kvs = take 5 kvs ++ drop 5 kvs) by (by rewrite take_drop).
  destruct (drop 5 kvs) as [|[k6 v6] rest] eqn:Hd.
  { apply (f_equal length) in Hsplit. rewrite length_app, length_take in Hsplit.
    cbn [length] in Hsplit. lia. }
  assert (H5 : length (take 5 kvs) = 5%nat) by (rewrite length_take; lia).
  assert (Hnd5 : NoDup ((take 5 kvs).*1 ++ [k6])).
  { rewrite Hsplit, fmap_app in Hnd. cbn [fmap list_fmap fst] in Hnd.
    apply NoDup_app in Hnd as (N1 & N2 & N3). apply NoDup_app. split_and!; [done| |].
    - intros x Hx Hx'. apply list_elem_of_singleton in Hx'. subst x.
      apply (N2 k6 Hx). left.
    - apply NoDup_singleton. }
  assert (Hkh5 : forall k, k ∈ (take 5 kvs).*1 ++ [k6] -> HashPointer k mod n = h).
  { intros k Hk. apply Hkh. rewrite Hsplit, fmap_app. cbn [fmap list_fmap fst].
    apply elem_of_app in Hk as [Hk|Hk]; apply elem_of_app; [by left|right].
    apply list_elem_of_singleton in Hk. subst k. left. }
  destruct (fill_same n h fuel (take 5 kvs) s0 B0 HI0 F1 ltac:(lia) ltac:(lia))
    as (slots5 & s5 & B5 & E5 & HI5 & Esz5 & Eu5 & Em5 & Et5 & Hall5 & Hperm5 & Eb5).
  { by rewrite F4, F3. }
  { rewrite J0. intros a Ha. by apply elem_of_nil in Ha. }
  { intros k Hk. apply Hkh5, elem_of_app. by left. }
  { rewrite J0. cbn [fmap list_fmap]. rewrite app_nil_r.
    by apply NoDup_app in Hnd5 as (N1 & _ & _). }
  { rewrite F3, H5. lia. }
  { rewrite F5, H5. change (2 ^ 63) with 9223372036854775808. lia. }
  { rewrite J0, H5. cbn [length]. lia. }
  rewrite F3, H5 in Et5. rewrite J0 in Hperm5. cbn [fmap list_fmap] in Hperm5.
  rewrite app_nil_r in Hperm5. rewrite H5 in Eb5.
  split_and!.
  - exists slots5, s5. split_and!; try done; lia.
  - (* the sixth insertion *)
    assert (HF : fits s5).
    { unfold fits. rewrite Esz5, Et5. change (2 ^ 30) with 1073741824.
      change (2 ^ 32) with 4294967296. change (2 ^ 63) with 9223372036854775808.
      split_and!; lia. }
    pose proof (inv_total _ _ HI5) as Htot5.
    destruct (bucket_of_key s5 B5 HI5 (fits_in_range _ HF) k6) as [l Hl].
    rewrite Esz5 in Hl. rewrite (Hkh5 k6) in Hl by (apply elem_of_app; right; left).
    assert (Hlen5 : length l = length (mjoin B5)).
    { apply (same_bucket_chain s5 B5 h l HI5 (fits_in_range _ HF)); [|done].
      rewrite Esz5. exact Hall5. }
    assert (Hk6 : k6 ∉ (node_key (mem s5) <$> mjoin B5)).
    { rewrite Hperm5. apply NoDup_app in Hnd5 as (_ & N2 & _).
      intros Hx. apply (N2 k6 Hx). left. }
    pose proof (insert_store s5 B5 fuel k6 v6 l HI5 HF ltac:(lia) Hk6) as H.
    rewrite Esz5 in H. rewrite (Hkh5 k6) in H by (apply elem_of_app; right; left).
    specialize (H Hl). cbv zeta in H.
    destruct H as (a & s1 & B1 & E1 & _ & _ & _ & _ & _ & _ & _ & _ & Hyes).
    assert (Hused : NumUsedSlots s5 + (if decide (l = []) then 1 else 0) = 1).
    { destruct (decide (l = [])) as [->|Hne]; [cbn [length] in Hlen5; lia|].
      pose proof (used_pos s5 B5 HI5 ltac:(lia)). lia. }
    rewrite Hused, Hlen5, <- Htot5, Et5, Em5, Et5 in Hyes.
    exists (slots5 ++ [a + off_value]), (populate s1 (a + off_value) v6). split.
    + assert (H6 : kvs !! 5%nat = Some (k6, v6)).
      { rewrite <- (Nat.add_0_r 5), <- lookup_drop, Hd. done. }
      rewrite (take_S_r kvs 5 _ H6).
      apply (lookups_app _ _ _ _ s5 _ _ _ E5). cbn [lookups]. rewrite E1.
      cbn [bind]. done.
    + apply Hyes. apply resize_test_exact;
        [lia|change (2 ^ 24) with 16777216; lia ..|]. right. left. lia.
  - (* all twelve *)
    assert (HR : room (Z.of_nat (length kvs)) s0).
    { unfold room. rewrite F1, F3, F5, Hlen.
      change (2 ^ Z.of_nat 12) with 4096. change (2 ^ 30) with 1073741824.
      change (2 ^ 32) with 4294967296. change (2 ^ 35) with 34359738368.
      change (2 ^ 63) with 9223372036854775808. lia. }
    assert (Hnew : forall k, k ∈ kvs.*1 -> k ∉ (node_key (mem s0) <$> mjoin B0)).
    { intros k _. rewrite J0. apply not_elem_of_nil. }
    assert (Hfu : (length (mjoin B0) + length kvs < fuel)%nat).
    { rewrite J0, Hlen. cbn [length]. lia. }
    pose proof (fits_along_room kvs s0 B0 fuel HI0 HR Hfu Hnd Hnew) as HA.
    destruct (lookups_spec kvs s0 B0 fuel HI0 HA Hfu Hnd Hnew)
      as (nodes & s' & B' & E & HI' & HF' & Hperm & Hall & _).
    exists ((fun a => a + off_value) <$> nodes), s'. split_and!; [done| |].
    + rewrite (inv_total _ _ HI'), Hperm, J0, app_nil_r.
      rewrite (Forall2_length _ _ _ Hall), Hlen. done.
    + intros i k v slot Hi Hs.
      rewrite list_lookup_fmap in Hs.
      destruct (nodes !! i) as [a|] eqn:Ea; [|done]. injection Hs as <-.
      destruct (Forall2_lookup_lr _ _ _ _ _ _ Hall Ea Hi) as [Hk Hv].
      cbn [fst snd] in Hk, Hv. split; [exact Hv|].
      assert (Ha : a ∈ mjoin B').
      { rewrite Hperm. apply elem_of_app. left. by eapply list_elem_of_lookup_2. }
      assert (Hf' : (length (mjoin B') < fuel)%nat).
      { rewrite Hperm, length_app, J0, (Forall2_length _ _ _ Hall), Hlen.
        cbn [length]. lia. }
      destruct (LookupPointer_hit s' B' fuel HI' HF' Hf' a Ha) as (mx & _ & E').
      rewrite Hk in E'. eexists. split; [exact E'|done].
Qed.

(** the instance: the twelve keys fall into bucket 6 of a table of 8 *)
Lemma colliding_keys_witness :
  (exists slots s,
     lookups 16 (fresh_table 8 65536) (take 5 twelve_keys) = Ok (slots, s) /\
     HashTableSize s = 8 /\ NumTotalRecords s = 5 /\ MaxListLength s = 4) /\
  (exists slots s,
     lookups 16 (fresh_table 8 65536) (take 6 twelve_keys) = Ok (slots, s) /\
     HashTableSize s = 2 * 8) /\
  (exists slots s,
     lookups 16 (fresh_table 8 65536) twelve_keys = Ok (slots, s) /\
     NumTotalRecords s = 12 /\
     forall (i : nat) k v slot, twelve_keys !! i = Some (k, v) ->
       slots !! i = Some slot ->
       load (mem s) slot = v /\
       exists s'', LookupPointer 16 s k = Ok (slot, s'') /\ mem s'' = mem s).
Proof.
  apply (colliding_keys 8 65536 6 16 twelve_keys).
  - vm_compute. split; discriminate.
  - vm_compute. split; reflexivity.
  - reflexivity.
  - apply (bool_decide_unpack _). vm_compute. reflexivity.
  - apply Forall_forall. apply (bool_decide_unpack _). vm_compute. reflexivity.
  - lia.
Defined.
